(** * SimpleFS: an in-memory hierarchical namespace

    A shallow embedding of [simplefs.c] (the namespace engine) and of
    [main.c] (the path resolver and the command layer), together with the
    properties of the engine stated in the specification.

    Nodes live in a heap indexed by addresses; a C pointer is an
    [option addr] ([None] is [NULL]).  A function of the engine that
    dereferences [NULL], a freed node, or the inactive member of the
    [payload] union has undefined behaviour in C: the embedding returns
    [Fault] there.  Loops and recursions that follow pointers take a [fuel]
    argument and return [NoFuel] when it runs out; the theorems show that
    enough fuel always yields a result on a well-formed tree. *)

From stdpp Require Import gmap strings list fin_maps sorting.
From Stdlib Require Import ZArith Ascii String.

Local Open Scope string_scope.
Local Open Scope list_scope.
Local Open Scope Z_scope.

(** ** Outcomes of a computation *)

Inductive result (A : Type) : Type :=
  | Ok (a : A)
  | Fault
  | NoFuel.

Arguments Ok {A} a.
Arguments Fault {A}.
Arguments NoFuel {A}.

Global Instance result_bind : MBind result := λ A B k r,
  match r with
  | Ok a => k a
  | Fault => Fault
  | NoFuel => NoFuel
  end.

(** ** Data model: [node_t] of simplefs.h *)

Abbreviation addr := positive.

(** The two values of [type] that the sources use. *)
Inductive node_type : Set := Dir | File.

Global Instance node_type_eq_dec : EqDecision node_type.
Proof. solve_decision. Defined.

(** Modelled from the spec: the per-directory associative container
    ([hashtable_create], [hashtable_get], [hashtable_set],
    [hashtable_remove], [hashtable_get_size], [hashtable_iterate]) is not
    part of the sources.  The spec describes it as a mapping from a name to
    a child node supporting get, set, remove, size and iterate. *)
Abbreviation hashtable := (gmap string addr).

Definition hashtable_create : hashtable := ∅.
Definition hashtable_get (t : hashtable) (key : string) : option addr := t !! key.
Definition hashtable_set (t : hashtable) (key : string) (v : addr) : hashtable :=
  <[key := v]> t.
Definition hashtable_remove (t : hashtable) (key : string) : hashtable :=
  delete key t.
Definition hashtable_get_size (t : hashtable) : Z := Z.of_nat (size t).

(** The [payload] union of a node. *)
Inductive payload_t : Type :=
  | content (s : string)
  | dirhash (t : hashtable).

(** The fields of [node_t] that the sources use.  A name is the value
    of the C string.  The C type of [depth] is declared in simplefs.h; it
    is taken wide enough for [parent->depth + 1] not to wrap, which the
    test of [fs_create] against [MAX_DEPTH] is there to ensure.  The table
    of a directory is held in the node that owns it. *)
Record node_t : Type := Node {
  name : string;
  depth : Z;
  parent : option addr;
  type : node_type;
  payload : payload_t
}.

(** The allocated nodes; [free] removes a node. *)
Abbreviation heap := (gmap addr node_t).

Definition set_payload (n : node_t) (p : payload_t) : node_t :=
  {| name := name n; depth := depth n; parent := parent n;
     type := type n; payload := p |}.

(** [node->field]: the node must be allocated. *)
Definition load (h : heap) (p : addr) : result node_t :=
  match h !! p with
  | Some n => Ok n
  | None => Fault
  end.

(** [ptr->field] for a pointer that may be [NULL]. *)
Definition load_ptr (h : heap) (p : option addr) : result node_t :=
  match p with
  | Some a => load h a
  | None => Fault
  end.

(** [node->payload.dirhash] and [node->payload.content]. *)
Definition payload_dirhash (n : node_t) : result hashtable :=
  match payload n with
  | dirhash t => Ok t
  | content _ => Fault
  end.

Definition payload_content (n : node_t) : result string :=
  match payload n with
  | content s => Ok s
  | dirhash _ => Fault
  end.

(** Modelled from the spec: [malloc_or_die] and [calloc_or_die] are not
    part of the sources; creation "allocates a new Node".  The result is
    a block that is not allocated at the time of the call (it may have
    been released before); running out of memory ends the process and is
    not modelled.  A string that [my_strdup] or [calloc_or_die] returns
    is its value. *)
Definition malloc_or_die (h : heap) : addr := fresh (dom h).

(** ** [strtok]

    [strtok str delim saved] is one call of the C library function:
    [str] is the string to scan ([None] for [NULL], which continues from
    the saved position [saved]).  It skips leading delimiters and returns
    the token that follows (if any) with the new saved position. *)

Definition is_delim (delim : string) (c : ascii) : bool :=
  existsb (Ascii.eqb c) (list_ascii_of_string delim).

Fixpoint skip_delims (delim : string) (s : string) : string :=
  match s with
  | EmptyString => EmptyString
  | String c s' => if is_delim delim c then skip_delims delim s' else s
  end.

Fixpoint split_token (delim : string) (s : string) : string * string :=
  match s with
  | EmptyString => (EmptyString, EmptyString)
  | String c s' =>
      if is_delim delim c then (EmptyString, s')
      else let '(tok, rest) := split_token delim s' in (String c tok, rest)
  end.

Definition strtok (str : option string) (delim : string) (saved : string)
  : option string * string :=
  match skip_delims delim (default saved str) with
  | EmptyString => (None, EmptyString)
  | s => let '(tok, rest) := split_token delim s in (Some tok, rest)
  end.

Definition LF : string := String (ascii_of_nat 10) EmptyString.
Definition CR : string := String (ascii_of_nat 13) EmptyString.

(** The delimiter sets used by main.c: space-slash-LF-CR for the first
    component of a path, slash-LF-CR for the following ones, space-LF-CR
    for the words of a command line, quote-LF-CR for the content. *)
Definition delim_first : string := " /" +:+ LF +:+ CR.
Definition delim_next : string := "/" +:+ LF +:+ CR.
Definition delim_word : string := " " +:+ LF +:+ CR.
Definition delim_quote : string := String (ascii_of_nat 34) (LF +:+ CR).

(** ** What simplefs.h provides *)

(** Modelled from the spec: simplefs.h is not part of the sources.  It
    defines the limits [MAX_NODES], [MAX_NAMELENGHT] and [MAX_DEPTH], which
    the spec names without giving their values, and declares the table.
    [hashtable_iterate] walks the entries of a table in an order that the
    spec leaves unspecified: [hashtable_order t] is that order, some
    permutation of the entries. *)
Class SimpleFS_H : Type := {
  MAX_NODES : Z;
  MAX_NAMELENGHT : Z;
  MAX_DEPTH : Z;
  hashtable_order : hashtable → list (string * addr);
  hashtable_order_perm : ∀ t, hashtable_order t ≡ₚ map_to_list t
}.

Section Engine.

Context `{hdr : SimpleFS_H}.

(** Modelled from the spec: [hashtable_iterate] returns the element at
    the position [state] of the iteration order ([None], that is [NULL],
    past the end) and advances the cursor. *)
Definition hashtable_children (t : hashtable) : list addr :=
  snd <$> hashtable_order t.

Definition hashtable_iterate (t : hashtable) (state : nat) : option addr * nat :=
  (hashtable_children t !! state, S state).

(** ** simplefs.c *)

(** Free file structure and delete directory entry. *)
Definition fs_free_file (h : heap) (file : addr) : result heap :=
  n ← load h file;
  _ ← payload_content n;
  pn ← load_ptr h (parent n);
  t ← payload_dirhash pn;
  match parent n with
  | Some p =>
      let h1 := <[p := set_payload pn (dirhash (hashtable_remove t (name n)))]> h in
      Ok (delete file h1)
  | None => Fault
  end.

(** Free directory structure and delete parent directory entry. *)
Definition fs_free_dir (h : heap) (dir : addr) : result (Z * heap) :=
  n ← load h dir;
  t ← payload_dirhash n;
  if decide (hashtable_get_size t = 0) then
    pn ← load_ptr h (parent n);
    pt ← payload_dirhash pn;
    match parent n with
    | Some p =>
        let h1 := <[p := set_payload pn (dirhash (hashtable_remove pt (name n)))]> h in
        Ok (0, delete dir h1)
    | None => Fault
    end
  else Ok (-1, h).

(** Create and return a new string with node full path.  One round of
    the [do ... while] loop prepends the name of [node], moves [node] to
    its parent and then reads [node->parent] for the loop test. *)
Fixpoint fs_get_path_loop (fuel : nat) (h : heap) (node : addr) (path : string)
  : result string :=
  match fuel with
  | O => NoFuel
  | S fuel' =>
      n ← load h node;
      let path' := "/" +:+ name n +:+ path in
      pn ← load_ptr h (parent n);
      match parent n, parent pn with
      | Some p, Some _ => fs_get_path_loop fuel' h p path'
      | _, _ => Ok path'
      end
  end.

Definition fs_get_path (fuel : nat) (h : heap) (node : addr) : result string :=
  fs_get_path_loop fuel h node "".

(** Get node type, Dir or File. *)
Definition fs_get_type (h : heap) (node : addr) : result node_type :=
  n ← load h node; Ok (type n).

(** Get file content; [None] is the [NULL] result. *)
Definition fs_get_file_content (h : heap) (node : addr) : result (option string) :=
  n ← load h node;
  if decide (type n ≠ File) then Ok None
  else s ← payload_content n; Ok (Some s).

(** Assign new content to a file. Return 0 if succeeded, -1 if failed. *)
Definition fs_set_file_content (h : heap) (node : addr) (new_content : string)
  : result (Z * heap) :=
  ty ← fs_get_type h node;
  if decide (ty ≠ File) then Ok (-1, h)
  else
    n ← load h node;
    _ ← payload_content n;
    Ok (0, <[node := set_payload n (content new_content)]> h).

(** Get a node by name from a specific directory, [None] if not found. *)
Definition fs_find_in_dir (h : heap) (parent : addr) (key : string)
  : result (option addr) :=
  pn ← load h parent;
  t ← payload_dirhash pn;
  Ok (hashtable_get t key).

(** Create new empty file or dir in a specific directory.
    Return 0 if succeeded, -1 if failed. *)
Definition fs_create (h : heap) (parent : addr) (key : string) (ty : node_type)
  : result (Z * heap) :=
  pn ← load h parent;
  t ← payload_dirhash pn;
  if bool_decide (hashtable_get t key ≠ None)
     || bool_decide (hashtable_get_size t >= MAX_NODES)
     || bool_decide (Z.of_nat (String.length key) > MAX_NAMELENGHT)
     || bool_decide (depth pn >= MAX_DEPTH)
  then Ok (-1, h)
  else
    let child := malloc_or_die h in
    let cn := {| name := key; depth := depth pn + 1; parent := Some parent;
                 type := ty;
                 payload := match ty with
                            | Dir => dirhash hashtable_create
                            | File => content ""
                            end |} in
    let h1 := <[child := cn]> h in
    (* Add resource to its parent's hashtable *)
    pn1 ← load h1 parent;
    t1 ← payload_dirhash pn1;
    Ok (0, <[parent := set_payload pn1 (dirhash (hashtable_set t1 key child))]> h1).

(** Delete a leaf. Return 0 if succeeded, -1 if failed. *)
Definition fs_delete (h : heap) (node : addr) : result (Z * heap) :=
  n ← load h node;
  match type n with
  | Dir => fs_free_dir h node
  | File => h' ← fs_free_file h node; Ok (0, h')
  end.

(** Delete a resource recursively.  [fs_delete_r_loop] is the [while]
    loop: the cursor is reset to 0 before each call of
    [hashtable_iterate]. *)
Fixpoint fs_delete_r (fuel : nat) (h : heap) (node : addr) {struct fuel}
  : result heap :=
  match fuel with
  | O => NoFuel
  | S fuel' =>
      n ← load h node;
      match type n with
      | Dir =>
          t ← payload_dirhash n;
          h1 ← (if decide (hashtable_get_size t > 0)
                then fs_delete_r_loop fuel' h node
                else Ok h);
          '(_, h2) ← fs_free_dir h1 node;
          Ok h2
      | File => fs_free_file h node
      end
  end
with fs_delete_r_loop (fuel : nat) (h : heap) (node : addr) {struct fuel}
  : result heap :=
  match fuel with
  | O => NoFuel
  | S fuel' =>
      n ← load h node;
      t ← payload_dirhash n;
      match fst (hashtable_iterate t 0) with
      | Some child =>
          h1 ← fs_delete_r fuel' h child;
          fs_delete_r_loop fuel' h1 node
      | None => Ok h
      end
  end.

(** Create a new root directory. *)
Definition fs_new_root (h : heap) : addr * heap :=
  let root := malloc_or_die h in
  (root, <[root := {| name := ""; depth := 1; parent := None; type := Dir;
                      payload := dirhash hashtable_create |}]> h).

(** Find resources recursively given a starting directory.  [name'] is
    [None] for a [NULL] pointer, which [strcmp] dereferences.  The cursor
    of [hashtable_iterate] runs over [hashtable_children] from position 0
    without being reset, so the [while] loop is a traversal of that list.
    [array] is the array of results, which grows at its end, and [*num] is
    its length. *)
Fixpoint fs_find_r_loop (rec : addr → list addr → result (list addr))
    (h : heap) (name' : option string) (children : list addr)
    (array : list addr) : result (list addr) :=
  match children with
  | [] => Ok array
  | child :: rest =>
      cn ← load h child;
      nm ← from_option Ok Fault name';
      let array1 := if decide (name cn = nm) then array ++ [child] else array in
      array2 ← (if decide (type cn = Dir) then rec child array1 else Ok array1);
      fs_find_r_loop rec h name' rest array2
  end.

Fixpoint fs_find_r (fuel : nat) (h : heap) (node : addr) (name' : option string)
    (array : list addr) : result (list addr) :=
  match fuel with
  | O => NoFuel
  | S fuel' =>
      n ← load h node;
      t ← payload_dirhash n;
      fs_find_r_loop (λ child arr, fs_find_r fuel' h child name' arr)
        h name' (hashtable_children t) array
  end.

(** ** main.c *)

(** Find resource by its path string.  The result is the returned node
    together with the value stored through [new_name], if any;
    [new_name] tells whether the caller passed a non-[NULL] pointer. *)
Fixpoint enter_path_loop (fuel : nat) (h : heap) (node : addr)
    (cur_token next_token : option string) (saved : string) (new_name : bool)
  : result (option addr * option string) :=
  match cur_token with
  | None => Ok (Some node, None)
  | Some tok =>
      match fuel with
      | O => NoFuel
      | S fuel' =>
          ty ← fs_get_type h node;
          if decide (ty = Dir) then
            tmp ← fs_find_in_dir h node tok;
            match tmp with
            | Some child =>
                let '(next', saved') := strtok None delim_next saved in
                enter_path_loop fuel' h child next_token next' saved' new_name
            | None =>
                if new_name && bool_decide (next_token = None)
                then Ok (Some node, Some tok)
                else Ok (None, None)
            end
          else Ok (None, None)
      end
  end.

(** [path] is [None] when the caller passes [NULL] and the tokens come
    from the saved position of the command line.  The loop takes at most
    one round per token, and a string has no more tokens than characters:
    the fuel handed to the loop never runs out ([enter_path_walk]). *)
Definition enter_path (h : heap) (node : addr) (path : option string)
    (saved : string) (new_name : bool) : result (option addr * option string) :=
  let '(cur_token, saved1) := strtok path delim_first saved in
  let '(next_token, saved2) := strtok None delim_next saved1 in
  match cur_token with
  | None => Ok (None, None)
  | Some _ =>
      enter_path_loop (S (String.length (default saved path))) h node
        cur_token next_token saved2 new_name
  end.

(** The responses printed by the command layer. *)
Inductive response : Type :=
  | RES_OK
  | RES_FAIL
  | RES_READ (x : string)
  | RES_WRITE (x : Z)
  | RES_FIND (x : string).

(** create <path>, create_dir <path> *)
Definition do_create (h : heap) (node : addr) (saved : string) (ty : node_type)
  : result (heap * list response) :=
  '(node', name') ← enter_path h node None saved true;
  match name' with
  | Some nm =>
      pn ← from_option Ok Fault node';
      '(res, h') ← fs_create h pn nm ty;
      Ok (h', [if decide (res = 0) then RES_OK else RES_FAIL])
  | None => Ok (h, [RES_FAIL])
  end.

(** read <path> *)
Definition do_read (h : heap) (node : addr) (saved : string)
  : result (heap * list response) :=
  '(node', _) ← enter_path h node None saved false;
  match node' with
  | Some n =>
      c ← fs_get_file_content h n;
      match c with
      | Some s => Ok (h, [RES_READ s])
      | None => Ok (h, [RES_FAIL])
      end
  | None => Ok (h, [RES_FAIL])
  end.

(** The conversion [(int) strlen(...)] of [do_write]: [int] is taken 32
    bits wide, and a length out of its range wraps around. *)
Definition int_of_size_t (x : Z) : Z := (x + 2 ^ 31) mod 2 ^ 32 - 2 ^ 31.

(** write <path> <content in quotes> *)
Definition do_write (h : heap) (node : addr) (saved : string)
  : result (heap * list response) :=
  let '(path, saved1) := strtok None delim_word saved in
  let '(new_content, saved2) := strtok None delim_quote saved1 in
  '(node', _) ← enter_path h node path saved2 false;
  match node', new_content with
  | Some n, Some c =>
      '(res, h') ← fs_set_file_content h n c;
      if decide (res = 0)
      then Ok (h', [RES_WRITE (int_of_size_t (Z.of_nat (String.length c)))])
      else Ok (h', [RES_FAIL])
  | _, _ => Ok (h, [RES_FAIL])
  end.

(** delete <path>, delete_r <path> *)
Definition do_delete (fuel : nat) (h : heap) (node : addr) (saved : string)
    (recursive : bool) : result (heap * list response) :=
  '(node', _) ← enter_path h node None saved false;
  match node' with
  | Some n =>
      if recursive then
        h' ← fs_delete_r fuel h n;
        Ok (h', [RES_OK])
      else
        '(res, h') ← fs_delete h n;
        Ok (h', [if decide (res = 0) then RES_OK else RES_FAIL])
  | None => Ok (h, [RES_FAIL])
  end.

Fixpoint get_paths (fuel : nat) (h : heap) (res : list addr) : result (list string) :=
  match res with
  | [] => Ok []
  | n :: res' =>
      p ← fs_get_path fuel h n;
      ps ← get_paths fuel h res';
      Ok (p :: ps)
  end.

(** Modelled from the spec: [compare_str], the comparison passed to
    [qsort], is not part of the sources; the spec has the paths sorted
    lexicographically. *)
Definition compare_str (a b : string) : Prop := String.leb a b = true.

Global Instance compare_str_dec a b : Decision (compare_str a b).
Proof. unfold compare_str. apply _. Defined.

(** find <name> *)
Definition do_find (fuel : nat) (h : heap) (root : addr) (saved : string)
  : result (heap * list response) :=
  let '(token, _) := strtok None delim_word saved in
  res ← fs_find_r fuel h root token [];
  if decide (0 < List.length res)%nat then
    paths ← get_paths fuel h res;
    Ok (h, RES_FIND <$> merge_sort compare_str paths)
  else Ok (h, [RES_FAIL]).

(** One round of the command parser of [main]: the result tells whether
    the loop goes on ([false] after [exit]). *)
Definition main_step (fuel : nat) (h : heap) (root : addr) (line : string)
  : result (bool * heap * list response) :=
  let '(token, saved) := strtok (Some line) delim_word "" in
  match token with
  | Some tok =>
      if decide (tok = "create") then
        '(h', out) ← do_create h root saved File; Ok (true, h', out)
      else if decide (tok = "create_dir") then
        '(h', out) ← do_create h root saved Dir; Ok (true, h', out)
      else if decide (tok = "read") then
        '(h', out) ← do_read h root saved; Ok (true, h', out)
      else if decide (tok = "write") then
        '(h', out) ← do_write h root saved; Ok (true, h', out)
      else if decide (tok = "delete") then
        '(h', out) ← do_delete fuel h root saved false; Ok (true, h', out)
      else if decide (tok = "delete_r") then
        '(h', out) ← do_delete fuel h root saved true; Ok (true, h', out)
      else if decide (tok = "find") then
        '(h', out) ← do_find fuel h root saved; Ok (true, h', out)
      else if decide (tok = "exit") then Ok (false, h, [])
      else Ok (true, h, [])
  | None => Ok (true, h, [])
  end.

(** Modelled from the spec: [my_getline] is not part of the sources; the
    command reader is line-oriented, and [lines] are the lines it returns
    one after the other.  The command loop of [main] stops at an empty
    line and at [exit]. *)
Fixpoint main_loop (fuel : nat) (h : heap) (root : addr) (lines : list string)
  : result (heap * list response) :=
  match lines with
  | [] => Ok (h, [])
  | line :: lines' =>
      if decide (line = "") then Ok (h, [])
      else
        r ← main_step fuel h root line;
        let '(continue, h1, out1) := r in
        if (continue : bool) then
          '(h2, out2) ← main_loop fuel h1 root lines';
          Ok (h2, out1 ++ out2)
        else Ok (h1, out1)
  end.

Definition main (fuel : nat) (lines : list string) : result (heap * list response) :=
  let '(root, h) := fs_new_root ∅ in
  main_loop fuel h root lines.

(** ** Engine mutations, for statements that range over all of them *)

Inductive mutation : Type :=
  | Create (parent : addr) (key : string) (ty : node_type)
  | Delete (node : addr)
  | SetContent (node : addr) (new_content : string).

Definition apply_mutation (h : heap) (m : mutation) : result (Z * heap) :=
  match m with
  | Create p key ty => fs_create h p key ty
  | Delete node => fs_delete h node
  | SetContent node c => fs_set_file_content h node c
  end.

(** The condition under which [fs_create] refuses to create [key] under a
    directory [pn] whose table is [t]. *)
Definition create_refused (pn : node_t) (t : hashtable) (key : string) : Prop :=
  t !! key ≠ None
  ∨ Z.of_nat (size t) >= MAX_NODES
  ∨ Z.of_nat (String.length key) > MAX_NAMELENGHT
  ∨ depth pn >= MAX_DEPTH.

Global Instance create_refused_dec pn t key : Decision (create_refused pn t key).
Proof. unfold create_refused. apply _. Defined.

(** The node that [fs_create] initialises. *)
Definition new_node (parent : addr) (pn : node_t) (key : string) (ty : node_type)
  : node_t :=
  {| name := key; depth := depth pn + 1; parent := Some parent; type := ty;
     payload := match ty with
                | Dir => dirhash ∅
                | File => content ""
                end |}.

(** ** Well-formed trees *)

(** The [type] tag names the active member of the [payload] union. *)
Definition tag_ok (n : node_t) : Prop :=
  match type n, payload n with
  | Dir, dirhash _ | File, content _ => True
  | _, _ => False
  end.

(** The invariants of the data model at the node [n] stored at [a]: only
    the root lacks a parent; a parent is a directory one level up that
    holds the node under its name; every entry of a directory is an
    allocated node that carries the entry's name and points back. *)
Record node_wf (root : addr) (h : heap) (a : addr) (n : node_t) : Prop := {
  wf_tag : tag_ok n;
  wf_depth : 1 ≤ depth n;
  wf_parent_none : parent n = None → a = root;
  wf_parent_some : ∀ p, parent n = Some p →
    ∃ pn t, h !! p = Some pn ∧ payload pn = dirhash t ∧
            t !! name n = Some a ∧ depth n = depth pn + 1;
  wf_children : ∀ t k c, payload n = dirhash t → t !! k = Some c →
    ∃ cn, h !! c = Some cn ∧ name cn = k ∧ parent cn = Some a
}.

Record wf (root : addr) (h : heap) : Prop := {
  wf_root : ∃ r, h !! root = Some r ∧ parent r = None ∧ type r = Dir;
  wf_nodes : ∀ a n, h !! a = Some n → node_wf root h a n
}.

(** [under h n a]: [a] is [n] or reaches [n] by parent links. *)
Inductive under (h : heap) (n : addr) : addr → Prop :=
  | under_refl : under h n n
  | under_step a an p :
      h !! a = Some an → parent an = Some p → under h n p → under h n a.

(** [resolves h a toks b]: looking up the names [toks] one after the
    other, starting in the directory [a], leads to [b]. *)
Inductive resolves (h : heap) : addr → list string → addr → Prop :=
  | resolves_nil a : resolves h a [] a
  | resolves_cons a an t tok c toks b :
      h !! a = Some an → type an = Dir → payload an = dirhash t →
      t !! tok = Some c → resolves h c toks b →
      resolves h a (tok :: toks) b.

(** The path string of a sequence of names, in front of [acc]. *)
Definition join (toks : list string) (acc : string) : string :=
  foldr (λ tok s, "/" +:+ tok +:+ s) acc toks.

(** The tokens that successive calls of [strtok] with [delim] return
    from the saved position [saved]. *)
Fixpoint tokens_from (fuel : nat) (delim : string) (saved : string) : list string :=
  match fuel with
  | O => []
  | S fuel' =>
      match strtok None delim saved with
      | (Some tok, rest) => tok :: tokens_from fuel' delim rest
      | (None, _) => []
      end
  end.

(** The components of a path as [enter_path] reads them: the first one
    with [delim_first], the others with [delim_next]. *)
Definition path_tokens (path : string) : list string :=
  match strtok (Some path) delim_first "" with
  | (Some tok, rest) => tok :: tokens_from (String.length rest) delim_next rest
  | (None, _) => []
  end.


(** The loop of [enter_path] on the list of the tokens still to come. *)
Fixpoint walk (h : heap) (node : addr) (toks : list string) (new_name : bool)
  : result (option addr * option string) :=
  match toks with
  | [] => Ok (Some node, None)
  | tok :: toks' =>
      ty ← fs_get_type h node;
      if decide (ty = Dir) then
        tmp ← fs_find_in_dir h node tok;
        match tmp with
        | Some child => walk h child toks' new_name
        | None =>
            if new_name && bool_decide (toks' = [])
            then Ok (Some node, Some tok)
            else Ok (None, None)
        end
      else Ok (None, None)
  end.

(** A name that [strtok] with [delim] returns whole: not empty and free
    of delimiters. *)
Fixpoint clean (delim : string) (s : string) : bool :=
  match s with
  | EmptyString => true
  | String c s' => negb (is_delim delim c) && clean delim s'
  end.

Definition component (delim : string) (s : string) : Prop :=
  s ≠ "" ∧ clean delim s = true.

(** The names of a tree are components of paths: an entry of the root
    is read with [delim_first], any other entry with [delim_next]. *)
Definition names_ok (root : addr) (h : heap) : Prop :=
  ∀ a n p, h !! a = Some n → parent n = Some p →
    component (if decide (p = root) then delim_first else delim_next) (name n).

Definition string_tail (s : string) : string :=
  match s with
  | EmptyString => EmptyString
  | String _ s' => s'
  end.

(** The heap after the leaf [n] at [a] left the table [t] of its parent
    [pn] at [p] and was released. *)
Definition detach (h : heap) (a : addr) (n : node_t) (p : addr) (pn : node_t)
    (t : hashtable) : heap :=
  delete a (<[p := set_payload pn (dirhash (delete (name n) t))]> h).

(** The depths of a heap are bounded. *)
Definition depth_bounded (D : Z) (h : heap) : Prop :=
  ∀ a n, h !! a = Some n → depth n ≤ D.

(** ** What the recursive operations leave *)

(** [a] is a match of the search for [nm] below [node]. *)
Definition found_below (h : heap) (node : addr) (nm : string) (a : addr) : Prop :=
  a ≠ node ∧ under h node a ∧ ∃ an, h !! a = Some an ∧ name an = nm.

(** [pruned h node h']: [h'] is [h] without [node] and its descendants,
    and without the entry of [node] in its parent. *)
Definition pruned (h : heap) (node : addr) (h' : heap) : Prop :=
  ∃ n p pn t,
    h !! node = Some n ∧ parent n = Some p ∧
    h !! p = Some pn ∧ payload pn = dirhash t ∧
    h' !! p = Some (set_payload pn (dirhash (delete (name n) t))) ∧
    (∀ a, under h node a → h' !! a = None) ∧
    (∀ a, ¬ under h node a → a ≠ p → h' !! a = h !! a).

(** [emptied h node h']: [h'] is [h] without the descendants of the
    directory [node], whose table is now empty. *)
Definition emptied (h : heap) (node : addr) (h' : heap) : Prop :=
  ∃ n,
    h !! node = Some n ∧
    h' !! node = Some (set_payload n (dirhash ∅)) ∧
    (∀ a, a ≠ node → under h node a → h' !! a = None) ∧
    (∀ a, ¬ under h node a → h' !! a = h !! a).

(** What remains after pruning is a part of the old heap, up to the
    payload of the parent. *)
Definition same_links (n n' : node_t) : Prop :=
  name n' = name n ∧ depth n' = depth n ∧ parent n' = parent n ∧ type n' = type n.

(** ** The state of the command layer *)

(** The tokens that the loop of [enter_path] still has to process. *)
Definition pending (cur_token next_token : option string) (saved : string)
  : list string :=
  match cur_token with
  | None => []
  | Some tok =>
      tok :: match next_token with
             | None => []
             | Some tok' => tok' :: tokens_from (String.length saved) delim_next saved
             end
  end.

(** [settles f r]: from some amount of fuel on, [f] returns [r]. *)
Definition settles {A : Type} (f : nat → result A) (r : result A) : Prop :=
  ∃ fuel0, ∀ fuel, (fuel0 ≤ fuel)%nat → f fuel = r.

(** A [find] command without a name. *)
Definition bare_find (line : string) : Prop :=
  ∃ saved, strtok (Some line) delim_word "" = (Some "find", saved) ∧
           (strtok None delim_word saved).1 = None.

(** ** Checking the invariants of a given tree *)

Definition node_wfb (root : addr) (h : heap) (a : addr) (n : node_t) : bool :=
  match type n, payload n with
  | Dir, dirhash _ | File, content _ => true
  | _, _ => false
  end
  && bool_decide (1 ≤ depth n)
  && match parent n with
     | None => bool_decide (a = root)
     | Some p =>
         match h !! p with
         | Some pn =>
             match payload pn with
             | dirhash t =>
                 bool_decide (t !! name n = Some a)
                 && bool_decide (depth n = depth pn + 1)
             | content _ => false
             end
         | None => false
         end
     end
  && match payload n with
     | dirhash t =>
         forallb (λ kc, match h !! kc.2 with
                        | Some cn => bool_decide (name cn = kc.1)
                                     && bool_decide (parent cn = Some a)
                        | None => false
                        end) (map_to_list t)
     | content _ => true
     end.

Definition wfb (root : addr) (h : heap) : bool :=
  match h !! root with
  | Some r => bool_decide (parent r = None) && bool_decide (type r = Dir)
  | None => false
  end
  && forallb (λ an, node_wfb root h an.1 an.2) (map_to_list h).

Definition componentb (delim : string) (s : string) : bool :=
  negb (bool_decide (s = "")) && clean delim s.

Definition names_okb (root : addr) (h : heap) : bool :=
  forallb (λ an, match parent an.2 with
                 | Some p => componentb (if decide (p = root) then delim_first
                                         else delim_next) (name an.2)
                 | None => true
                 end) (map_to_list h).


(** The limits of simplefs.h on a tree: a table is empty or holds at
    most [MAX_NODES] entries; a node other than the root is at depth at
    most [MAX_DEPTH] and its name has at most [MAX_NAMELENGHT]
    characters. *)
Definition limits_ok (h : heap) : Prop :=
  ∀ a n, h !! a = Some n →
    (∀ t, payload n = dirhash t → t = ∅ ∨ Z.of_nat (size t) ≤ MAX_NODES) ∧
    (parent n ≠ None →
       depth n ≤ MAX_DEPTH ∧ Z.of_nat (String.length (name n)) ≤ MAX_NAMELENGHT).

End Engine.

(** * A concrete tree

    The limits are those of the assignment the program was written for;
    the tables are walked in the order of their keys. *)

Definition ex_hdr : SimpleFS_H :=
  {| MAX_NODES := 1024; MAX_NAMELENGHT := 255; MAX_DEPTH := 255;
     hashtable_order := map_to_list;
     hashtable_order_perm := λ t, Permutation_refl (map_to_list t) |}.

Definition quote : string := String (ascii_of_nat 34) EmptyString.

(** The commands that build the tree
    /a, /a/f (with content hello), /a/log, /a/log/log and /b. *)
Definition ex_lines : list string :=
  [ "create_dir /a" +:+ LF;
    "create /a/f" +:+ LF;
    "write /a/f " +:+ quote +:+ "hello" +:+ quote +:+ LF;
    "create_dir /a/log" +:+ LF;
    "create /a/log/log" +:+ LF;
    "create /b" +:+ LF ].

Definition heap_of (r : result (heap * list response)) : heap :=
  match r with
  | Ok (h, _) => h
  | _ => ∅
  end.

Definition ex_root : addr := (@fs_new_root ∅).1.
Definition ex_empty : heap := (@fs_new_root ∅).2.
Definition ex_tree : heap := heap_of (@main ex_hdr 16 ex_lines).

(** The node stored at an address, and the table of a directory. *)
Definition node_at (h : heap) (a : addr) : node_t :=
  default {| name := ""; depth := 0; parent := None; type := File;
             payload := content "" |} (h !! a).

Definition table_of (n : node_t) : hashtable :=
  match payload n with
  | dirhash t => t
  | content _ => ∅
  end.

(** A tree built through [fs_create] alone, with a slash in a name. *)
Definition ex_slash : heap :=
  match @fs_create ex_hdr ex_empty ex_root "x/y" File with
  | Ok (_, h) => h
  | _ => ∅
  end.

(** [ex_tree] with one more file, /a/g. *)
Definition ex_tree_g : heap :=
  match @fs_create ex_hdr ex_tree 2%positive "g" File with
  | Ok (_, h) => h
  | _ => ∅
  end.

(** [ex_tree] with two more files in /a: one named with a space, which
    [create] accepts after the first component of a path, and /a/b. *)
Definition ex_tree_sp : heap :=
  heap_of (@main ex_hdr 16
             (ex_lines ++ ["create /a/b c" +:+ LF; "create /a/b" +:+ LF])).

(** A name of 256 characters. *)
Definition ex_long : string := string_of_list_ascii (repeat "x"%char 256).

(** * Properties *)

Section Properties.

Context `{hdr : SimpleFS_H}.

Lemma malloc_or_die_fresh (h : heap) : h !! malloc_or_die h = None.
Proof. apply not_elem_of_dom, (is_fresh (dom h)). Qed.

(** ** Reading the embedding *)

Lemma bind_Ok {A B} (r : result A) (k : A → result B) (b : B) :
  (r ≫= k) = Ok b → ∃ a, r = Ok a ∧ k a = Ok b.
Proof. destruct r; simpl; intros; try discriminate. eauto. Qed.

Lemma load_Ok (h : heap) (a : addr) (n : node_t) :
  load h a = Ok n ↔ h !! a = Some n.
Proof. unfold load. destruct (h !! a); split; congruence. Qed.

Lemma load_Some (h : heap) (a : addr) (n : node_t) :
  h !! a = Some n → load h a = Ok n.
Proof. apply load_Ok. Qed.

Lemma payload_dirhash_Ok (n : node_t) (t : hashtable) :
  payload_dirhash n = Ok t ↔ payload n = dirhash t.
Proof. unfold payload_dirhash. destruct (payload n); split; congruence. Qed.

Lemma payload_content_Ok (n : node_t) (s : string) :
  payload_content n = Ok s ↔ payload n = content s.
Proof. unfold payload_content. destruct (payload n); split; congruence. Qed.

Lemma create_guard (pn : node_t) (t : hashtable) (key : string) :
  bool_decide (hashtable_get t key ≠ None)
  || bool_decide (hashtable_get_size t >= MAX_NODES)
  || bool_decide (Z.of_nat (String.length key) > MAX_NAMELENGHT)
  || bool_decide (depth pn >= MAX_DEPTH) = true
  ↔ create_refused pn t key.
Proof.
  unfold create_refused, hashtable_get, hashtable_get_size.
  rewrite !orb_true_iff, !bool_decide_eq_true. tauto.
Qed.

Lemma fs_create_refused h p key ty pn t :
  h !! p = Some pn → payload pn = dirhash t → create_refused pn t key →
  fs_create h p key ty = Ok (-1, h).
Proof.
  intros Hp Ht Hr. unfold fs_create.
  rewrite (load_Some _ _ _ Hp). simpl.
  rewrite (proj2 (payload_dirhash_Ok _ _) Ht). simpl.
  apply create_guard in Hr. by rewrite Hr.
Qed.

Lemma fs_create_accepted h p key ty pn t :
  h !! p = Some pn → payload pn = dirhash t → ¬ create_refused pn t key →
  fs_create h p key ty =
    Ok (0, <[p := set_payload pn (dirhash (<[key := malloc_or_die h]> t))]>
             (<[malloc_or_die h := new_node p pn key ty]> h)).
Proof.
  intros Hp Ht Hr. unfold fs_create.
  rewrite (load_Some _ _ _ Hp). simpl.
  rewrite (proj2 (payload_dirhash_Ok _ _) Ht). simpl.
  rewrite <- create_guard in Hr. apply not_true_is_false in Hr. rewrite Hr.
  assert (Hne : malloc_or_die h ≠ p).
  { intros E. pose proof (malloc_or_die_fresh h) as F. rewrite E in F. congruence. }
  rewrite (load_Some _ p pn) by (by rewrite lookup_insert_ne).
  simpl. rewrite (proj2 (payload_dirhash_Ok _ _) Ht). simpl.
  reflexivity.
Qed.

(** ** Creation *)

(** C1. [fs_create] on a directory [p] fails (returns -1) exactly when
    the name is already present in the table of [p], or the table holds
    at least [MAX_NODES] entries, or the name is longer than
    [MAX_NAMELENGHT], or [p] is at depth [MAX_DEPTH] or more.  Otherwise it
    returns 0, having allocated a node that was not allocated before, one
    level below [p], with empty content (File) or an empty table (Dir),
    and having entered it in the table of [p] under the name. *)
Theorem fs_create_spec h p key ty pn t :
  h !! p = Some pn → payload pn = dirhash t →
  (fs_create h p key ty = Ok (-1, h) ↔ create_refused pn t key) ∧
  (¬ create_refused pn t key →
   ∃ child cn,
     h !! child = None ∧
     name cn = key ∧ depth cn = depth pn + 1 ∧ parent cn = Some p ∧
     type cn = ty ∧
     payload cn = match ty with Dir => dirhash ∅ | File => content "" end ∧
     fs_create h p key ty =
       Ok (0, <[p := set_payload pn (dirhash (<[key := child]> t))]>
                (<[child := cn]> h))).
Proof.
  intros Hp Ht. split; [split|].
  - intros E. destruct (decide (create_refused pn t key)) as [|Hn]; [done|].
    rewrite (fs_create_accepted _ _ _ _ _ _ Hp Ht Hn) in E. discriminate.
  - by apply fs_create_refused.
  - intros Hn. exists (malloc_or_die h), (new_node p pn key ty).
    split; [apply malloc_or_die_fresh|].
    repeat split. by apply fs_create_accepted.
Qed.

(** ** Deleting a leaf *)

Lemma tag_ok_dirhash n t : tag_ok n → payload n = dirhash t → type n = Dir.
Proof. unfold tag_ok. intros H E. rewrite E in H. by destruct (type n). Qed.

Lemma tag_ok_content n c : tag_ok n → payload n = content c → type n = File.
Proof. unfold tag_ok. intros H E. rewrite E in H. by destruct (type n). Qed.

Lemma tag_ok_Dir n : tag_ok n → type n = Dir → ∃ t, payload n = dirhash t.
Proof. unfold tag_ok. intros H E. rewrite E in H. destruct (payload n); [done|eauto]. Qed.

Lemma tag_ok_File n : tag_ok n → type n = File → ∃ c, payload n = content c.
Proof. unfold tag_ok. intros H E. rewrite E in H. destruct (payload n); [eauto|done]. Qed.

Lemma fs_free_file_detach h a n c p pn t :
  h !! a = Some n → payload n = content c → parent n = Some p →
  h !! p = Some pn → payload pn = dirhash t →
  fs_free_file h a = Ok (detach h a n p pn t).
Proof.
  intros Ha Hc Hp Hpn Ht. unfold fs_free_file.
  rewrite (load_Some _ _ _ Ha). simpl.
  rewrite (proj2 (payload_content_Ok _ _) Hc). simpl.
  rewrite Hp. simpl. rewrite (load_Some _ _ _ Hpn). simpl.
  rewrite (proj2 (payload_dirhash_Ok _ _) Ht). simpl. reflexivity.
Qed.

Lemma fs_free_dir_detach h a n p pn t :
  h !! a = Some n → payload n = dirhash ∅ → parent n = Some p →
  h !! p = Some pn → payload pn = dirhash t →
  fs_free_dir h a = Ok (0, detach h a n p pn t).
Proof.
  intros Ha Hc Hp Hpn Ht. unfold fs_free_dir.
  rewrite (load_Some _ _ _ Ha). simpl.
  rewrite (proj2 (payload_dirhash_Ok _ _) Hc). simpl.
  rewrite Hp. simpl. rewrite (load_Some _ _ _ Hpn). simpl.
  rewrite (proj2 (payload_dirhash_Ok _ _) Ht). simpl. reflexivity.
Qed.

Lemma fs_free_dir_nonempty h a n t :
  h !! a = Some n → payload n = dirhash t → size t ≠ 0%nat →
  fs_free_dir h a = Ok (-1, h).
Proof.
  intros Ha Hc Hs. unfold fs_free_dir.
  rewrite (load_Some _ _ _ Ha). simpl.
  rewrite (proj2 (payload_dirhash_Ok _ _) Hc). simpl.
  unfold hashtable_get_size. destruct (decide _); [lia|done].
Qed.

(** A non-root node of a well-formed tree has an allocated parent
    directory that holds it under its name, and differs from it. *)
Lemma wf_parent root h a n :
  wf root h → h !! a = Some n → a ≠ root →
  ∃ p pn t, parent n = Some p ∧ h !! p = Some pn ∧ payload pn = dirhash t ∧
            t !! name n = Some a ∧ depth n = depth pn + 1 ∧ p ≠ a.
Proof.
  intros W Ha Hr. destruct (wf_nodes _ _ W _ _ Ha) as [_ _ Hn Hs _].
  destruct (parent n) as [p|] eqn:Ep; [|by destruct Hr; apply Hn].
  destruct (Hs p eq_refl) as (pn & t & Hp & Ht & Hk & Hd).
  exists p, pn, t. repeat split; try done.
  intros ->. rewrite Ha in Hp. injection Hp as ->. lia.
Qed.

Lemma wf_not_root root h a n p :
  wf root h → h !! a = Some n → parent n = Some p → a ≠ root.
Proof.
  intros W Ha Hp ->. destruct (wf_root _ _ W) as (r & Hr & Hn & _). congruence.
Qed.

Lemma detach_lookup h a n p pn t b :
  p ≠ a →
  detach h a n p pn t !! b =
    if decide (b = a) then None
    else if decide (b = p) then Some (set_payload pn (dirhash (delete (name n) t)))
    else h !! b.
Proof.
  intros Hpa. unfold detach. destruct (decide (b = a)) as [->|Hb].
  - by rewrite lookup_delete_eq.
  - rewrite lookup_delete_ne by done. destruct (decide (b = p)) as [->|Hbp].
    + by rewrite lookup_insert_eq.
    + by rewrite lookup_insert_ne.
Qed.

(** Releasing a leaf keeps the tree well-formed. *)
Lemma detach_wf root h a n p pn t :
  wf root h → h !! a = Some n → parent n = Some p →
  h !! p = Some pn → payload pn = dirhash t →
  (∀ t', payload n = dirhash t' → t' = ∅) →
  wf root (detach h a n p pn t).
Proof.
  intros W Ha Hp Hpn Ht Hleaf.
  assert (Har : a ≠ root) by eauto using wf_not_root.
  destruct (wf_parent _ _ _ _ W Ha Har) as (p' & pn' & t' & Ep & Hpn' & Ht' & Hk & Hd & Hpa).
  assert (p' = p) as -> by congruence.
  assert (pn' = pn) as -> by congruence.
  assert (t' = t) as -> by congruence.
  assert (L := detach_lookup h a n p pn t).
  split.
  - destruct (wf_root _ _ W) as (r & Hr & Hn & Hrd).
    rewrite L by done. destruct (decide (root = a)); [congruence|].
    destruct (decide (root = p)) as [->|]; [|eauto].
    eexists; split; [done|]. simpl. split; congruence.
  - intros b bn Hb. rewrite L in Hb by done.
    destruct (decide (b = a)) as [|Hba]; [done|].
    assert (∃ bn0, h !! b = Some bn0 ∧ name bn = name bn0 ∧ depth bn = depth bn0
                   ∧ parent bn = parent bn0 ∧ type bn = type bn0
                   ∧ (b ≠ p → bn = bn0)
                   ∧ (b = p → payload bn = dirhash (delete (name n) t)))
      as (bn0 & Hb0 & En & Ed & Epar & Ety & Eother & Eself).
    { destruct (decide (b = p)) as [->|].
      - injection Hb as <-. exists pn. by repeat split.
      - exists bn. by repeat split. }
    destruct (wf_nodes _ _ W _ _ Hb0) as [Tg Dp Pn Ps Ch].
    split.
    + destruct (decide (b = p)) as [->|Hbp].
      * unfold tag_ok. rewrite Ety, (Eself eq_refl).
        assert (bn0 = pn) as -> by congruence.
        by rewrite (tag_ok_dirhash _ _ Tg Ht).
      * by rewrite (Eother Hbp).
    + lia.
    + rewrite Epar. done.
    + intros q Hq. rewrite Epar in Hq.
      destruct (Ps q Hq) as (qn & tq & Hqn & Htq & Hkq & Hdq).
      assert (Hqa : q ≠ a).
      { intros ->. assert (qn = n) as -> by congruence.
        rewrite (Hleaf _ Htq) in Hkq. by rewrite lookup_empty in Hkq. }
      rewrite L by done. destruct (decide (q = a)); [done|].
      destruct (decide (q = p)) as [->|Hqp].
      * assert (qn = pn) as -> by congruence.
        assert (tq = t) as -> by congruence.
        eexists _, _. split; [done|]. split; [done|]. split; [|simpl; lia].
        rewrite En. rewrite lookup_delete_ne; [done|].
        intros E. rewrite <- E in Hkq. congruence.
      * eexists _, _. split; [done|]. split; [done|]. split; [by rewrite En|lia].
    + intros tb k c Htb Hkc.
      assert (∃ tb0, payload bn0 = dirhash tb0 ∧ tb0 !! k = Some c ∧ c ≠ a)
        as (tb0 & Htb0 & Hkc0 & Hca).
      { destruct (decide (b = p)) as [->|Hbp].
        - rewrite (Eself eq_refl) in Htb. injection Htb as <-.
          assert (bn0 = pn) as -> by congruence.
          apply lookup_delete_Some in Hkc as [Hne Hkc].
          exists t. repeat split; try done. intros ->.
          destruct (Ch _ _ _ Ht Hkc) as (cn & Hcn & Hnm & _). congruence.
        - rewrite (Eother Hbp) in Htb. exists tb. repeat split; try done.
          intros ->. destruct (Ch _ _ _ Htb Hkc) as (cn & Hcn & _ & Hpc).
          congruence. }
      destruct (Ch _ _ _ Htb0 Hkc0) as (cn & Hcn & Hnm & Hpc).
      rewrite L by done. destruct (decide (c = a)); [done|].
      destruct (decide (c = p)) as [->|].
      * assert (cn = pn) as -> by congruence. eexists; split; [done|]. by simpl.
      * eauto.
Qed.

(** C4. On a non-root node of a well-formed tree, [fs_delete] of a file
    returns 0 and removes the file from the table of its parent; of a
    directory it returns 0 exactly when the directory has no entries and
    otherwise returns -1 with the heap unchanged.  On success the node and
    its entry are all that changes: no other node is touched. *)
Theorem fs_delete_spec root h a n :
  wf root h → h !! a = Some n → a ≠ root →
  ∃ p pn t,
    parent n = Some p ∧ h !! p = Some pn ∧ payload pn = dirhash t ∧
    let h' := delete a (<[p := set_payload pn (dirhash (delete (name n) t))]> h) in
    (type n = File → fs_delete h a = Ok (0, h')) ∧
    (∀ ta, type n = Dir → payload n = dirhash ta →
       (fs_delete h a = Ok (0, h') ↔ size ta = 0%nat) ∧
       (size ta ≠ 0%nat → fs_delete h a = Ok (-1, h))) ∧
    (∀ b, b ≠ a → b ≠ p → h' !! b = h !! b).
Proof.
  intros W Ha Hr.
  destruct (wf_parent _ _ _ _ W Ha Hr) as (p & pn & t & Ep & Hpn & Ht & Hk & Hd & Hpa).
  exists p, pn, t. do 3 (split; [done|]). cbv zeta. split; [|split].
  - intros Hty. unfold fs_delete. rewrite (load_Some _ _ _ Ha). simpl. rewrite Hty.
    destruct (tag_ok_File n) as [c Hc]; [by destruct (wf_nodes _ _ W _ _ Ha)|done|].
    by rewrite (fs_free_file_detach _ _ _ _ _ _ _ Ha Hc Ep Hpn Ht).
  - intros ta Hty Hta. unfold fs_delete. rewrite (load_Some _ _ _ Ha). simpl.
    rewrite Hty. split; [split|].
    + intros E. destruct (decide (size ta = 0%nat)) as [|Hs]; [done|].
      rewrite (fs_free_dir_nonempty _ _ _ _ Ha Hta Hs) in E. discriminate.
    + intros Hs. apply map_size_empty_inv in Hs as ->.
      by rewrite (fs_free_dir_detach _ _ _ _ _ _ Ha Hta Ep Hpn Ht).
    + intros Hs. by apply (fs_free_dir_nonempty _ _ _ _ Ha Hta).
  - intros b Hba Hbp. rewrite lookup_delete_ne by done. by rewrite lookup_insert_ne.
Qed.

(** ** File content *)

Lemma fs_create_inv h p key ty r h1 :
  fs_create h p key ty = Ok (r, h1) →
  ∃ pn t, h !! p = Some pn ∧ payload pn = dirhash t ∧
    ((r = -1 ∧ h1 = h ∧ create_refused pn t key) ∨
     (r = 0 ∧ ¬ create_refused pn t key ∧
      h1 = <[p := set_payload pn (dirhash (<[key := malloc_or_die h]> t))]>
             (<[malloc_or_die h := new_node p pn key ty]> h))).
Proof.
  intros E. destruct (h !! p) as [pn|] eqn:Hp;
    [|by unfold fs_create, load in E; rewrite Hp in E].
  destruct (payload pn) as [c|t] eqn:Ht.
  { unfold fs_create in E. rewrite (load_Some _ _ _ Hp) in E. simpl in E.
    unfold payload_dirhash in E. by rewrite Ht in E. }
  exists pn, t. split; [done|]. split; [done|].
  destruct (decide (create_refused pn t key)) as [Hr|Hr].
  - rewrite (fs_create_refused _ _ _ _ _ _ Hp Ht Hr) in E. left. by injection E as <- <-.
  - rewrite (fs_create_accepted _ _ _ _ _ _ Hp Ht Hr) in E. right. by injection E as <- <-.
Qed.

Lemma fs_set_file_content_File h a n s c :
  h !! a = Some n → type n = File → payload n = content s →
  fs_set_file_content h a c = Ok (0, <[a := set_payload n (content c)]> h).
Proof.
  intros Ha Hty Hs. unfold fs_set_file_content, fs_get_type.
  rewrite (load_Some _ _ _ Ha). simpl. rewrite Hty.
  destruct (decide (File ≠ File)); [done|]. simpl.
  by rewrite (proj2 (payload_content_Ok _ _) Hs).
Qed.

Lemma fs_set_file_content_inv h a c r h' :
  fs_set_file_content h a c = Ok (r, h') →
  ∃ n, h !! a = Some n ∧
    ((r = -1 ∧ h' = h ∧ type n ≠ File) ∨
     (r = 0 ∧ type n = File ∧ h' = <[a := set_payload n (content c)]> h)).
Proof.
  unfold fs_set_file_content, fs_get_type. intros E.
  destruct (h !! a) as [n|] eqn:Ha; [|by unfold load in E; rewrite Ha in E].
  exists n. split; [done|]. rewrite (load_Some _ _ _ Ha) in E. simpl in E.
  destruct (decide (type n ≠ File)) as [Hty|Hty].
  - left. by injection E as <- <-.
  - right. destruct (payload_content n); simpl in E; try discriminate.
    injection E as <- <-. split; [done|]. split; [|done].
    destruct (type n); [by destruct Hty|done].
Qed.

Lemma fs_get_file_content_File h a n s :
  h !! a = Some n → type n = File → payload n = content s →
  fs_get_file_content h a = Ok (Some s).
Proof.
  intros Ha Hty Hs. unfold fs_get_file_content.
  rewrite (load_Some _ _ _ Ha). simpl. rewrite Hty.
  destruct (decide (File ≠ File)); [done|].
  by rewrite (proj2 (payload_content_Ok _ _) Hs).
Qed.

(** C8. After [fs_create] of a file under a name, the node found under
    that name accepts any content through [fs_set_file_content], and
    [fs_get_file_content] then returns exactly that content.  On any
    allocated node [a] of any heap, writing returns -1 exactly when [a] is
    not a file, and reading returns [NULL] exactly when [a] is not a
    file. *)
Theorem content_roundtrip h p key c h1 h' a n c' :
  (fs_create h p key File = Ok (0, h1) →
   ∃ child h2,
     fs_find_in_dir h1 p key = Ok (Some child) ∧
     fs_set_file_content h1 child c = Ok (0, h2) ∧
     fs_get_file_content h2 child = Ok (Some c)) ∧
  (h' !! a = Some n →
   (fs_set_file_content h' a c' = Ok (-1, h') ↔ type n ≠ File) ∧
   (fs_get_file_content h' a = Ok None ↔ type n ≠ File)).
Proof.
  split; [intros E|intros Ha; split].
  - apply fs_create_inv in E as (pn & t & Hp & Ht & [(? & _)|(_ & _ & ->)]); [done|].
    set (child := malloc_or_die h).
    assert (Hne : child ≠ p).
    { intros Ec. pose proof (malloc_or_die_fresh h) as F. fold child in F. congruence. }
    exists child, (<[child := set_payload (new_node p pn key File) (content c)]>
                     (<[p := set_payload pn (dirhash (<[key := child]> t))]>
                        (<[child := new_node p pn key File]> h))).
    split; [|split].
    + unfold fs_find_in_dir. rewrite (load_Some _ p _ (lookup_insert_eq _ _ _)).
      simpl. unfold hashtable_get. by rewrite lookup_insert_eq.
    + apply (fs_set_file_content_File _ _ _ ""); try done.
      rewrite lookup_insert_ne by done. by rewrite lookup_insert_eq.
    + apply (fs_get_file_content_File _ _ _ c (lookup_insert_eq _ _ _)); done.
  - split.
    + intros E'. apply fs_set_file_content_inv in E' as (n' & Hn' & [(_ & _ & Hty)|(? & _)]);
        [congruence|done].
    + intros Hty. unfold fs_set_file_content, fs_get_type.
      rewrite (load_Some _ _ _ Ha). simpl. by destruct (decide (type n ≠ File)).
  - unfold fs_get_file_content. rewrite (load_Some _ _ _ Ha). simpl.
    destruct (decide (type n ≠ File)); [done|].
    split; [|done]. destruct (payload_content n); simpl; discriminate.
Qed.

(** ** Failed mutations *)

Lemma fs_free_dir_inv h a r h' :
  fs_free_dir h a = Ok (r, h') → (r = -1 ∧ h' = h) ∨ r = 0.
Proof.
  unfold fs_free_dir. intros E.
  apply bind_Ok in E as (n & _ & E). apply bind_Ok in E as (t & _ & E).
  destruct (decide _).
  - apply bind_Ok in E as (pn & _ & E). apply bind_Ok in E as (pt & _ & E).
    destruct (parent n); [|done]. injection E as <- <-. by right.
  - injection E as <- <-. by left.
Qed.

(** C9. A mutation of the engine that returns failure leaves the heap,
    hence every node, link, name, depth and content, as it was. *)
Theorem failed_mutation_unchanged h m r h' :
  apply_mutation h m = Ok (r, h') → r ≠ 0 → h' = h.
Proof.
  intros E Hr. destruct m as [p key ty|node|node c]; simpl in E.
  - apply fs_create_inv in E as (? & ? & _ & _ & [(_ & -> & _)|(? & _)]); done.
  - unfold fs_delete in E. apply bind_Ok in E as (n & _ & E).
    destruct (type n).
    + apply fs_free_dir_inv in E as [[_ ->]|]; done.
    + apply bind_Ok in E as (? & _ & E). by injection E as <- <-.
  - apply fs_set_file_content_inv in E as (? & _ & [(_ & -> & _)|(? & _)]); done.
Qed.

(** ** More fuel does not change a result *)

Lemma fs_get_path_loop_mono fuel fuel' h node path r :
  fs_get_path_loop fuel h node path = r → r ≠ NoFuel → (fuel ≤ fuel')%nat →
  fs_get_path_loop fuel' h node path = r.
Proof.
  revert fuel' node path. induction fuel as [|fuel IH]; intros fuel' node path E Hr Hle.
  { simpl in E. congruence. }
  destruct fuel' as [|fuel']; [lia|]. simpl in *.
  destruct (load h node) as [n| |]; simpl in *; try done.
  destruct (load_ptr h (parent n)) as [pn| |]; simpl in *; try done.
  destruct (parent n); [|done]. destruct (parent pn); [|done].
  apply IH; [done..|lia].
Qed.

Lemma fs_find_r_loop_mono (rec rec' : addr → list addr → result (list addr))
    h nm children array r :
  (∀ c arr r', rec c arr = r' → r' ≠ NoFuel → rec' c arr = r') →
  fs_find_r_loop rec h nm children array = r → r ≠ NoFuel →
  fs_find_r_loop rec' h nm children array = r.
Proof.
  intros Hrec. revert array. induction children as [|c cs IH]; intros array E Hr.
  { done. }
  simpl in *. destruct (load h c) as [cn| |]; simpl in *; try done.
  destruct nm as [nm|]; simpl in *; [|done].
  destruct (decide (type cn = Dir)).
  - destruct (rec c _) as [arr2| |] eqn:E2.
    + rewrite (Hrec _ _ _ E2) by done. simpl in *. by apply IH.
    + rewrite (Hrec _ _ _ E2) by done. done.
    + simpl in E. congruence.
  - simpl in *. by apply IH.
Qed.

Lemma fs_find_r_mono fuel fuel' h node nm array r :
  fs_find_r fuel h node nm array = r → r ≠ NoFuel → (fuel ≤ fuel')%nat →
  fs_find_r fuel' h node nm array = r.
Proof.
  revert fuel' node array r.
  induction fuel as [|fuel IH]; intros fuel' node array r E Hr Hle.
  { simpl in E. congruence. }
  destruct fuel' as [|fuel']; [lia|]. simpl in *.
  destruct (load h node) as [n| |]; simpl in *; try done.
  destruct (payload_dirhash n) as [t| |]; simpl in *; try done.
  eapply fs_find_r_loop_mono; [|done..].
  intros c arr r' E' Hr'. apply IH; [done..|lia].
Qed.

Lemma fs_delete_r_mono_both fuel :
  (∀ fuel' h node r,
     fs_delete_r fuel h node = r → r ≠ NoFuel → (fuel ≤ fuel')%nat →
     fs_delete_r fuel' h node = r) ∧
  (∀ fuel' h node r,
     fs_delete_r_loop fuel h node = r → r ≠ NoFuel → (fuel ≤ fuel')%nat →
     fs_delete_r_loop fuel' h node = r).
Proof.
  induction fuel as [|fuel [IH1 IH2]].
  { split; intros fuel' h node r E; simpl in E; congruence. }
  split; intros fuel' h node r E Hr Hle; (destruct fuel' as [|fuel']; [lia|]);
    simpl in *.
  - destruct (load h node) as [n| |]; simpl in *; try done.
    destruct (type n); [|done].
    destruct (payload_dirhash n) as [t| |]; simpl in *; try done.
    destruct (decide (hashtable_get_size t > 0)); [|done].
    destruct (fs_delete_r_loop fuel h node) as [h1| |] eqn:E1.
    + rewrite (IH2 fuel' _ _ _ E1) by (done || lia). done.
    + rewrite (IH2 fuel' _ _ _ E1) by (done || lia). done.
    + simpl in E. congruence.
  - destruct (load h node) as [n| |]; simpl in *; try done.
    destruct (payload_dirhash n) as [t| |]; simpl in *; try done.
    destruct (hashtable_children t !! 0%nat) as [child|]; [|done].
    destruct (fs_delete_r fuel h child) as [h1| |] eqn:E1.
    + rewrite (IH1 fuel' _ _ _ E1) by (done || lia). simpl in *.
      apply IH2; [done..|lia].
    + rewrite (IH1 fuel' _ _ _ E1) by (done || lia). done.
    + simpl in E. congruence.
Qed.

Lemma fs_delete_r_mono fuel fuel' h node r :
  fs_delete_r fuel h node = r → r ≠ NoFuel → (fuel ≤ fuel')%nat →
  fs_delete_r fuel' h node = r.
Proof. apply fs_delete_r_mono_both. Qed.

Lemma fs_delete_r_loop_mono fuel fuel' h node r :
  fs_delete_r_loop fuel h node = r → r ≠ NoFuel → (fuel ≤ fuel')%nat →
  fs_delete_r_loop fuel' h node = r.
Proof. apply fs_delete_r_mono_both. Qed.

(** ** Ancestors *)

Lemma under_trans h n m a : under h n m → under h m a → under h n a.
Proof. intros Hnm Hma. induction Hma; eauto using under. Qed.

Lemma under_child h n c cn : h !! c = Some cn → parent cn = Some n → under h n c.
Proof. intros. eapply under_step; eauto using under. Qed.

Lemma under_inv h n a :
  under h n a →
  a = n ∨ ∃ an p, h !! a = Some an ∧ parent an = Some p ∧ under h n p.
Proof. destruct 1; eauto 10. Qed.

Lemma under_depth root h n nn a an :
  wf root h → h !! n = Some nn → h !! a = Some an → under h n a →
  depth nn ≤ depth an ∧ (depth nn = depth an → a = n).
Proof.
  intros W Hn Ha U. revert an Ha. induction U as [|a an' p Ha' Hp U IH]; intros an Ha.
  { assert (an = nn) as -> by congruence. done. }
  assert (an' = an) as -> by congruence.
  destruct (wf_nodes _ _ W _ _ Ha) as [_ _ _ Ps _].
  destruct (Ps _ Hp) as (pn & ? & Hpn & _ & _ & Hd).
  destruct (IH _ Hpn). lia.
Qed.

Lemma under_strict_child h n a :
  under h n a → a ≠ n →
  ∃ c cn, h !! c = Some cn ∧ parent cn = Some n ∧ under h c a.
Proof.
  induction 1 as [|a an p Ha Hp U IH]; intros Hne; [done|].
  destruct (decide (p = n)) as [->|Hpn].
  - exists a, an. eauto using under.
  - destruct (IH Hpn) as (c & cn & ? & ? & ?). exists c, cn. eauto using under.
Qed.

Lemma under_linear h n m a :
  under h n a → under h m a → under h n m ∨ under h m n.
Proof.
  intros Un. revert m. induction Un as [|a an p Ha Hp U IH]; intros m Um.
  { by right. }
  apply under_inv in Um as [->|(an' & p' & Ha' & Hp' & Um)].
  - left. eauto using under.
  - assert (p' = p) as -> by congruence. by apply IH.
Qed.

(** Two heaps with the same parent links have the same ancestors. *)
Lemma under_mono h h' n a :
  (∀ x xn, h !! x = Some xn → ∃ xn', h' !! x = Some xn' ∧ parent xn' = parent xn) →
  under h n a → under h' n a.
Proof.
  intros Hsub. induction 1 as [|a an p Ha Hp U IH]; [constructor|].
  destruct (Hsub _ _ Ha) as (an' & Ha' & Ep).
  eapply under_step; [done| |done]. congruence.
Qed.

Lemma under_dec root h n a : wf root h → under h n a ∨ ¬ under h n a.
Proof.
  intros W. destruct (h !! a) as [an|] eqn:Ha; cycle 1.
  { destruct (decide (a = n)) as [->|]; [left; constructor|].
    right. intros U. apply under_inv in U as [|(? & ? & ? & _)]; congruence. }
  remember (Z.to_nat (depth an)) as k eqn:Ek.
  revert a an Ha Ek. induction (lt_wf k) as [k _ IH]. intros a an Ha ->.
  destruct (decide (a = n)) as [->|Hne]; [left; constructor|].
  destruct (parent an) as [p|] eqn:Hp; cycle 1.
  { right. intros U. apply under_inv in U as [|(? & ? & ? & ? & _)]; congruence. }
  destruct (wf_nodes _ _ W _ _ Ha) as [_ Dp _ Ps _].
  destruct (Ps _ Hp) as (pn & ? & Hpn & _ & _ & Hd).
  destruct (wf_nodes _ _ W _ _ Hpn) as [_ Dp' _ _ _].
  destruct (IH (Z.to_nat (depth pn)) ltac:(lia) p pn Hpn eq_refl) as [U|U].
  - left. eauto using under.
  - right. intros U'. apply under_inv in U' as [|(? & ? & ? & ? & ?)]; [done|].
    apply U. congruence.
Qed.

(** Only directories have descendants. *)
Lemma under_file root h c cn s a :
  wf root h → h !! c = Some cn → payload cn = content s → under h c a → a = c.
Proof.
  intros W Hc Hs U. destruct (decide (a = c)) as [|Hne]; [done|].
  destruct (under_strict_child _ _ _ U Hne) as (x & xn & Hx & Hp & _).
  destruct (wf_nodes _ _ W _ _ Hx) as [_ _ _ Ps _].
  destruct (Ps _ Hp) as (pn & ? & Hpn & ? & _). congruence.
Qed.

Lemma depth_bounded_exists (h : heap) : ∃ D, depth_bounded D h.
Proof.
  induction h as [|a n h Hfresh _ [D HD]] using map_first_key_ind.
  { exists 0. intros a n. by rewrite lookup_empty. }
  exists (Z.max D (depth n)). intros b bn Hb.
  destruct (decide (b = a)) as [->|Hne].
  - rewrite lookup_insert_eq in Hb. injection Hb as <-. lia.
  - rewrite lookup_insert_ne in Hb by done. specialize (HD _ _ Hb). lia.
Qed.

(** ** Paths *)

Lemma resolves_app h a toks b toks' c :
  resolves h a toks b → resolves h b toks' c → resolves h a (toks ++ toks') c.
Proof. induction 1; simpl; eauto using resolves. Qed.

Lemma join_app toks toks' acc : join (toks ++ toks') acc = join toks (join toks' acc).
Proof. unfold join. by rewrite foldr_app. Qed.

(** Every non-root node is reached from the root by the names on its
    chain of parents, and [fs_get_path_loop] prepends these names. *)
Lemma fs_get_path_loop_resolves root h :
  wf root h →
  ∀ (k : nat) a an, h !! a = Some an → a ≠ root → (Z.to_nat (depth an) < k)%nat →
  ∃ toks, toks ≠ [] ∧ resolves h root toks a ∧
    ∀ acc, ∃ fuel, fs_get_path_loop fuel h a acc = Ok (join toks acc).
Proof.
  intros W. induction k as [|k IH]; intros a an Ha Hr Hk; [lia|].
  destruct (wf_parent _ _ _ _ W Ha Hr) as (p & pn & t & Ep & Hpn & Ht & Hk' & Hd & Hpa).
  assert (Tp : type pn = Dir).
  { eapply tag_ok_dirhash; [|done]. by destruct (wf_nodes _ _ W _ _ Hpn). }
  assert (Hstep : resolves h p [name an] a) by eauto using resolves.
  destruct (decide (p = root)) as [->|Hpr].
  - exists [name an]. split; [done|]. split; [done|].
    intros acc. exists 1%nat. simpl.
    rewrite (load_Some _ _ _ Ha). simpl. rewrite Ep. simpl.
    rewrite (load_Some _ _ _ Hpn). simpl.
    destruct (wf_root _ _ W) as (r & Hroot & Hnone & _).
    assert (r = pn) as -> by congruence. by rewrite Hnone.
  - destruct (wf_nodes _ _ W _ _ Hpn) as [_ Dp Pn _ _].
    destruct (IH p pn Hpn Hpr ltac:(lia)) as (toks & Hne & Hres & Hloop).
    exists (toks ++ [name an]). split; [by destruct toks|].
    split; [by eapply resolves_app|].
    intros acc. destruct (Hloop ("/" +:+ name an +:+ acc)) as [fuel Hf].
    exists (S fuel). simpl.
    rewrite (load_Some _ _ _ Ha). simpl. rewrite Ep. simpl.
    rewrite (load_Some _ _ _ Hpn). simpl.
    destruct (parent pn) eqn:Epp; [|by destruct Hpr; apply Pn].
    by rewrite join_app.
Qed.

Lemma fs_get_path_resolves root h a an :
  wf root h → h !! a = Some an → a ≠ root →
  ∃ toks fuel0, toks ≠ [] ∧ resolves h root toks a ∧
    ∀ fuel, (fuel0 ≤ fuel)%nat → fs_get_path fuel h a = Ok (join toks "").
Proof.
  intros W Ha Hr.
  destruct (fs_get_path_loop_resolves _ _ W (S (Z.to_nat (depth an))) _ _ Ha Hr)
    as (toks & Hne & Hres & Hloop); [lia|].
  destruct (Hloop "") as [fuel0 Hf]. exists toks, fuel0. repeat split; try done.
  intros fuel Hle. by apply (fs_get_path_loop_mono fuel0).
Qed.

Lemma fs_get_path_root root h fuel :
  wf root h → fuel ≠ 0%nat → fs_get_path fuel h root = Fault.
Proof.
  intros W Hf. destruct fuel as [|fuel]; [done|]. unfold fs_get_path. simpl.
  destruct (wf_root _ _ W) as (r & Hroot & Hnone & _).
  rewrite (load_Some _ _ _ Hroot). simpl. by rewrite Hnone.
Qed.

(** C7, as amended.  On every node other than the root, [fs_get_path]
    returns: its loop climbs the parent links, prepending a slash and the
    name of each node, and stops after the child of the root, when the
    node it moved to has no parent; no absent parent is dereferenced.  The
    names it has joined lead from the root to the node. *)
Theorem fs_get_path_spec root h a an :
  wf root h → h !! a = Some an → a ≠ root →
  ∃ toks fuel0, toks ≠ [] ∧ resolves h root toks a ∧
    ∀ fuel, (fuel0 ≤ fuel)%nat → fs_get_path fuel h a = Ok (join toks "").
Proof. apply fs_get_path_resolves. Qed.

(** ** Iterating over a directory *)

Lemma hashtable_children_perm t : hashtable_children t ≡ₚ (map_to_list t).*2.
Proof. unfold hashtable_children. by rewrite hashtable_order_perm. Qed.

Lemma elem_of_hashtable_children t c :
  c ∈ hashtable_children t ↔ ∃ k, t !! k = Some c.
Proof.
  rewrite hashtable_children_perm, list_elem_of_fmap. split.
  - intros ([k c'] & -> & Hin). exists k. by apply elem_of_map_to_list.
  - intros [k Hk]. exists (k, c). split; [done|]. by apply elem_of_map_to_list.
Qed.

Lemma length_hashtable_children t :
  List.length (hashtable_children t) = size t.
Proof.
  rewrite hashtable_children_perm, length_fmap. apply length_map_to_list.
Qed.

Lemma NoDup_hashtable_children root h a n t :
  wf root h → h !! a = Some n → payload n = dirhash t →
  NoDup (hashtable_children t).
Proof.
  intros W Ha Ht. rewrite hashtable_children_perm.
  apply NoDup_fmap_2_strong; [|apply NoDup_map_to_list].
  intros [k1 c1] [k2 c2] H1 H2 E. simpl in E. subst c2.
  apply elem_of_map_to_list in H1, H2.
  destruct (wf_nodes _ _ W _ _ Ha) as [_ _ _ _ Ch].
  destruct (Ch _ _ _ Ht H1) as (cn1 & Hc1 & N1 & _).
  destruct (Ch _ _ _ Ht H2) as (cn2 & Hc2 & N2 & _).
  congruence.
Qed.

(** ** Recursive search finds the matches below a directory *)

Lemma siblings_disjoint root h node c1 cn1 c2 cn2 a :
  wf root h →
  h !! c1 = Some cn1 → parent cn1 = Some node →
  h !! c2 = Some cn2 → parent cn2 = Some node →
  under h c1 a → under h c2 a → c1 = c2.
Proof.
  intros W H1 P1 H2 P2 U1 U2.
  destruct (wf_nodes _ _ W _ _ H1) as [_ _ _ Ps1 _].
  destruct (wf_nodes _ _ W _ _ H2) as [_ _ _ Ps2 _].
  destruct (Ps1 _ P1) as (pn1 & ? & Hp1 & _ & _ & D1).
  destruct (Ps2 _ P2) as (pn2 & ? & Hp2 & _ & _ & D2).
  assert (pn2 = pn1) as -> by congruence.
  destruct (under_linear _ _ _ _ U1 U2) as [U|U].
  - symmetry. eapply under_depth; [done|exact H1|exact H2|done|lia].
  - eapply under_depth; [done|exact H2|exact H1|done|lia].
Qed.

Lemma fs_find_r_loop_spec root h nm node :
  wf root h →
  (∀ c cn, h !! c = Some cn → parent cn = Some node → type cn = Dir →
     ∀ acc, ∃ fuel res,
       fs_find_r fuel h c (Some nm) acc = Ok (acc ++ res) ∧ NoDup res ∧
       ∀ a, a ∈ res ↔ found_below h c nm a) →
  ∀ cs, NoDup cs →
    (∀ c, c ∈ cs → ∃ cn, h !! c = Some cn ∧ parent cn = Some node) →
    ∀ acc, ∃ fuel res,
      fs_find_r_loop (λ child arr, fs_find_r fuel h child (Some nm) arr)
        h (Some nm) cs acc = Ok (acc ++ res) ∧ NoDup res ∧
      ∀ a, a ∈ res ↔
        ∃ c an, c ∈ cs ∧ under h c a ∧ h !! a = Some an ∧ name an = nm.
Proof.
  intros W Hrec. induction cs as [|c cs IH]; intros ND Hcs acc.
  { exists 0%nat, []. simpl. rewrite app_nil_r. split; [done|]. split; [constructor|].
    intros a. split; [by intros ?%elem_of_nil|]. by intros (? & ? & ?%elem_of_nil & _). }
  apply NoDup_cons in ND as [Hc ND].
  destruct (Hcs c) as (cn & Hcn & Hpc); [left|].
  set (hit := if decide (name cn = nm) then [c] else []).
  assert (Hhit : ∀ a, a ∈ hit ↔ a = c ∧ name cn = nm).
  { intros a. unfold hit. destruct (decide (name cn = nm)).
    - rewrite list_elem_of_singleton. tauto.
    - split; [by intros ?%elem_of_nil|tauto]. }
  assert (∃ fuel1 res1,
    (if decide (type cn = Dir)
     then fs_find_r fuel1 h c (Some nm) (acc ++ hit)
     else Ok (acc ++ hit)) = Ok ((acc ++ hit) ++ res1) ∧ NoDup res1 ∧
    ∀ a, a ∈ res1 ↔ found_below h c nm a) as (fuel1 & res1 & E1 & ND1 & M1).
  { destruct (decide (type cn = Dir)) as [Hty|Hty].
    - apply Hrec with cn; done.
    - exists 0%nat, []. rewrite app_nil_r. split; [done|]. split; [constructor|].
      intros a. split; [by intros ?%elem_of_nil|].
      intros (Hne & U & _). destruct Hne.
      destruct (tag_ok_File cn) as [s Hs];
        [by destruct (wf_nodes _ _ W _ _ Hcn)|by destruct (type cn)|].
      eapply under_file; eauto. }
  destruct (IH ND (λ c' Hc', Hcs c' (list_elem_of_further _ _ _ Hc'))
              ((acc ++ hit) ++ res1)) as (fuel2 & res2 & E2 & ND2 & M2).
  exists (fuel1 `max` fuel2)%nat, (hit ++ res1 ++ res2).
  split; [|split].
  - simpl. rewrite (load_Some _ _ _ Hcn). simpl.
    assert ((if decide (name cn = nm) then acc ++ [c] else acc) = acc ++ hit) as ->.
    { unfold hit. destruct (decide _); [done|by rewrite app_nil_r]. }
    assert ((if decide (type cn = Dir)
             then fs_find_r (fuel1 `max` fuel2) h c (Some nm) (acc ++ hit)
             else Ok (acc ++ hit)) = Ok ((acc ++ hit) ++ res1)) as ->.
    { destruct (decide (type cn = Dir)); [|done].
      eapply fs_find_r_mono; [exact E1|done|lia]. }
    simpl. rewrite !app_assoc.
    eapply fs_find_r_loop_mono; [|exact E2|done].
    intros c' arr r' E' Hr'. simpl. eapply fs_find_r_mono; [exact E'|done|lia].
  - apply NoDup_app. split; [|split].
    + unfold hit. destruct (decide _); [apply NoDup_singleton|constructor].
    + intros a [-> _]%Hhit [Hin|Hin]%elem_of_app.
      * apply M1 in Hin as (Hne & _). done.
      * apply M2 in Hin as (c' & an & Hc' & U & Ha & _).
        destruct (Hcs c') as (cn' & Hcn' & Hpc'); [by right|].
        assert (c' = c); [|by subst].
        eapply siblings_disjoint; [done|exact Hcn'|done|exact Hcn|done|done|constructor].
    + apply NoDup_app. split; [done|]. split; [|done].
      intros a (_ & U1 & _)%M1 (c' & an & Hc' & U2 & Ha & _)%M2.
      destruct (Hcs c') as (cn' & Hcn' & Hpc'); [by right|].
      assert (c' = c); [|by subst].
      eapply siblings_disjoint; [done|exact Hcn'|done|exact Hcn|done..].
  - intros a. rewrite !elem_of_app, Hhit, M1, M2. split.
    + intros [[-> Hn]|[(Hne & U & an & Ha & Hn)|(c' & an & Hc' & U & Ha & Hn)]].
      * exists c, cn. repeat split; try done; [left|constructor].
      * exists c, an. repeat split; try done. left.
      * exists c', an. repeat split; try done. by right.
    + intros (c' & an & [->|Hc']%elem_of_cons & U & Ha & Hn).
      * destruct (decide (a = c)) as [->|Hne].
        -- left. split; [done|]. congruence.
        -- right. left. split; [done|]. eauto.
      * right. right. eauto 10.
Qed.

Lemma fs_find_r_found root h nm D :
  wf root h → depth_bounded D h →
  ∀ (k : nat) node n, h !! node = Some n → type n = Dir →
    (Z.to_nat (D - depth n) < k)%nat →
    ∀ acc, ∃ fuel res,
      fs_find_r fuel h node (Some nm) acc = Ok (acc ++ res) ∧ NoDup res ∧
      ∀ a, a ∈ res ↔ found_below h node nm a.
Proof.
  intros W HD. induction k as [|k IH]; intros node n Hn Hty Hk acc; [lia|].
  destruct (tag_ok_Dir n) as [t Ht]; [by destruct (wf_nodes _ _ W _ _ Hn)|done|].
  destruct (wf_nodes _ _ W _ _ Hn) as [_ _ _ _ Ch].
  destruct (fs_find_r_loop_spec root h nm node W) with
    (cs := hashtable_children t) (acc := acc) as (fuel & res & E & ND & M).
  - intros c cn Hcn Hpc Tc.
    destruct (wf_nodes _ _ W _ _ Hcn) as [_ _ _ Ps _].
    destruct (Ps _ Hpc) as (pn & ? & Hpn & _ & _ & Hd).
    assert (pn = n) as -> by congruence.
    apply IH with cn; try done. specialize (HD _ _ Hcn). lia.
  - by eapply NoDup_hashtable_children.
  - intros c [key Hkey]%elem_of_hashtable_children.
    destruct (Ch _ _ _ Ht Hkey) as (cn & ? & ? & ?). eauto.
  - exists (S fuel), res. split; [|split; [done|]].
    + simpl. rewrite (load_Some _ _ _ Hn). simpl.
      by rewrite (proj2 (payload_dirhash_Ok _ _) Ht).
    + intros a. rewrite M. unfold found_below. split.
      * intros (c & an & [key Hkey]%elem_of_hashtable_children & U & Ha & Hnm).
        destruct (Ch _ _ _ Ht Hkey) as (cn & Hcn & _ & Hpc).
        assert (Un : under h node a).
        { eapply under_trans; [|done]. by eapply under_child. }
        split; [|eauto]. intros ->.
        destruct (wf_nodes _ _ W _ _ Hcn) as [_ _ _ Ps _].
        destruct (Ps _ Hpc) as (pn & ? & Hpn & _ & _ & Hd).
        assert (pn = n) as -> by congruence.
        destruct (under_depth _ _ _ _ _ _ W Hcn Hn U). lia.
      * intros (Hne & U & an & Ha & Hnm).
        destruct (under_strict_child _ _ _ U Hne) as (c & cn & Hcn & Hpc & Uc).
        exists c, an. repeat split; try done.
        apply elem_of_hashtable_children. exists (name cn).
        destruct (wf_nodes _ _ W _ _ Hcn) as [_ _ _ Ps _].
        destruct (Ps _ Hpc) as (pn & t' & Hpn & Ht' & Hkey & _). congruence.
Qed.

Lemma fs_find_r_total root h node n nm :
  wf root h → h !! node = Some n → type n = Dir →
  ∃ res fuel0,
    (∀ fuel, (fuel0 ≤ fuel)%nat → fs_find_r fuel h node (Some nm) [] = Ok res) ∧
    NoDup res ∧ ∀ a, a ∈ res ↔ found_below h node nm a.
Proof.
  intros W Hn Hty. destruct (depth_bounded_exists h) as [D HD].
  destruct (fs_find_r_found root h nm D W HD (S (Z.to_nat (D - depth n))) node n)
    with (acc := @nil addr) as (fuel0 & res & E & ND & M); [done|done|lia|].
  exists res, fuel0. split; [|done].
  intros fuel Hle. by eapply fs_find_r_mono.
Qed.

(** C5. [fs_find_r] on a directory returns, each exactly once, the
    nodes strictly below it whose name is the target: every entry of every
    directory reachable from it qualifies whatever its kind, also inside a
    directory that itself matched.  The order is that of the tables'
    iteration and is left open. *)
Theorem fs_find_r_spec root h node n nm :
  wf root h → h !! node = Some n → type n = Dir →
  ∃ res fuel0,
    (∀ fuel, (fuel0 ≤ fuel)%nat → fs_find_r fuel h node (Some nm) [] = Ok res) ∧
    NoDup res ∧
    ∀ a, a ∈ res ↔
      a ≠ node ∧ under h node a ∧ ∃ an, h !! a = Some an ∧ name an = nm.
Proof. apply fs_find_r_total. Qed.

(** ** Recursive deletion prunes the tree *)

Lemma pruned_sub root h node h' x xn :
  wf root h → pruned h node h' → h' !! x = Some xn →
  ∃ xn', h !! x = Some xn' ∧ same_links xn' xn.
Proof.
  intros W (n & p & pn & t & Hn & Hp & Hpn & Ht & Hp' & Hgone & Hkeep) Hx.
  destruct (under_dec root h node x W) as [U|U].
  { rewrite (Hgone _ U) in Hx. done. }
  destruct (decide (x = p)) as [->|Hxp].
  - exists pn. split; [done|]. assert (xn = set_payload pn (dirhash (delete (name n) t)))
      as -> by congruence. done.
  - rewrite (Hkeep _ U Hxp) in Hx. exists xn. done.
Qed.

Lemma depth_bounded_sub D h h' :
  depth_bounded D h →
  (∀ x xn, h' !! x = Some xn → ∃ xn', h !! x = Some xn' ∧ same_links xn' xn) →
  depth_bounded D h'.
Proof.
  intros HD Hsub x xn Hx. destruct (Hsub _ _ Hx) as (xn' & Hx' & _ & Ed & _).
  specialize (HD _ _ Hx'). lia.
Qed.

Lemma set_payload_same n p : payload n = p → set_payload n p = n.
Proof. intros <-. by destruct n. Qed.

(** The parent of a node is not below it. *)
Lemma parent_not_under root h a n p :
  wf root h → h !! a = Some n → parent n = Some p → ¬ under h a p.
Proof.
  intros W Ha Hp U.
  destruct (wf_nodes _ _ W _ _ Ha) as [_ _ _ Ps _].
  destruct (Ps _ Hp) as (pn & ? & Hpn & _ & _ & Hd).
  destruct (under_depth _ _ _ _ _ _ W Ha Hpn U). lia.
Qed.

Lemma fs_delete_r_loop_emptied root D k :
  (∀ h c cn, wf root h → depth_bounded D h → h !! c = Some cn → c ≠ root →
     (Z.to_nat (D - depth cn) < k)%nat →
     ∃ fuel h', fs_delete_r fuel h c = Ok h' ∧ pruned h c h' ∧ wf root h') →
  ∀ (m : nat) h node n t,
    wf root h → depth_bounded D h → h !! node = Some n → payload n = dirhash t →
    (size t ≤ m)%nat → (Z.to_nat (D - depth n) < S k)%nat →
    ∃ fuel h', fs_delete_r_loop fuel h node = Ok h' ∧ emptied h node h' ∧ wf root h'.
Proof.
  intros Hrec. induction m as [|m IH]; intros h node n t W HD Hn Ht Hm Hk.
  - assert (t = ∅) as -> by (apply map_size_empty_inv; lia).
    exists 1%nat, h. split; [|split; [|done]].
    + simpl. rewrite (load_Some _ _ _ Hn). simpl.
      rewrite (proj2 (payload_dirhash_Ok _ _) Ht). simpl.
      assert (hashtable_children ∅ = []) as ->; [|done].
      apply nil_length_inv. by rewrite length_hashtable_children.
    + exists n. split; [done|]. split; [by rewrite set_payload_same|].
      split; [|done]. intros a Hne U.
      destruct (under_strict_child _ _ _ U Hne) as (c & cn & Hcn & Hpc & _).
      destruct (wf_nodes _ _ W _ _ Hcn) as [_ _ _ Ps _].
      destruct (Ps _ Hpc) as (pn & t' & Hpn & Ht' & Hkey & _).
      assert (t' = ∅) as -> by congruence. by rewrite lookup_empty in Hkey.
  - destruct (hashtable_children t !! 0%nat) as [c|] eqn:Hc0; cycle 1.
    { apply lookup_ge_None in Hc0. rewrite length_hashtable_children in Hc0.
      apply (IH h node n t); try done. lia. }
    assert (Hc : c ∈ hashtable_children t) by (by eapply list_elem_of_lookup_2).
    apply elem_of_hashtable_children in Hc as [key Hkey].
    destruct (wf_nodes _ _ W _ _ Hn) as [_ _ _ _ Ch].
    destruct (Ch _ _ _ Ht Hkey) as (cn & Hcn & Hnm & Hpc).
    destruct (wf_nodes _ _ W _ _ Hcn) as [_ _ _ Ps _].
    destruct (Ps _ Hpc) as (pn & t' & Hpn & Ht' & _ & Hd).
    assert (pn = n) as -> by congruence.
    pose proof (HD _ _ Hcn) as Hcd.
    destruct (Hrec h c cn W HD Hcn) as (fuel1 & h1 & E1 & P1 & W1);
      [by eapply wf_not_root|lia|].
    assert (Sub1 := pruned_sub root h c h1).
    destruct P1 as (cn' & p' & pn' & t1 & Hcn' & Hp' & Hpn' & Ht1 & Hnode1 & Hgone1 & Hkeep1).
    assert (cn' = cn) as -> by congruence.
    assert (p' = node) as -> by congruence.
    assert (pn' = n) as -> by congruence.
    assert (t1 = t) as -> by congruence.
    rewrite Hnm in Hnode1.
    assert (HD1 : depth_bounded D h1).
    { eapply depth_bounded_sub; [exact HD|]. intros x xn Hx.
      apply Sub1; [done| |done]. exists cn, node, n, t. rewrite Hnm. done. }
    destruct (IH h1 node _ (delete key t) W1 HD1 Hnode1 eq_refl)
      as (fuel2 & h2 & E2 & (n1 & Hn1 & Hn2 & Hgone2 & Hkeep2) & W2).
    { rewrite map_size_delete_Some by eauto. lia. }
    { simpl. lia. }
    exists (S (fuel1 `max` fuel2)), h2. split; [|split; [|done]].
    + simpl. rewrite (load_Some _ _ _ Hn). simpl.
      rewrite (proj2 (payload_dirhash_Ok _ _) Ht). simpl. rewrite Hc0.
      rewrite (fs_delete_r_mono fuel1 _ _ _ _ E1) by (done || lia). simpl.
      eapply fs_delete_r_loop_mono; [exact E2|done|lia].
    + exists n. split; [done|]. split; [|split].
      * rewrite Hn2. f_equal. assert (n1 = set_payload n (dirhash (delete key t)))
          as -> by congruence. done.
      * intros a Hne U. destruct (under_dec root h c a W) as [Uc|Uc].
        -- rewrite Hkeep2; [by apply Hgone1|].
           intros U1. apply under_inv in U1 as [|(? & ? & Ha1 & _)]; [done|].
           rewrite (Hgone1 _ Uc) in Ha1. done.
        -- apply Hgone2; [done|]. clear Hne. induction U as [|a an p Ha Hp U IHU].
           { constructor. }
           destruct (decide (a = node)) as [->|Hne]; [constructor|].
           eapply under_step; [|exact Hp|].
           ++ rewrite Hkeep1; done.
           ++ apply IHU. intros Ucp. apply Uc. eauto using under.
      * intros a U. rewrite Hkeep2.
        -- apply Hkeep1.
           ++ intros Uc. apply U. eapply under_trans; [|exact Uc].
              by eapply under_child.
           ++ intros ->. apply U. constructor.
        -- intros U1. apply U. revert U1. apply under_mono.
           intros x xn Hx. destruct (Sub1 x xn W) as (xn' & Hx' & _ & _ & Epar & _);
             [|done|eauto].
           exists cn, node, n, t. rewrite Hnm. done.
Qed.

Lemma fs_delete_r_pruned root D :
  ∀ (k : nat) h node n,
    wf root h → depth_bounded D h → h !! node = Some n → node ≠ root →
    (Z.to_nat (D - depth n) < k)%nat →
    ∃ fuel h', fs_delete_r fuel h node = Ok h' ∧ pruned h node h' ∧ wf root h'.
Proof.
  induction k as [|k IH]; intros h node n W HD Hn Hr Hk; [lia|].
  destruct (wf_parent _ _ _ _ W Hn Hr) as (p & pn & tp & Ep & Hpn & Htp & Hkey & Hd & Hpa).
  assert (Tg : tag_ok n) by (by destruct (wf_nodes _ _ W _ _ Hn)).
  assert (NU : ¬ under h node p) by eauto using parent_not_under.
  destruct (payload n) as [s|t] eqn:Hpl.
  - (* a file *)
    exists 1%nat, (detach h node n p pn tp). simpl.
    rewrite (load_Some _ _ _ Hn). simpl. rewrite (tag_ok_content _ _ Tg Hpl).
    split; [by eapply fs_free_file_detach|].
    split; [|apply detach_wf; try done; congruence].
    exists n, p, pn, tp. repeat split; try done.
    + rewrite detach_lookup by done. destruct (decide (p = node)); [done|].
      by destruct (decide (p = p)).
    + intros a U. assert (a = node) as -> by eauto using under_file.
      rewrite detach_lookup by done. by destruct (decide (node = node)).
    + intros a U Hap. rewrite detach_lookup by done.
      destruct (decide (a = node)) as [->|]; [destruct U; constructor|].
      by destruct (decide (a = p)).
  - (* a directory *)
    assert (∃ fuel1 h1,
      (if decide (hashtable_get_size t > 0) then fs_delete_r_loop fuel1 h node
       else Ok h) = Ok h1 ∧ emptied h node h1 ∧ wf root h1)
      as (fuel1 & h1 & E1 & (n' & Hn' & Hn1 & Hgone & Hkeep) & W1).
    { destruct (decide (hashtable_get_size t > 0)) as [Hs|Hs].
      - by eapply (fs_delete_r_loop_emptied root D k IH).
      - exists 0%nat, h. split; [done|]. split; [|done].
        assert (t = ∅) as ->.
        { apply map_size_empty_inv. unfold hashtable_get_size in Hs. lia. }
        exists n. split; [done|]. split; [by rewrite set_payload_same|].
        split; [|done]. intros a Hne U.
        destruct (under_strict_child _ _ _ U Hne) as (c & cn & Hcn & Hpc & _).
        destruct (wf_nodes _ _ W _ _ Hcn) as [_ _ _ Ps _].
        destruct (Ps _ Hpc) as (pn' & t' & Hpn' & Ht' & Hkey' & _).
        assert (t' = ∅) as -> by congruence. by rewrite lookup_empty in Hkey'. }
    assert (n' = n) as -> by congruence.
    assert (Hp1 : h1 !! p = Some pn) by (by rewrite Hkeep).
    exists (S fuel1), (detach h1 node (set_payload n (dirhash ∅)) p pn tp).
    split; [|split].
    + simpl. rewrite (load_Some _ _ _ Hn). simpl. rewrite (tag_ok_dirhash _ _ Tg Hpl).
      rewrite (proj2 (payload_dirhash_Ok _ _) Hpl). simpl. rewrite E1. simpl.
      by rewrite (fs_free_dir_detach h1 node (set_payload n (dirhash ∅)) p pn tp).
    + exists n, p, pn, tp. repeat split; try done.
      * rewrite detach_lookup by done. destruct (decide (p = node)); [done|].
        by destruct (decide (p = p)).
      * intros a U. rewrite detach_lookup by done.
        destruct (decide (a = node)) as [|Hne]; [done|].
        destruct (decide (a = p)) as [->|]; [done|]. by apply Hgone.
      * intros a U Hap. rewrite detach_lookup by done.
        destruct (decide (a = node)) as [->|]; [destruct U; constructor|].
        destruct (decide (a = p)); [done|]. by apply Hkeep.
    + apply detach_wf; try done. simpl. congruence.
Qed.

(** ** Tokens *)

Lemma skip_delims_length delim s :
  (String.length (skip_delims delim s) ≤ String.length s)%nat.
Proof. induction s as [|c s IH]; simpl; [lia|]. destruct (is_delim delim c); simpl; lia. Qed.

Lemma split_token_length delim s tok rest :
  split_token delim s = (tok, rest) → s ≠ "" →
  (String.length rest < String.length s)%nat.
Proof.
  revert tok rest. induction s as [|c s IH]; intros tok rest E Hne; [done|].
  simpl in *. destruct (is_delim delim c).
  - injection E as <- <-. lia.
  - destruct (split_token delim s) as [tok' rest'] eqn:E'. injection E as <- <-.
    destruct s as [|c' s']; [simpl in E'; injection E' as <- <-; simpl; lia|].
    specialize (IH _ _ eq_refl ltac:(done)). lia.
Qed.

Lemma strtok_eq str delim saved :
  strtok str delim saved =
    match skip_delims delim (default saved str) with
    | EmptyString => (None, EmptyString)
    | String c s => (Some (split_token delim (String c s)).1,
                     (split_token delim (String c s)).2)
    end.
Proof.
  unfold strtok. destruct (skip_delims _ _) as [|c s]; [done|].
  by destruct (split_token delim (String c s)).
Qed.

Lemma strtok_length delim saved tok rest :
  strtok None delim saved = (Some tok, rest) →
  (String.length rest < String.length saved)%nat.
Proof.
  rewrite strtok_eq. simpl default.
  pose proof (skip_delims_length delim saved) as L.
  destruct (skip_delims delim saved) as [|c s] eqn:E; [discriminate|].
  destruct (split_token delim (String c s)) as [tok' rest'] eqn:E'.
  intros [= <- <-]. apply split_token_length in E'; [|done].
  change (String.length (String c s)) with (S (String.length s)) in *. lia.
Qed.

Lemma strtok_default str delim saved :
  strtok str delim saved = strtok None delim (default saved str).
Proof. by destruct str. Qed.

Lemma tokens_from_enough delim fuel saved :
  (String.length saved ≤ fuel)%nat →
  tokens_from fuel delim saved = tokens_from (String.length saved) delim saved.
Proof.
  remember (String.length saved) as k eqn:Ek. revert saved fuel Ek.
  induction (lt_wf k) as [k _ IH]. intros saved fuel -> Hle.
  destruct fuel as [|fuel].
  { assert (String.length saved = 0%nat) as -> by lia. done. }
  destruct (String.length saved) as [|k] eqn:Ek.
  { destruct saved; [done|discriminate]. }
  simpl. destruct (strtok None delim saved) as [[tok|] rest] eqn:E; [|done].
  apply strtok_length in E. f_equal.
  rewrite (IH (String.length rest) ltac:(lia) rest fuel eq_refl ltac:(lia)).
  rewrite (IH (String.length rest) ltac:(lia) rest k eq_refl ltac:(lia)). done.
Qed.

Lemma tokens_from_unfold delim saved :
  tokens_from (String.length saved) delim saved =
    match strtok None delim saved with
    | (Some tok, rest) => tok :: tokens_from (String.length rest) delim rest
    | (None, _) => []
    end.
Proof.
  destruct (String.length saved) as [|k] eqn:Ek.
  { destruct saved; [done|discriminate]. }
  simpl. destruct (strtok None delim saved) as [[tok|] rest] eqn:E; [|done].
  apply strtok_length in E. f_equal. apply tokens_from_enough. lia.
Qed.

Lemma tokens_from_length delim fuel saved :
  (List.length (tokens_from fuel delim saved) ≤ String.length saved)%nat.
Proof.
  revert saved. induction fuel as [|fuel IH]; intros saved; simpl; [lia|].
  destruct (strtok None delim saved) as [[tok|] rest] eqn:E; simpl; [|lia].
  apply strtok_length in E. specialize (IH rest). lia.
Qed.

(** ** The path resolver walks the tokens *)

Lemma pending_step next_token saved next' saved' :
  strtok None delim_next saved = (next', saved') →
  pending next_token next' saved' =
    match next_token with
    | Some tok' => tok' :: tokens_from (String.length saved) delim_next saved
    | None => []
    end.
Proof.
  intros E. unfold pending. destruct next_token; [|done].
  rewrite (tokens_from_unfold _ saved), E. by destruct next'.
Qed.

Lemma enter_path_loop_walk fuel h node cur_token next_token saved new_name :
  (List.length (pending cur_token next_token saved) < fuel)%nat →
  enter_path_loop fuel h node cur_token next_token saved new_name =
    walk h node (pending cur_token next_token saved) new_name.
Proof.
  revert node cur_token next_token saved.
  induction fuel as [|fuel IH]; intros node cur next saved Hf; [lia|].
  destruct cur as [tok|]; [|done].
  change (pending (Some tok) next saved) with
    (tok :: match next with
            | Some tok' => tok' :: tokens_from (String.length saved) delim_next saved
            | None => []
            end) in *.
  cbn [enter_path_loop walk].
  destruct (fs_get_type h node) as [ty| |]; simpl; try done.
  destruct (decide (ty = Dir)); [|done].
  destruct (fs_find_in_dir h node tok) as [[child|]| |]; simpl; try done.
  - destruct (strtok None delim_next saved) as [next' saved'] eqn:E.
    rewrite <- (pending_step _ _ _ _ E) in *. apply IH. simpl in Hf. lia.
  - destruct next; done.
Qed.

Lemma enter_path_walk h node path saved new_name :
  enter_path h node path saved new_name =
    match path_tokens (default saved path) with
    | [] => Ok (None, None)
    | tok :: toks => walk h node (tok :: toks) new_name
    end.
Proof.
  unfold enter_path, path_tokens.
  rewrite (strtok_default path), (strtok_default (Some _)).
  change (default "" (Some (default saved path))) with (default saved path).
  set (s := default saved path).
  destruct (strtok None delim_first s) as [[tok|] saved1] eqn:E1; cycle 1.
  { by destruct (strtok None delim_next saved1). }
  destruct (strtok None delim_next saved1) as [next saved2] eqn:E2.
  rewrite enter_path_loop_walk.
  - unfold pending. rewrite (tokens_from_unfold _ saved1), E2. by destruct next.
  - apply strtok_length in E1. unfold pending. destruct next as [tok'|]; simpl; [|lia].
    apply strtok_length in E2. pose proof (tokens_from_length delim_next
      (String.length saved2) saved2). lia.
Qed.

Lemma walk_resolves h a pre b rest new_name :
  resolves h a pre b → walk h a (pre ++ rest) new_name = walk h b rest new_name.
Proof.
  induction 1 as [|a an t tok c toks b Ha Hty Ht Hk _ IH]; [done|]. simpl.
  unfold fs_get_type, fs_find_in_dir. rewrite (load_Some _ _ _ Ha). simpl.
  destruct (decide (type an = Dir)); [|done].
  rewrite (proj2 (payload_dirhash_Ok _ _) Ht). simpl.
  unfold hashtable_get. by rewrite Hk.
Qed.

Lemma walk_missing h d dn t tok rest new_name :
  h !! d = Some dn → type dn = Dir → payload dn = dirhash t → t !! tok = None →
  walk h d (tok :: rest) new_name =
    if new_name && bool_decide (rest = []) then Ok (Some d, Some tok)
    else Ok (None, None).
Proof.
  intros Hd Hty Ht Hk. simpl.
  unfold fs_get_type, fs_find_in_dir. rewrite (load_Some _ _ _ Hd). simpl.
  destruct (decide (type dn = Dir)); [|done].
  rewrite (proj2 (payload_dirhash_Ok _ _) Ht). simpl.
  unfold hashtable_get. by rewrite Hk.
Qed.

Lemma walk_file h d dn tok rest new_name :
  h !! d = Some dn → type dn = File → walk h d (tok :: rest) new_name = Ok (None, None).
Proof.
  intros Hd Hty. simpl. unfold fs_get_type. rewrite (load_Some _ _ _ Hd). simpl.
  rewrite Hty. by destruct (decide (File = Dir)).
Qed.


(** ** The two readings of the components of a path *)

Lemma clean_skip_delims d delim s :
  clean d s = true → clean d (skip_delims delim s) = true.
Proof.
  induction s as [|c s IH]; [done|]. intros Hc. simpl.
  destruct (is_delim delim c); [|done].
  simpl in Hc. apply andb_true_iff in Hc as [_ Hc]. by apply IH.
Qed.

Lemma clean_split_token d delim s :
  clean d s = true →
  clean d (split_token delim s).1 = true ∧ clean d (split_token delim s).2 = true.
Proof.
  induction s as [|c s IH]; [done|]. intros Hc. simpl in *.
  apply andb_true_iff in Hc as [Hc1 Hc]. destruct (IH Hc) as [IH1 IH2].
  destruct (is_delim delim c); [done|].
  destruct (split_token delim s) as [tok rest]. simpl in *. by rewrite Hc1.
Qed.

Lemma clean_strtok d delim str saved tok rest :
  clean d (default saved str) = true → strtok str delim saved = (Some tok, rest) →
  clean d tok = true ∧ clean d rest = true.
Proof.
  intros Hc. rewrite strtok_eq.
  pose proof (clean_skip_delims d delim _ Hc) as Hs.
  destruct (skip_delims delim (default saved str)) as [|c s]; [done|].
  intros [= <- <-]. by apply (clean_split_token d delim (String c s)).
Qed.








(** ** Reading back a joined path *)

Lemma skip_delims_component delim tok rest :
  component delim tok → skip_delims delim (tok +:+ rest) = tok +:+ rest.
Proof.
  intros [Hne Hc]. destruct tok as [|c tok]; [done|]. simpl in *.
  apply andb_true_iff in Hc as [Hc _]. apply negb_true_iff in Hc. by rewrite Hc.
Qed.

Lemma split_token_clean delim tok rest :
  clean delim tok = true →
  (rest = "" ∨ ∃ c r, rest = String c r ∧ is_delim delim c = true) →
  split_token delim (tok +:+ rest) = (tok, string_tail rest).
Proof.
  intros Hc Hrest. induction tok as [|c tok IH]; simpl in *.
  - destruct Hrest as [->|(c & r & -> & Hd)]; [done|]. simpl. by rewrite Hd.
  - apply andb_true_iff in Hc as [Hc Hc']. apply negb_true_iff in Hc. rewrite Hc.
    by rewrite (IH Hc').
Qed.

Lemma strtok_component delim tok rest :
  component delim tok →
  (rest = "" ∨ ∃ c r, rest = String c r ∧ is_delim delim c = true) →
  strtok None delim (tok +:+ rest) = (Some tok, string_tail rest).
Proof.
  intros Hc Hrest. rewrite strtok_eq. simpl default.
  rewrite (skip_delims_component _ _ _ Hc).
  destruct Hc as [Hne Hc]. destruct tok as [|c tok]; [done|].
  pose proof (split_token_clean _ _ _ Hc Hrest) as E.
  change (String c tok +:+ rest) with (String c (tok +:+ rest)) in *.
  cbv iota. by rewrite E.
Qed.

Lemma join_cons tok toks acc : join (tok :: toks) acc = String "/" (tok +:+ join toks acc).
Proof. done. Qed.

Lemma join_slash delim toks :
  is_delim delim "/" = true →
  join toks "" = "" ∨ ∃ c r, join toks "" = String c r ∧ is_delim delim c = true.
Proof. intros Hd. destruct toks as [|tok toks]; [by left|]. right. rewrite join_cons. eauto. Qed.

Lemma tokens_from_join delim toks fuel :
  is_delim delim "/" = true → Forall (component delim) toks →
  (List.length toks ≤ fuel)%nat →
  tokens_from fuel delim (string_tail (join toks "")) = toks.
Proof.
  intros Hd Hall. revert fuel. induction Hall as [|tok toks Hc _ IH]; intros fuel Hle.
  { by destruct fuel. }
  destruct fuel as [|fuel]; [simpl in Hle; lia|].
  rewrite join_cons. cbn [string_tail tokens_from].
  rewrite (strtok_component _ _ _ Hc (join_slash _ _ Hd)).
  rewrite IH; [done|]. simpl in Hle. lia.
Qed.

Lemma path_tokens_join tok toks :
  component delim_first tok → Forall (component delim_next) toks →
  path_tokens (join (tok :: toks) "") = tok :: toks.
Proof.
  intros Hc Hall. unfold path_tokens.
  assert (strtok (Some (join (tok :: toks) "")) delim_first "" =
          (Some tok, string_tail (join toks ""))) as ->.
  { rewrite <- (strtok_component delim_first tok (join toks "") Hc
                 (join_slash delim_first _ eq_refl)).
    rewrite !strtok_eq. by rewrite join_cons. }
  f_equal. set (rest := string_tail (join toks "")).
  rewrite <- (tokens_from_enough delim_next (String.length rest + List.length toks));
    [|lia].
  apply tokens_from_join; [done|done|lia].
Qed.

Lemma clean_first_next s : clean delim_first s = true → clean delim_next s = true.
Proof.
  induction s as [|c s IH]; [done|]. simpl.
  intros [Hc Hs]%andb_true_iff. rewrite (IH Hs), andb_true_r.
  apply negb_true_iff. apply negb_true_iff in Hc.
  unfold is_delim in *. simpl in *.
  repeat (apply orb_false_iff in Hc as [? Hc]).
  repeat (apply orb_false_iff; split; try done).
Qed.

Lemma component_first_next s : component delim_first s → component delim_next s.
Proof. intros [? ?]. split; [done|]. by apply clean_first_next. Qed.

Lemma resolves_child_not_root root h a toks b :
  wf root h → resolves h a toks b → toks ≠ [] → b ≠ root.
Proof.
  intros W. induction 1 as [|a an t tok c toks b Ha Hty Ht Hk Hres IH]; [done|].
  intros _. destruct toks as [|tok' toks].
  - inversion Hres; subst.
    destruct (wf_nodes _ _ W _ _ Ha) as [_ _ _ _ Ch].
    destruct (Ch _ _ _ Ht Hk) as (cn & Hcn & _ & Hpc). by eapply wf_not_root.
  - by apply IH.
Qed.

Lemma resolves_components root h a toks b :
  wf root h → names_ok root h → resolves h a toks b →
  Forall (component delim_next) toks ∧
  (a = root → ∀ tok toks', toks = tok :: toks' → component delim_first tok).
Proof.
  intros W Hnames.
  induction 1 as [|a an t tok c toks b Ha Hty Ht Hk Hres [IH _]]; [done|].
  destruct (wf_nodes _ _ W _ _ Ha) as [_ _ _ _ Ch].
  destruct (Ch _ _ _ Ht Hk) as (cn & Hcn & Hnm & Hpc).
  pose proof (Hnames _ _ _ Hcn Hpc) as Hcomp. rewrite Hnm in Hcomp.
  split.
  - constructor; [|done]. destruct (decide (a = root)); [|done].
    by apply component_first_next.
  - intros -> ? ? [= <- <-]. by destruct (decide (root = root)).
Qed.

Lemma resolves_depth root h a toks b an bn :
  wf root h → resolves h a toks b → h !! a = Some an → h !! b = Some bn →
  depth bn = depth an + Z.of_nat (List.length toks).
Proof.
  intros W Hres. revert an.
  induction Hres as [|a an' t tok c toks b Ha Hty Ht Hk Hres IH]; intros an Han Hbn.
  { assert (an = bn) as -> by congruence. simpl. lia. }
  assert (an' = an) as -> by congruence.
  destruct (wf_nodes _ _ W _ _ Ha) as [_ _ _ _ Ch].
  destruct (Ch _ _ _ Ht Hk) as (cn & Hcn & Hnm & Hpc).
  destruct (wf_nodes _ _ W _ _ Hcn) as [_ _ _ Ps _].
  destruct (Ps _ Hpc) as (pn & ? & Hpn & _ & _ & Hd).
  assert (pn = an) as -> by congruence.
  rewrite (IH cn Hcn Hbn). simpl List.length. lia.
Qed.

Lemma resolves_allocated root h a toks b :
  wf root h → resolves h a toks b → is_Some (h !! a) → is_Some (h !! b).
Proof.
  intros W. induction 1 as [|a an t tok c toks b Ha Hty Ht Hk Hres IH]; [done|].
  intros _. apply IH.
  destruct (wf_nodes _ _ W _ _ Ha) as [_ _ _ _ Ch].
  destruct (Ch _ _ _ Ht Hk) as (cn & Hcn & _). eauto.
Qed.

(** ** What the resolver returns *)

Lemma walk_step_inv h a tok toks new_name r :
  walk h a (tok :: toks) new_name = Ok r →
  ∃ an, h !! a = Some an ∧
    (type an ≠ Dir ∧ r = (None, None) ∨
     type an = Dir ∧ ∃ t, payload an = dirhash t ∧
       match t !! tok with
       | Some c => walk h c toks new_name = Ok r
       | None => r = if new_name && bool_decide (toks = [])
                     then (Some a, Some tok) else (None, None)
       end).
Proof.
  simpl. unfold fs_get_type, fs_find_in_dir. intros E.
  apply bind_Ok in E as (ty & E1 & E).
  apply bind_Ok in E1 as (an & Ha%load_Ok & [= <-]).
  exists an. split; [done|].
  destruct (decide (type an = Dir)) as [Hty|Hty]; [|left; by injection E as <-].
  right. split; [done|].
  apply bind_Ok in E as (tmp & E1 & E).
  apply bind_Ok in E1 as (an' & Ha'%load_Ok & E1).
  assert (an' = an) as -> by congruence.
  apply bind_Ok in E1 as (t & Ht%payload_dirhash_Ok & [= <-]).
  exists t. split; [done|]. unfold hashtable_get in E.
  destruct (t !! tok); [done|]. destruct (_ && _); by injection E as <-.
Qed.

Lemma walk_found h a toks b nm :
  walk h a toks false = Ok (Some b, nm) → resolves h a toks b ∧ nm = None.
Proof.
  revert a. induction toks as [|tok toks IH]; intros a E.
  { simpl in E. injection E as <- <-. split; [constructor|done]. }
  apply walk_step_inv in E as (an & Ha & [[_ [=]]|(Hty & t & Ht & E)]).
  destruct (t !! tok) as [c|] eqn:Hk; [|done].
  destruct (IH _ E) as [Hres ->]. split; [|done]. eauto using resolves.
Qed.

Lemma walk_captured h a toks ob nm :
  walk h a toks true = Ok (ob, Some nm) →
  ∃ d pre dn t,
    ob = Some d ∧ toks = pre ++ [nm] ∧ resolves h a pre d ∧
    h !! d = Some dn ∧ type dn = Dir ∧ payload dn = dirhash t ∧ t !! nm = None.
Proof.
  revert a. induction toks as [|tok toks IH]; intros a E.
  { simpl in E. by injection E. }
  apply walk_step_inv in E as (an & Ha & [[_ [=]]|(Hty & t & Ht & E)]).
  destruct (t !! tok) as [c|] eqn:Hk.
  - destruct (IH _ E) as (d & pre & dn & t' & -> & -> & Hres & Hd).
    exists d, (tok :: pre), dn, t'. repeat split; try apply Hd; try done.
    eauto using resolves.
  - simpl in E. destruct (bool_decide (toks = [])) eqn:Hnil; [|done].
    apply bool_decide_eq_true in Hnil as ->. injection E as -> ->.
    exists a, [], an, t. repeat split; try done. constructor.
Qed.

Lemma walk_safe root h a toks new_name :
  wf root h → is_Some (h !! a) → ∃ r, walk h a toks new_name = Ok r.
Proof.
  intros W. revert a. induction toks as [|tok toks IH]; intros a [an Ha]; [by eexists|].
  simpl. unfold fs_get_type, fs_find_in_dir. rewrite (load_Some _ _ _ Ha). simpl.
  destruct (decide (type an = Dir)) as [Hty|]; [|by eexists].
  destruct (wf_nodes _ _ W _ _ Ha) as [Tg _ _ _ Ch].
  destruct (tag_ok_Dir _ Tg Hty) as [t Ht].
  rewrite (proj2 (payload_dirhash_Ok _ _) Ht). simpl. unfold hashtable_get.
  destruct (t !! tok) as [c|] eqn:Hk.
  - apply IH. destruct (Ch _ _ _ Ht Hk) as (cn & Hcn & _). eauto.
  - destruct (_ && _); by eexists.
Qed.

(** C6, as amended.  In a tree whose names are path components, the
    string that [fs_get_path] returns for a node other than the root
    resolves from the root, with a [NULL] [new_name], to that node. *)
Theorem path_roundtrip root h a an saved :
  wf root h → names_ok root h → h !! a = Some an → a ≠ root →
  ∃ path fuel0,
    (∀ fuel, (fuel0 ≤ fuel)%nat → fs_get_path fuel h a = Ok path) ∧
    enter_path h root (Some path) saved false = Ok (Some a, None).
Proof.
  intros W Hnames Ha Hr.
  destruct (fs_get_path_resolves _ _ _ _ W Ha Hr) as (toks & fuel0 & Hne & Hres & Hpath).
  exists (join toks ""), fuel0. split; [done|].
  destruct (resolves_components _ _ _ _ _ W Hnames Hres) as [Hall Hfirst].
  destruct toks as [|tok toks]; [done|].
  rewrite enter_path_walk.
  change (default saved (Some (join (tok :: toks) ""))) with (join (tok :: toks) "").
  rewrite path_tokens_join; [|by eapply Hfirst|by inversion Hall].
  rewrite <- (app_nil_r (tok :: toks)). by rewrite (walk_resolves _ _ _ _ _ _ Hres).
Qed.

(** ** The path of a deleted node *)

Lemma pruned_unresolvable root h node h' :
  wf root h → pruned h node h' →
  ∀ a toks, resolves h a toks node → a ≠ node →
    walk h' a toks false = Ok (None, None).
Proof.
  intros W (n & p & pn & tp & Hn & Hp & Hpn & Htp & Hp' & Hgone & Hkeep) a toks Hres.
  induction Hres as [|a an t tok c toks b Ha Hty Ht Hk Hres IH]; intros Hne; [done|].
  destruct (wf_nodes _ _ W _ _ Ha) as [Tg _ _ _ Ch].
  destruct (Ch _ _ _ Ht Hk) as (cn & Hcn & Hnm & Hpc).
  destruct (wf_nodes _ _ W _ _ Hn) as [_ _ _ Ps _].
  destruct (Ps _ Hp) as (pn' & tp' & Hpn' & _ & _ & Hd).
  assert (pn' = pn) as -> by congruence.
  destruct (decide (c = b)) as [->|Hcb].
  - assert (cn = n) as -> by congruence.
    assert (a = p) as -> by congruence.
    assert (an = pn) as -> by congruence.
    assert (t = tp) as -> by congruence.
    rewrite (walk_missing h' p _ (delete (name n) tp) tok toks false Hp'); try done.
    rewrite <- Hnm. apply lookup_delete_eq.
  - assert (Hlen : (0 < List.length toks)%nat).
    { destruct toks; [|simpl; lia]. inversion Hres. by subst. }
    pose proof (resolves_depth _ _ _ _ _ _ _ W Hres Hcn Hn) as Hdepth.
    destruct (wf_nodes _ _ W _ _ Hcn) as [_ _ _ Psc _].
    destruct (Psc _ Hpc) as (an' & ? & Han' & _ & _ & Hdc).
    assert (an' = an) as -> by congruence.
    assert (Ha' : h' !! a = Some an).
    { rewrite Hkeep; [done| |].
      - intros U. destruct (under_depth _ _ _ _ _ _ W Hn Ha U). lia.
      - intros ->. assert (an = pn) as -> by congruence. lia. }
    specialize (IH Hn Hgone Hkeep Hcb).
    simpl. unfold fs_get_type, fs_find_in_dir. rewrite (load_Some _ _ _ Ha'). simpl.
    destruct (decide (type an = Dir)); [|done].
    rewrite (proj2 (payload_dirhash_Ok _ _) Ht). simpl.
    unfold hashtable_get. by rewrite Hk.
Qed.

(** C3, as amended.  On every node other than the root, [fs_delete_r]
    returns: the node and all its descendants are released, a file as
    well as a directory; the parent loses exactly the entry of the node,
    so that its number of entries decreases by one; nothing else changes
    and the tree stays well-formed; and every path that led to the node
    from the root now fails to resolve. *)
Theorem fs_delete_r_spec root h node n :
  wf root h → h !! node = Some n → node ≠ root →
  ∃ h' fuel0 p pn t,
    (∀ fuel, (fuel0 ≤ fuel)%nat → fs_delete_r fuel h node = Ok h') ∧
    wf root h' ∧
    parent n = Some p ∧ h !! p = Some pn ∧ payload pn = dirhash t ∧
    (∀ a, under h node a → h' !! a = None) ∧
    (∀ a, ¬ under h node a → a ≠ p → h' !! a = h !! a) ∧
    h' !! p = Some (set_payload pn (dirhash (delete (name n) t))) ∧
    S (size (delete (name n) t)) = size t ∧
    (∀ path saved,
       resolves h root (path_tokens (default saved path)) node →
       enter_path h' root path saved false = Ok (None, None)).
Proof.
  intros W Hn Hr. destruct (depth_bounded_exists h) as [D HD].
  destruct (fs_delete_r_pruned root D (S (Z.to_nat (D - depth n))) h node n)
    as (fuel0 & h' & E & P & W'); [done..|lia|].
  pose proof (pruned_unresolvable _ _ _ _ W P) as Hun.
  destruct P as (n' & p & pn & t & Hn' & Hp & Hpn & Ht & Hp' & Hgone & Hkeep).
  assert (n' = n) as -> by congruence.
  exists h', fuel0, p, pn, t. split_and!; try done.
  - intros fuel Hle. by eapply fs_delete_r_mono.
  - destruct (wf_nodes _ _ W _ _ Hn) as [_ _ _ Ps _].
    destruct (Ps _ Hp) as (pn' & t' & Hpn' & Ht' & Hkey & _).
    assert (t' = t) as -> by congruence.
    rewrite map_size_delete_Some by eauto.
    pose proof (map_size_ne_0_lookup_2 t (name n) ltac:(eauto)). lia.
  - intros path saved Hres. rewrite enter_path_walk.
    destruct (path_tokens (default saved path)) as [|tok toks] eqn:Etoks; [done|].
    apply Hun; [done|]. by apply not_eq_sym.
Qed.

(** ** The invariants are preserved *)

Lemma fs_new_root_wf : wf (fs_new_root ∅).1 (fs_new_root ∅).2.
Proof.
  unfold fs_new_root. cbn [fst snd]. set (root := malloc_or_die ∅). split.
  - eexists. by rewrite lookup_insert_eq.
  - intros a n Ha. apply lookup_insert_Some in Ha as [[<- <-]|[_ Ha]];
      [|by rewrite lookup_empty in Ha].
    split; simpl; try done.
    intros t k c [= <-]. unfold hashtable_create. by rewrite lookup_empty.
Qed.

Lemma fs_new_root_names_ok : names_ok (fs_new_root ∅).1 (fs_new_root ∅).2.
Proof.
  unfold fs_new_root. cbn [fst snd]. intros a n p Ha.
  apply lookup_insert_Some in Ha as [[<- <-]|[_ Ha]]; [done|].
  by rewrite lookup_empty in Ha.
Qed.

Lemma fs_create_wf root h p pn t key ty :
  wf root h → h !! p = Some pn → payload pn = dirhash t → t !! key = None →
  wf root (<[p := set_payload pn (dirhash (<[key := malloc_or_die h]> t))]>
            (<[malloc_or_die h := new_node p pn key ty]> h)).
Proof.
  intros W Hp Ht Hkey. set (child := malloc_or_die h).
  assert (Hfresh : h !! child = None) by apply malloc_or_die_fresh.
  assert (Hcp : child ≠ p) by congruence.
  set (pn' := set_payload pn (dirhash (<[key := child]> t))).
  set (cn := new_node p pn key ty).
  assert (L : ∀ x, (<[p := pn']> (<[child := cn]> h)) !! x =
    if decide (x = p) then Some pn'
    else if decide (x = child) then Some cn else h !! x).
  { intros x. destruct (decide (x = p)) as [->|]; [by rewrite lookup_insert_eq|].
    rewrite lookup_insert_ne by done.
    destruct (decide (x = child)) as [->|]; [by rewrite lookup_insert_eq|].
    by rewrite lookup_insert_ne. }
  destruct (wf_nodes _ _ W _ _ Hp) as [Tgp Dpp Pnp Psp Chp].
  (* every old node is still there, with the same links *)
  assert (Old : ∀ x xn, h !! x = Some xn →
    ∃ xn', (<[p := pn']> (<[child := cn]> h)) !! x = Some xn' ∧
           name xn' = name xn ∧ parent xn' = parent xn ∧ depth xn' = depth xn ∧
           type xn' = type xn).
  { intros x xn Hx. rewrite L. destruct (decide (x = p)) as [->|].
    - assert (xn = pn) as -> by congruence. eauto 10.
    - destruct (decide (x = child)) as [->|]; [congruence|eauto 10]. }
  split.
  - destruct (wf_root _ _ W) as (r & Hr & Hn & Hd).
    destruct (Old _ _ Hr) as (r' & Hr' & _ & Epar & _ & Ety). exists r'.
    split; [done|]. split; congruence.
  - intros x xn Hx. rewrite L in Hx.
    destruct (decide (x = p)) as [->|Hxp]; [|destruct (decide (x = child)) as [->|Hxc]].
    + injection Hx as <-. split; simpl; try done.
      * unfold tag_ok. simpl. by rewrite (tag_ok_dirhash _ _ Tgp Ht).
      * intros q Hq. destruct (Psp q Hq) as (qn & tq & Hqn & Htq & Hkq & Hdq).
        rewrite L. destruct (decide (q = p)) as [->|].
        -- assert (qn = pn) as -> by congruence. assert (tq = t) as -> by congruence.
           eexists _, _. split; [done|]. split; [done|]. split; [|done].
           rewrite lookup_insert_ne; [done|]. congruence.
        -- destruct (decide (q = child)) as [->|]; [congruence|]. eauto 10.
      * intros t' k c [= <-] Hk. apply lookup_insert_Some in Hk as [[<- <-]|[Hne Hk]].
        -- exists cn. rewrite L. destruct (decide (child = p)); [done|].
           by destruct (decide (child = child)).
        -- destruct (Chp _ _ _ Ht Hk) as (cn' & Hcn' & Hnm & Hpc).
           destruct (Old _ _ Hcn') as (cn'' & Hcn'' & En & Ep & _).
           exists cn''. split; [done|]. split; congruence.
    + injection Hx as <-. split; simpl; try done.
      * unfold tag_ok. simpl. by destruct ty.
      * lia.
      * intros q [= <-]. exists pn', (<[key := child]> t). rewrite L.
        destruct (decide (p = p)); [|done]. split; [done|]. split; [done|].
        split; [by rewrite lookup_insert_eq|done].
      * intros t' k c Hpl. destruct ty; simpl in Hpl; [|done].
        injection Hpl as <-. by rewrite lookup_empty.
    + destruct (wf_nodes _ _ W _ _ Hx) as [Tg Dp Pn Ps Ch]. split; try done.
      * intros q Hq. destruct (Ps q Hq) as (qn & tq & Hqn & Htq & Hkq & Hdq).
        rewrite L. destruct (decide (q = p)) as [->|].
        -- assert (qn = pn) as -> by congruence. assert (tq = t) as -> by congruence.
           eexists _, _. split; [done|]. split; [done|]. split; [|done].
           rewrite lookup_insert_ne; [done|]. congruence.
        -- destruct (decide (q = child)) as [->|]; [congruence|]. eauto 10.
      * intros t' k c Ht' Hk. destruct (Ch _ _ _ Ht' Hk) as (cn' & Hcn' & Hnm & Hpc).
        destruct (Old _ _ Hcn') as (cn'' & Hcn'' & En & Ep & _).
        exists cn''. split; [done|]. split; congruence.
Qed.

Lemma fs_create_names_ok root h p pn t key ty :
  names_ok root h → h !! p = Some pn →
  component (if decide (p = root) then delim_first else delim_next) key →
  names_ok root (<[p := set_payload pn (dirhash (<[key := malloc_or_die h]> t))]>
                   (<[malloc_or_die h := new_node p pn key ty]> h)).
Proof.
  intros Hnames Hp Hc x xn q Hx Hq.
  apply lookup_insert_Some in Hx as [[<- <-]|[Hne Hx]].
  { by apply (Hnames _ _ _ Hp). }
  apply lookup_insert_Some in Hx as [[<- <-]|[Hne' Hx]].
  { simpl in *. by injection Hq as <-. }
  by apply (Hnames _ _ _ Hx).
Qed.

Lemma fs_set_file_content_wf root h a n c :
  wf root h → h !! a = Some n → type n = File →
  wf root (<[a := set_payload n (content c)]> h).
Proof.
  intros W Ha Hty.
  destruct (wf_nodes _ _ W _ _ Ha) as [Tga Dpa Pna Psa Cha].
  destruct (tag_ok_File _ Tga Hty) as [s Hs].
  assert (Old : ∀ x xn, h !! x = Some xn →
    ∃ xn', (<[a := set_payload n (content c)]> h) !! x = Some xn' ∧
           name xn' = name xn ∧ parent xn' = parent xn ∧ depth xn' = depth xn ∧
           type xn' = type xn).
  { intros x xn Hx. destruct (decide (x = a)) as [->|].
    - rewrite lookup_insert_eq. assert (xn = n) as -> by congruence.
      eexists. split; [done|]. by split_and!.
    - rewrite lookup_insert_ne by done. eauto 10. }
  split.
  - destruct (wf_root _ _ W) as (r & Hr & Hn & Hd).
    destruct (Old _ _ Hr) as (r' & Hr' & _ & Epar & _ & Ety). exists r'.
    split; [done|]. split; congruence.
  - intros x xn Hx.
    assert (∃ xn0, h !! x = Some xn0 ∧ name xn = name xn0 ∧ parent xn = parent xn0
                   ∧ depth xn = depth xn0 ∧ tag_ok xn
                   ∧ (∀ t, payload xn = dirhash t → payload xn0 = dirhash t))
      as (xn0 & Hx0 & En & Ep & Ed & Tg & Epl).
    { apply lookup_insert_Some in Hx as [[<- <-]|[Hne Hx]].
      - exists n. split_and!; try done. unfold tag_ok. simpl. by rewrite Hty.
      - exists xn. split_and!; try done. by destruct (wf_nodes _ _ W _ _ Hx). }
    destruct (wf_nodes _ _ W _ _ Hx0) as [_ Dp Pn Ps Ch]. split; try done.
    + lia.
    + rewrite Ep. done.
    + intros q Hq. rewrite Ep in Hq.
      destruct (Ps q Hq) as (qn & tq & Hqn & Htq & Hkq & Hdq).
      assert (q ≠ a) by (intros ->; congruence).
      exists qn, tq. rewrite lookup_insert_ne by done. rewrite En, Ed. done.
    + intros t k c' Ht Hk. destruct (Ch _ _ _ (Epl _ Ht) Hk) as (cn & Hcn & Hnm & Hpc).
      destruct (Old _ _ Hcn) as (cn' & Hcn' & En' & Ep' & _).
      exists cn'. split; [done|]. split; congruence.
Qed.

Lemma names_ok_sub root h h' :
  names_ok root h →
  (∀ x xn, h' !! x = Some xn → ∃ xn', h !! x = Some xn' ∧ same_links xn' xn) →
  names_ok root h'.
Proof.
  intros Hnames Hsub x xn q Hx Hq.
  destruct (Hsub _ _ Hx) as (xn' & Hx' & En & _ & Ep & _).
  rewrite En. apply (Hnames _ _ _ Hx'). congruence.
Qed.

Lemma detach_sub h a n p pn t x xn :
  p ≠ a → h !! p = Some pn → detach h a n p pn t !! x = Some xn →
  ∃ xn', h !! x = Some xn' ∧ same_links xn' xn.
Proof.
  intros Hpa Hp. rewrite detach_lookup by done.
  destruct (decide (x = a)); [done|]. destruct (decide (x = p)) as [->|].
  - intros [= <-]. by exists pn.
  - intros Hx. by exists xn.
Qed.

(** ** Tokens are components *)

Lemma skip_delims_head delim s c s' :
  skip_delims delim s = String c s' → is_delim delim c = false.
Proof.
  induction s as [|c0 s IH]; simpl; [done|].
  destruct (is_delim delim c0) eqn:E; [done|]. by intros [= <- <-].
Qed.

Lemma split_token_clean_out delim s :
  clean delim (split_token delim s).1 = true.
Proof.
  induction s as [|c s IH]; simpl; [done|].
  destruct (is_delim delim c) eqn:E; [done|].
  destruct (split_token delim s) as [tok rest]. simpl in *. by rewrite E, IH.
Qed.

Lemma strtok_component_out str delim saved tok rest :
  strtok str delim saved = (Some tok, rest) → component delim tok.
Proof.
  rewrite strtok_eq. destruct (skip_delims _ _) as [|c s] eqn:E; [done|].
  intros [= <- <-]. split; [|apply (split_token_clean_out delim (String c s))].
  apply skip_delims_head in E. simpl. rewrite E.
  by destruct (split_token delim s).
Qed.

Lemma tokens_from_components delim fuel saved :
  Forall (component delim) (tokens_from fuel delim saved).
Proof.
  revert saved. induction fuel as [|fuel IH]; intros saved; simpl; [constructor|].
  destruct (strtok None delim saved) as [[tok|] rest] eqn:E; [|constructor].
  constructor; [by eapply strtok_component_out|apply IH].
Qed.

Lemma path_tokens_components s tok toks :
  path_tokens s = tok :: toks →
  component delim_first tok ∧ Forall (component delim_next) toks.
Proof.
  unfold path_tokens.
  destruct (strtok (Some s) delim_first "") as [[tok'|] rest] eqn:E; [|done].
  intros [= <- <-]. split; [by eapply strtok_component_out|].
  apply tokens_from_components.
Qed.

(** ** What [enter_path] returns from the root *)

Lemma enter_path_safe root h path saved new_name :
  wf root h → ∃ r, enter_path h root path saved new_name = Ok r.
Proof.
  intros W. rewrite enter_path_walk.
  destruct (path_tokens _); [by eexists|].
  eapply walk_safe; [done|]. destruct (wf_root _ _ W) as (r & Hr & _). eauto.
Qed.

Lemma enter_path_found root h path saved n nm :
  wf root h → enter_path h root path saved false = Ok (Some n, nm) →
  n ≠ root ∧ ∃ nn p, h !! n = Some nn ∧ parent nn = Some p.
Proof.
  intros W. rewrite enter_path_walk.
  destruct (path_tokens _) as [|tok toks] eqn:E; [done|].
  intros [Hres _]%walk_found.
  assert (Hr : n ≠ root) by (by eapply resolves_child_not_root).
  split; [done|].
  destruct (resolves_allocated _ _ _ _ _ W Hres) as [nn Hn].
  { destruct (wf_root _ _ W) as (r & Hroot & _). eauto. }
  destruct (wf_parent _ _ _ _ W Hn Hr) as (p & _ & _ & Hp & _). eauto.
Qed.

Lemma enter_path_captured root h path saved ob nm :
  wf root h → enter_path h root path saved true = Ok (ob, Some nm) →
  ∃ d dn t,
    ob = Some d ∧ h !! d = Some dn ∧ payload dn = dirhash t ∧ t !! nm = None ∧
    component (if decide (d = root) then delim_first else delim_next) nm.
Proof.
  intros W. rewrite enter_path_walk.
  destruct (path_tokens _) as [|tok toks] eqn:E; [done|].
  intros (d & pre & dn & t & -> & Etoks & Hres & Hd & _ & Ht & Hk)%walk_captured.
  exists d, dn, t. split_and!; try done.
  apply path_tokens_components in E as [Hfirst Hrest].
  destruct pre as [|tok' pre].
  - injection Etoks as <- _. assert (d = root) by (by inversion Hres).
    by destruct (decide (d = root)).
  - injection Etoks as -> ->.
    assert (d ≠ root) by (by eapply resolves_child_not_root).
    destruct (decide (d = root)); [done|].
    apply Forall_app in Hrest as [_ Hlast]. by inversion Hlast.
Qed.

(** ** The commands keep the invariants *)

Lemma fs_delete_cases root h a n :
  wf root h → h !! a = Some n → a ≠ root →
  ∃ r h', fs_delete h a = Ok (r, h') ∧ wf root h' ∧
    ∀ x xn, h' !! x = Some xn → ∃ xn', h !! x = Some xn' ∧ same_links xn' xn.
Proof.
  intros W Ha Hr.
  destruct (wf_parent _ _ _ _ W Ha Hr) as (p & pn & t & Ep & Hpn & Ht & Hk & Hd & Hpa).
  assert (Tg : tag_ok n) by (by destruct (wf_nodes _ _ W _ _ Ha)).
  unfold fs_delete. rewrite (load_Some _ _ _ Ha). simpl.
  destruct (payload n) as [s|ta] eqn:Hpl.
  - rewrite (tag_ok_content _ _ Tg Hpl).
    rewrite (fs_free_file_detach _ _ _ _ _ _ _ Ha Hpl Ep Hpn Ht). simpl.
    eexists _, _. split; [done|]. split.
    + apply detach_wf; try done. congruence.
    + intros x xn. by apply detach_sub.
  - rewrite (tag_ok_dirhash _ _ Tg Hpl).
    destruct (decide (size ta = 0%nat)) as [Hs|Hs].
    + apply map_size_empty_inv in Hs as ->.
      rewrite (fs_free_dir_detach _ _ _ _ _ _ Ha Hpl Ep Hpn Ht).
      eexists _, _. split; [done|]. split.
      * apply detach_wf; try done. congruence.
      * intros x xn. by apply detach_sub.
    + rewrite (fs_free_dir_nonempty _ _ _ _ Ha Hpl Hs).
      eexists _, _. split; [done|]. split; [done|]. intros x xn Hx. by exists xn.
Qed.

Lemma do_create_inv root h saved ty :
  wf root h → names_ok root h →
  ∃ h' out, do_create h root saved ty = Ok (h', out) ∧ wf root h' ∧ names_ok root h'.
Proof.
  intros W Hnames. unfold do_create.
  destruct (enter_path_safe root h None saved true W) as [[ob onm] E].
  rewrite E. simpl. destruct onm as [nm|]; [|by eexists _, _].
  destruct (enter_path_captured _ _ _ _ _ _ W E) as (d & dn & t & -> & Hd & Ht & Hk & Hc).
  simpl. destruct (decide (create_refused dn t nm)) as [Hr|Hr].
  - rewrite (fs_create_refused _ _ _ _ _ _ Hd Ht Hr). simpl. by eexists _, _.
  - rewrite (fs_create_accepted _ _ _ _ _ _ Hd Ht Hr). simpl.
    eexists _, _. split; [done|]. split.
    + by apply fs_create_wf.
    + by apply fs_create_names_ok.
Qed.

Lemma do_read_inv root h saved :
  wf root h → ∃ out, do_read h root saved = Ok (h, out).
Proof.
  intros W. unfold do_read.
  destruct (enter_path_safe root h None saved false W) as [[[n|] onm] E];
    rewrite E; simpl; [|by eexists].
  destruct (enter_path_found _ _ _ _ _ _ W E) as (_ & nn & p & Hn & _).
  unfold fs_get_file_content. rewrite (load_Some _ _ _ Hn). simpl.
  destruct (decide (type nn ≠ File)) as [|Hty]; simpl; [by eexists|].
  destruct (tag_ok_File nn) as [s Hs];
    [by destruct (wf_nodes _ _ W _ _ Hn)|by apply dec_stable|].
  rewrite (proj2 (payload_content_Ok _ _) Hs). simpl. by eexists.
Qed.

Lemma do_write_inv root h saved :
  wf root h → names_ok root h →
  ∃ h' out, do_write h root saved = Ok (h', out) ∧ wf root h' ∧ names_ok root h'.
Proof.
  intros W Hnames. unfold do_write.
  destruct (strtok None delim_word saved) as [path saved1].
  destruct (strtok None delim_quote saved1) as [new_content saved2].
  destruct (enter_path_safe root h path saved2 false W) as [[[n|] onm] E];
    rewrite E; simpl; [|by eexists _, _].
  destruct new_content as [c|]; [|by eexists _, _].
  destruct (enter_path_found _ _ _ _ _ _ W E) as (_ & nn & p & Hn & _).
  destruct (decide (type nn = File)) as [Hty|Hty].
  - destruct (tag_ok_File nn) as [s Hs];
      [by destruct (wf_nodes _ _ W _ _ Hn)|done|].
    rewrite (fs_set_file_content_File _ _ _ _ _ Hn Hty Hs). simpl.
    eexists _, _. split; [done|]. split; [by apply fs_set_file_content_wf|].
    intros x xn q Hx Hq. apply lookup_insert_Some in Hx as [[<- <-]|[_ Hx]].
    + by apply (Hnames _ _ _ Hn).
    + by apply (Hnames _ _ _ Hx).
  - unfold fs_set_file_content, fs_get_type. rewrite (load_Some _ _ _ Hn). simpl.
    destruct (decide (type nn ≠ File)); [|done]. simpl. by eexists _, _.
Qed.

Lemma settles_bind {A B : Type} (f : nat → result A) (k : nat → A → result B) a r :
  settles f (Ok a) → settles (λ fuel, k fuel a) r →
  settles (λ fuel, f fuel ≫= k fuel) r.
Proof.
  intros [f1 H1] [f2 H2]. exists (f1 `max` f2)%nat. intros fuel Hle.
  rewrite H1 by lia. simpl. apply H2. lia.
Qed.

Lemma do_delete_inv root h saved recursive :
  wf root h → names_ok root h →
  ∃ h' out, settles (λ fuel, do_delete fuel h root saved recursive) (Ok (h', out)) ∧
            wf root h' ∧ names_ok root h'.
Proof.
  intros W Hnames. unfold do_delete.
  destruct (enter_path_safe root h None saved false W) as [[[n|] onm] E];
    rewrite E; simpl; [|eexists _, _; split; [by exists 0%nat|done]].
  destruct (enter_path_found _ _ _ _ _ _ W E) as (Hr & nn & p & Hn & _).
  destruct recursive.
  - destruct (depth_bounded_exists h) as [D HD].
    destruct (fs_delete_r_pruned root D (S (Z.to_nat (D - depth nn))) h n nn)
      as (fuel0 & h' & E' & P & W'); [done..|lia|].
    exists h', [RES_OK]. split; [|split; [done|]].
    + exists fuel0. intros fuel Hle.
      by rewrite (fs_delete_r_mono fuel0 fuel _ _ _ E').
    + eapply names_ok_sub; [done|]. intros x xn. by eapply pruned_sub.
  - destruct (fs_delete_cases _ _ _ _ W Hn Hr) as (r & h' & E' & W' & Sub).
    rewrite E'. simpl. eexists _, _. split; [by exists 0%nat|].
    split; [done|]. by eapply names_ok_sub.
Qed.

Lemma get_paths_settles root h res :
  wf root h → (∀ a, a ∈ res → a ≠ root ∧ is_Some (h !! a)) →
  ∃ paths, settles (λ fuel, get_paths fuel h res) (Ok paths).
Proof.
  intros W. induction res as [|a res IH]; intros Hres.
  { exists []. by exists 0%nat. }
  destruct (Hres a) as [Hr [an Ha]]; [left|].
  destruct (fs_get_path_resolves _ _ _ _ W Ha Hr) as (toks & fuel0 & _ & _ & Hp).
  destruct IH as [paths Hps]; [intros x Hx; apply Hres; by right|].
  exists (join toks "" :: paths). simpl.
  eapply settles_bind; [by exists fuel0|]. simpl.
  eapply settles_bind; [exact Hps|]. by exists 0%nat.
Qed.

(** [find] without a name hands a [NULL] pointer to [strcmp] as soon as
    the root has an entry. *)
Lemma fs_find_r_NULL root h fuel :
  wf root h → fuel ≠ 0%nat →
  fs_find_r fuel h root None [] = Ok [] ∨ fs_find_r fuel h root None [] = Fault.
Proof.
  intros W Hf. destruct fuel as [|fuel]; [done|]. simpl.
  destruct (wf_root _ _ W) as (r & Hr & _ & Hty).
  destruct (wf_nodes _ _ W _ _ Hr) as [Tg _ _ _ Ch].
  destruct (tag_ok_Dir _ Tg Hty) as [t Ht].
  rewrite (load_Some _ _ _ Hr). simpl.
  rewrite (proj2 (payload_dirhash_Ok _ _) Ht). simpl.
  destruct (hashtable_children t) as [|c cs] eqn:E; [by left|]. right. simpl.
  assert (Hc : c ∈ hashtable_children t) by (rewrite E; left).
  apply elem_of_hashtable_children in Hc as [k Hk].
  destruct (Ch _ _ _ Ht Hk) as (cn & Hcn & _). by rewrite (load_Some _ _ _ Hcn).
Qed.

Lemma do_find_inv root h saved :
  wf root h →
  ∃ r, settles (λ fuel, do_find fuel h root saved) r ∧
       ((∃ out, r = Ok (h, out)) ∨
        (r = Fault ∧ (strtok None delim_word saved).1 = None)).
Proof.
  intros W. unfold do_find.
  destruct (strtok None delim_word saved) as [[nm|] saved'] eqn:E.
  - destruct (wf_root _ _ W) as (r & Hr & _ & Hty).
    destruct (fs_find_r_total root h root r nm W Hr Hty) as (res & fuel0 & Hfind & _ & M).
    destruct (get_paths_settles root h res W) as [paths Hpaths].
    { intros a (Hne & _ & an & Ha & _)%M. eauto. }
    destruct (decide (0 < List.length res)%nat) as [Hlen|Hlen].
    + eexists. split; [|left; by eexists].
      eapply settles_bind; [by exists fuel0|]. simpl.
      destruct (decide (0 < List.length res)%nat); [|done].
      eapply settles_bind; [exact Hpaths|]. by exists 0%nat.
    + eexists. split; [|left; by eexists].
      eapply settles_bind; [by exists fuel0|]. simpl.
      destruct (decide (0 < List.length res)%nat); [done|]. by exists 0%nat.
  - destruct (fs_find_r_NULL root h 1 W ltac:(done)) as [E1|E1].
    + exists (Ok (h, [RES_FAIL])). split; [|left; by eexists].
      exists 1%nat. intros fuel Hle.
      by rewrite (fs_find_r_mono 1 fuel _ _ _ _ _ E1).
    + exists Fault. split; [|by right].
      exists 1%nat. intros fuel Hle.
      by rewrite (fs_find_r_mono 1 fuel _ _ _ _ _ E1).
Qed.

Lemma main_step_inv root h line :
  wf root h → names_ok root h →
  ∃ r, settles (λ fuel, main_step fuel h root line) r ∧
    ((∃ c h' out, r = Ok (c, h', out) ∧ wf root h' ∧ names_ok root h') ∨
     (r = Fault ∧ bare_find line)).
Proof.
  intros W Hnames. unfold main_step.
  destruct (strtok (Some line) delim_word "") as [[tok|] saved] eqn:E; cycle 1.
  { eexists. split; [by exists 0%nat|]. left. by eexists _, _, _. }
  destruct (decide (tok = "create")).
  { destruct (do_create_inv root h saved File W Hnames) as (h' & out & -> & W' & N').
    eexists. split; [by exists 0%nat|]. left. by eexists _, _, _. }
  destruct (decide (tok = "create_dir")).
  { destruct (do_create_inv root h saved Dir W Hnames) as (h' & out & -> & W' & N').
    eexists. split; [by exists 0%nat|]. left. by eexists _, _, _. }
  destruct (decide (tok = "read")).
  { destruct (do_read_inv root h saved W) as (out & ->).
    eexists. split; [by exists 0%nat|]. left. by eexists _, _, _. }
  destruct (decide (tok = "write")).
  { destruct (do_write_inv root h saved W Hnames) as (h' & out & -> & W' & N').
    eexists. split; [by exists 0%nat|]. left. by eexists _, _, _. }
  destruct (decide (tok = "delete")).
  { destruct (do_delete_inv root h saved false W Hnames) as (h' & out & [f0 Hs] & W' & N').
    exists (Ok (true, h', out)). split; [|left; by eexists _, _, _].
    exists f0. intros fuel Hle. by rewrite Hs. }
  destruct (decide (tok = "delete_r")).
  { destruct (do_delete_inv root h saved true W Hnames) as (h' & out & [f0 Hs] & W' & N').
    exists (Ok (true, h', out)). split; [|left; by eexists _, _, _].
    exists f0. intros fuel Hle. by rewrite Hs. }
  destruct (decide (tok = "find")) as [->|].
  { destruct (do_find_inv root h saved W) as (r & [f0 Hs] & [[out ->]|[-> Hnone]]).
    - exists (Ok (true, h, out)). split; [|left; by eexists _, _, _].
      exists f0. intros fuel Hle. by rewrite Hs.
    - exists Fault. split; [|right; split; [done|by exists saved]].
      exists f0. intros fuel Hle. by rewrite Hs. }
  destruct (decide (tok = "exit")).
  { eexists. split; [by exists 0%nat|]. left. by eexists _, _, _. }
  eexists. split; [by exists 0%nat|]. left. by eexists _, _, _.
Qed.

Lemma main_loop_inv root lines :
  ∀ h, wf root h → names_ok root h →
  ∃ r, settles (λ fuel, main_loop fuel h root lines) r ∧ r ≠ NoFuel ∧
       ∀ h' out, r = Ok (h', out) → wf root h' ∧ names_ok root h'.
Proof.
  induction lines as [|line lines IH]; intros h W Hnames.
  { exists (Ok (h, [])). split; [by exists 0%nat|]. split; [done|]. by intros ? ? [= <- <-]. }
  simpl. destruct (decide (line = "")).
  { exists (Ok (h, [])). split; [by exists 0%nat|]. split; [done|]. by intros ? ? [= <- <-]. }
  destruct (main_step_inv root h line W Hnames)
    as (r & [f1 Hs] & [(c & h1 & out1 & -> & W1 & N1)|[-> _]]); cycle 1.
  { exists Fault. split; [|done]. exists f1. intros fuel Hle. by rewrite Hs. }
  destruct c; cycle 1.
  { exists (Ok (h1, out1)). split; [|split; [done|by intros ? ? [= <- <-]]].
    exists f1. intros fuel Hle. by rewrite Hs. }
  destruct (IH h1 W1 N1) as (r2 & [f2 Hs2] & Hne & Hinv).
  exists (r2 ≫= λ '(h2, out2), Ok (h2, out1 ++ out2)). split; [|split].
  - exists (f1 `max` f2)%nat. intros fuel Hle.
    rewrite Hs by lia. simpl. by rewrite Hs2 by lia.
  - by destruct r2 as [[? ?]| |].
  - intros h' out. destruct r2 as [[h2 out2]| |]; simpl; try done.
    intros [= <- <-]. by apply (Hinv h2 out2).
Qed.

Lemma main_inv lines :
  ∃ r, settles (λ fuel, main fuel lines) r ∧ r ≠ NoFuel ∧
       ∀ h' out, r = Ok (h', out) →
         wf (fs_new_root ∅).1 h' ∧ names_ok (fs_new_root ∅).1 h'.
Proof.
  apply (main_loop_inv (fs_new_root ∅).1 lines (fs_new_root ∅).2).
  - apply fs_new_root_wf.
  - apply fs_new_root_names_ok.
Qed.

Lemma fs_delete_r_root root h :
  wf root h → settles (λ fuel, fs_delete_r fuel h root) Fault.
Proof.
  intros W. destruct (wf_root _ _ W) as (r & Hr & Hnone & Hty).
  destruct (wf_nodes _ _ W _ _ Hr) as [Tg _ _ _ _].
  destruct (tag_ok_Dir _ Tg Hty) as [t Ht].
  destruct (depth_bounded_exists h) as [D HD].
  destruct (fs_delete_r_loop_emptied root D (S (Z.to_nat (D - depth r)))
              (fs_delete_r_pruned root D _) (size t) h root r t)
    as (fuel0 & h1 & E & (r' & Hr' & Hr1 & _) & _); [done..|lia|].
  assert (r' = r) as -> by congruence.
  exists (S fuel0). intros fuel Hle. destruct fuel as [|fuel]; [lia|]. simpl.
  rewrite (load_Some _ _ _ Hr). simpl. rewrite Hty.
  rewrite (proj2 (payload_dirhash_Ok _ _) Ht). simpl.
  assert ((if decide (hashtable_get_size t > 0) then fs_delete_r_loop fuel h root
           else Ok h) ≫= (λ h1, '(_, h2) ← fs_free_dir h1 root; Ok h2) = Fault)
    as ->; [|done].
  assert (Hfree : ∀ h2 r2, h2 !! root = Some r2 → payload r2 = dirhash ∅ →
                           parent r2 = None → fs_free_dir h2 root = Fault).
  { intros h2 r2 H2 Hp2 Hn2. unfold fs_free_dir. rewrite (load_Some _ _ _ H2). simpl.
    rewrite (proj2 (payload_dirhash_Ok _ _) Hp2). simpl. by rewrite Hn2. }
  destruct (decide (hashtable_get_size t > 0)) as [Hs|Hs].
  - rewrite (fs_delete_r_loop_mono fuel0 fuel _ _ _ E) by (done || lia). simpl.
    by rewrite (Hfree _ _ Hr1).
  - simpl. assert (t = ∅) as ->.
    { apply map_size_empty_inv. unfold hashtable_get_size in Hs. lia. }
    by rewrite (Hfree _ _ Hr).
Qed.

(** C10.  The deletion functions dereference the parent of their
    argument without a test: on a node without a parent [fs_free_file]
    faults, and so does [fs_free_dir] once the directory is empty, so that
    [fs_delete_r] of the root faults.  The command layer never gets there:
    a path that [enter_path] resolves from the root leads to a node other
    than the root, which has a parent; a path without components resolves
    to nothing.  Every command leaves a well-formed tree with the same
    root, the only fault of the command layer being a [find] without a
    name, and so does every run of the command loop that returns. *)
Theorem deletion_needs_parent root h :
  wf root h → names_ok root h →
  (∀ a n, h !! a = Some n → parent n = None →
     fs_free_file h a = Fault ∧ (payload n = dirhash ∅ → fs_free_dir h a = Fault)) ∧
  settles (λ fuel, fs_delete_r fuel h root) Fault ∧
  (∀ path saved n nm,
     enter_path h root path saved false = Ok (Some n, nm) →
     n ≠ root ∧ ∃ nn p, h !! n = Some nn ∧ parent nn = Some p) ∧
  (∀ path saved new_name,
     path_tokens (default saved path) = [] →
     enter_path h root path saved new_name = Ok (None, None)) ∧
  (∀ line, ∃ r,
     settles (λ fuel, main_step fuel h root line) r ∧
     ((∃ c h' out, r = Ok (c, h', out) ∧ wf root h' ∧ names_ok root h') ∨
      (r = Fault ∧ bare_find line))) ∧
  (∀ lines, ∃ r,
     settles (λ fuel, main_loop fuel h root lines) r ∧ r ≠ NoFuel ∧
     ∀ h' out, r = Ok (h', out) → wf root h' ∧ names_ok root h') ∧
  (∀ lines, ∃ r,
     settles (λ fuel, main fuel lines) r ∧ r ≠ NoFuel ∧
     ∀ h' out, r = Ok (h', out) →
       wf (fs_new_root ∅).1 h' ∧ names_ok (fs_new_root ∅).1 h').
Proof.
  intros W Hnames. split_and!.
  - intros a n Ha Hn. split.
    + unfold fs_free_file. rewrite (load_Some _ _ _ Ha). simpl.
      unfold payload_content. destruct (payload n); simpl; try done. by rewrite Hn.
    + intros Hp. unfold fs_free_dir. rewrite (load_Some _ _ _ Ha). simpl.
      rewrite (proj2 (payload_dirhash_Ok _ _) Hp). simpl. by rewrite Hn.
  - by apply fs_delete_r_root.
  - intros path saved n nm. by apply enter_path_found.
  - intros path saved new_name E. rewrite enter_path_walk. by rewrite E.
  - intros line. by apply main_step_inv.
  - intros lines. by apply main_loop_inv.
  - apply main_inv.
Qed.

(** ** The checkers are sound *)

Lemma node_wfb_sound root h a n : node_wfb root h a n = true → node_wf root h a n.
Proof.
  unfold node_wfb. rewrite !andb_true_iff. intros [[[Tg Dp] Pa] Ch].
  apply bool_decide_eq_true in Dp. split.
  - unfold tag_ok. by destruct (type n), (payload n).
  - done.
  - intros Hn. rewrite Hn in Pa. by apply bool_decide_eq_true in Pa.
  - intros p Hp. rewrite Hp in Pa.
    destruct (h !! p) as [pn|]; [|done]. destruct (payload pn) as [|t] eqn:Ht; [done|].
    apply andb_true_iff in Pa as [Hk Hd]. apply bool_decide_eq_true in Hk, Hd.
    by exists pn, t.
  - intros t k c Ht Hk. rewrite Ht in Ch.
    rewrite forallb_forall in Ch.
    assert (Hin : In (k, c) (map_to_list t)).
    { apply list_elem_of_In. by apply elem_of_map_to_list. }
    specialize (Ch (k, c) Hin). simpl in Ch.
    destruct (h !! c) as [cn|]; [|done].
    exists cn. split; [done|].
    apply andb_true_iff in Ch as [Hn Hp].
    by apply bool_decide_eq_true in Hn, Hp.
Qed.

Lemma wfb_sound root h : wfb root h = true → wf root h.
Proof.
  unfold wfb. rewrite andb_true_iff. intros [Hroot Hall]. split.
  - destruct (h !! root) as [r|]; [|done]. exists r. split; [done|].
    apply andb_true_iff in Hroot as [Hp Hd].
    by apply bool_decide_eq_true in Hp, Hd.
  - intros a n Ha. apply node_wfb_sound.
    rewrite forallb_forall in Hall. apply (Hall (a, n)).
    apply list_elem_of_In. by apply elem_of_map_to_list.
Qed.

Lemma names_okb_sound root h : names_okb root h = true → names_ok root h.
Proof.
  unfold names_okb. rewrite forallb_forall. intros Hall a n p Ha Hp.
  specialize (Hall (a, n)). simpl in Hall. rewrite Hp in Hall.
  unfold componentb in Hall. rewrite andb_true_iff, negb_true_iff in Hall.
  destruct Hall as [Hne Hc].
  { apply list_elem_of_In. by apply elem_of_map_to_list. }
  split; [|done]. by apply bool_decide_eq_false in Hne.
Qed.

(** * Further properties of the engine and of the command layer *)

(** ** Creation and lookup *)

Lemma fs_find_in_dir_Some h p pn t key :
  h !! p = Some pn → payload pn = dirhash t → fs_find_in_dir h p key = Ok (t !! key).
Proof.
  intros Hp Ht. unfold fs_find_in_dir. rewrite (load_Some _ _ _ Hp). simpl.
  by rewrite (proj2 (payload_dirhash_Ok _ _) Ht).
Qed.

(** What a successful [fs_create] has built. *)
Lemma fs_create_done h p key ty h1 :
  fs_create h p key ty = Ok (0, h1) →
  ∃ pn t child,
    h !! p = Some pn ∧ payload pn = dirhash t ∧ ¬ create_refused pn t key ∧
    child = malloc_or_die h ∧ h !! child = None ∧ child ≠ p ∧
    h1 = <[p := set_payload pn (dirhash (<[key := child]> t))]>
           (<[child := new_node p pn key ty]> h).
Proof.
  intros E. apply fs_create_inv in E as (pn & t & Hp & Ht & [(? & _)|(_ & Hr & ->)]);
    [done|].
  exists pn, t, (malloc_or_die h). split_and!; try done.
  - apply malloc_or_die_fresh.
  - intros E. pose proof (malloc_or_die_fresh h) as F. rewrite E in F. congruence.
Qed.

(** A leaf is deleted by [fs_delete_r] as by [fs_delete]. *)
Lemma fs_delete_r_leaf fuel h a n :
  h !! a = Some n → (type n = File ∨ payload n = dirhash ∅) → fuel ≠ 0%nat →
  fs_delete_r fuel h a = (fs_delete h a ≫= λ r, Ok r.2).
Proof.
  intros Ha Hleaf Hf. destruct fuel as [|fuel]; [done|]. simpl.
  unfold fs_delete. rewrite (load_Some _ _ _ Ha). simpl.
  destruct (type n) eqn:Hty.
  - destruct Hleaf as [|Hp]; [done|].
    rewrite (proj2 (payload_dirhash_Ok _ _) Hp). simpl.
    destruct (decide (hashtable_get_size ∅ > 0)) as [Hs|_]; [done|]. simpl.
    by destruct (fs_free_dir h a) as [[? ?]| |].
  - by destruct (fs_free_file h a).
Qed.

Lemma fs_create_then_delete h p key ty h1 :
  fs_create h p key ty = Ok (0, h1) →
  fs_find_in_dir h1 p key = Ok (Some (malloc_or_die h)) ∧
  fs_delete h1 (malloc_or_die h) = Ok (0, h).
Proof.
  intros (pn & t & child & Hp & Ht & Hr & -> & Hfresh & Hcp & ->)%fs_create_done.
  set (child := malloc_or_die h) in *.
  set (pn' := set_payload pn (dirhash (<[key := child]> t))).
  set (cn := new_node p pn key ty).
  assert (Hkey : t !! key = None).
  { destruct (t !! key) eqn:E; [|done]. destruct Hr. left. by rewrite E. }
  assert (Hp1 : (<[p := pn']> (<[child := cn]> h)) !! p = Some pn')
    by apply lookup_insert_eq.
  assert (Hc1 : (<[p := pn']> (<[child := cn]> h)) !! child = Some cn).
  { rewrite lookup_insert_ne by done. apply lookup_insert_eq. }
  split.
  - rewrite (fs_find_in_dir_Some _ _ _ _ key Hp1 eq_refl). by rewrite lookup_insert_eq.
  - assert (Hback : detach (<[p := pn']> (<[child := cn]> h)) child cn p pn'
                      (<[key := child]> t) = h).
    { apply map_eq. intros x. rewrite detach_lookup by done.
      destruct (decide (x = child)) as [->|Hxc]; [done|].
      destruct (decide (x = p)) as [->|Hxp].
      - simpl. rewrite delete_insert_eq, (delete_id _ _ Hkey). rewrite Hp. f_equal.
        change (set_payload pn (dirhash t) = pn). by apply set_payload_same.
      - rewrite lookup_insert_ne by done. by rewrite lookup_insert_ne. }
    unfold fs_delete. rewrite (load_Some _ _ _ Hc1). simpl. destruct ty.
    + rewrite (fs_free_dir_detach _ _ _ _ _ _ Hc1 eq_refl eq_refl Hp1 eq_refl).
      by rewrite Hback.
    + rewrite (fs_free_file_detach _ _ _ _ _ _ _ Hc1 eq_refl eq_refl Hp1 eq_refl).
      simpl. by rewrite Hback.
Qed.

(** X1.  Deleting the node that [fs_create] has just created, with
    [fs_delete] or with [fs_delete_r], succeeds and gives back the tree
    as it was before the creation. *)
Theorem fs_create_delete_roundtrip h p key ty h1 :
  fs_create h p key ty = Ok (0, h1) →
  ∃ child,
    fs_find_in_dir h1 p key = Ok (Some child) ∧
    fs_delete h1 child = Ok (0, h) ∧
    ∀ fuel, fuel ≠ 0%nat → fs_delete_r fuel h1 child = Ok h.
Proof.
  intros E. destruct (fs_create_then_delete _ _ _ _ _ E) as [Hfind Hdel].
  exists (malloc_or_die h). split; [done|]. split; [done|].
  intros fuel Hf.
  apply fs_create_done in E as (pn & t & child & Hp & Ht & Hr & -> & Hfresh & Hcp & E).
  assert (Hc1 : h1 !! malloc_or_die h = Some (new_node p pn key ty)).
  { rewrite E. rewrite lookup_insert_ne by done. apply lookup_insert_eq. }
  rewrite (fs_delete_r_leaf fuel _ _ _ Hc1); [by rewrite Hdel| |done].
  destruct ty; [by right|by left].
Qed.

(** X2.  After a successful [fs_create] of [key] in [p], [fs_find_in_dir]
    finds the new node under [key] and it has the requested type; a
    second [fs_create] of [key] in [p] fails whatever the type; every
    other lookup, in [p] or in another node, gives what it gave before. *)
Theorem fs_create_lookup h p key ty h1 :
  fs_create h p key ty = Ok (0, h1) →
  fs_find_in_dir h p key = Ok None ∧
  ∃ child,
    h !! child = None ∧
    fs_find_in_dir h1 p key = Ok (Some child) ∧
    fs_get_type h1 child = Ok ty ∧
    (∀ ty', fs_create h1 p key ty' = Ok (-1, h1)) ∧
    (∀ k, k ≠ key → fs_find_in_dir h1 p k = fs_find_in_dir h p k) ∧
    (∀ q k, q ≠ p → q ≠ child → fs_find_in_dir h1 q k = fs_find_in_dir h q k).
Proof.
  intros (pn & t & child & Hp & Ht & Hr & -> & Hfresh & Hcp & ->)%fs_create_done.
  set (child := malloc_or_die h) in *.
  set (pn' := set_payload pn (dirhash (<[key := child]> t))).
  set (cn := new_node p pn key ty).
  assert (Hkey : t !! key = None).
  { destruct (t !! key) eqn:E; [|done]. destruct Hr. left. by rewrite E. }
  assert (Hp1 : (<[p := pn']> (<[child := cn]> h)) !! p = Some pn')
    by apply lookup_insert_eq.
  split; [by rewrite (fs_find_in_dir_Some _ _ _ _ key Hp Ht), Hkey|].
  exists child. split_and!; try done.
  - rewrite (fs_find_in_dir_Some _ _ _ _ key Hp1 eq_refl). by rewrite lookup_insert_eq.
  - unfold fs_get_type, load. rewrite lookup_insert_ne by done.
    by rewrite lookup_insert_eq.
  - intros ty'. apply (fs_create_refused _ _ _ _ _ _ Hp1 eq_refl).
    left. by rewrite lookup_insert_eq.
  - intros k Hk. rewrite (fs_find_in_dir_Some _ _ _ _ k Hp1 eq_refl),
      (fs_find_in_dir_Some _ _ _ _ k Hp Ht). by rewrite lookup_insert_ne.
  - intros q k Hqp Hqc. unfold fs_find_in_dir, load.
    rewrite lookup_insert_ne by done. by rewrite lookup_insert_ne.
Qed.

(** ** Writing leaves the structure alone *)

Lemma walk_agree h h' a toks new_name :
  (∀ x, fs_get_type h' x = fs_get_type h x) →
  (∀ x k, fs_find_in_dir h' x k = fs_find_in_dir h x k) →
  walk h' a toks new_name = walk h a toks new_name.
Proof.
  intros Hty Hfind. revert a. induction toks as [|tok toks IH]; intros a; [done|].
  simpl. rewrite Hty, Hfind.
  destruct (fs_get_type h a) as [ty| |]; simpl; try done.
  destruct (decide (ty = Dir)); [|done].
  destruct (fs_find_in_dir h a tok) as [[c|]| |]; simpl; try done.
Qed.

Lemma enter_path_agree h h' node path saved new_name :
  (∀ x, fs_get_type h' x = fs_get_type h x) →
  (∀ x k, fs_find_in_dir h' x k = fs_find_in_dir h x k) →
  enter_path h' node path saved new_name = enter_path h node path saved new_name.
Proof.
  intros Hty Hfind. rewrite !enter_path_walk.
  destruct (path_tokens _); [done|]. by apply walk_agree.
Qed.

Lemma fs_set_file_content_done h a c h1 :
  fs_set_file_content h a c = Ok (0, h1) →
  ∃ n s, h !! a = Some n ∧ type n = File ∧ payload n = content s ∧
         h1 = <[a := set_payload n (content c)]> h.
Proof.
  unfold fs_set_file_content, fs_get_type. intros E.
  apply bind_Ok in E as (ty & E1 & E).
  apply bind_Ok in E1 as (n & Ha%load_Ok & [= <-]).
  destruct (decide (type n ≠ File)) as [|Hty]; [done|].
  apply bind_Ok in E as (n' & Ha'%load_Ok & E).
  assert (n' = n) as -> by congruence.
  apply bind_Ok in E as (s & Hs%payload_content_Ok & [= <-]).
  exists n, s. split_and!; try done. by apply dec_stable.
Qed.

Lemma fs_set_file_content_structure h a c h1 :
  fs_set_file_content h a c = Ok (0, h1) →
  (∀ x, fs_get_type h1 x = fs_get_type h x) ∧
  (∀ x k, fs_find_in_dir h1 x k = fs_find_in_dir h x k).
Proof.
  intros (n & s & Ha & Hty & Hs & ->)%fs_set_file_content_done. split.
  - intros x. unfold fs_get_type, load. destruct (decide (x = a)) as [->|].
    + by rewrite lookup_insert_eq, Ha.
    + by rewrite lookup_insert_ne.
  - intros x k. unfold fs_find_in_dir, load. destruct (decide (x = a)) as [->|].
    + rewrite lookup_insert_eq, Ha. simpl. unfold payload_dirhash. simpl. by rewrite Hs.
    + by rewrite lookup_insert_ne.
Qed.

(** X3.  A successful [fs_set_file_content] changes the content of its
    node and nothing else: the content read back is the one written, a
    second write replaces it as if the first had not happened, the
    contents of the other nodes, the types and the directory lookups are
    as before, and every path resolves as before. *)
Theorem fs_set_file_content_frame h a c h1 :
  fs_set_file_content h a c = Ok (0, h1) →
  fs_get_file_content h1 a = Ok (Some c) ∧
  (∀ c', fs_set_file_content h1 a c' = fs_set_file_content h a c') ∧
  (∀ b, b ≠ a → fs_get_file_content h1 b = fs_get_file_content h b) ∧
  (∀ b, fs_get_type h1 b = fs_get_type h b) ∧
  (∀ b k, fs_find_in_dir h1 b k = fs_find_in_dir h b k) ∧
  (∀ node path saved new_name,
     enter_path h1 node path saved new_name = enter_path h node path saved new_name).
Proof.
  intros E. destruct (fs_set_file_content_structure _ _ _ _ E) as [Hty Hfind].
  pose proof E as (n & s & Ha & Htn & Hs & ->)%fs_set_file_content_done.
  split_and!; try done.
  - by apply (fs_get_file_content_File _ _ _ c (lookup_insert_eq _ _ _)).
  - intros c'.
    rewrite (fs_set_file_content_File _ _ _ c c' (lookup_insert_eq _ _ _)); [|done..].
    rewrite (fs_set_file_content_File _ _ _ s c' Ha); [|done..].
    by rewrite insert_insert_eq.
  - intros b Hb. unfold fs_get_file_content, load. by rewrite lookup_insert_ne.
  - intros node path saved new_name. by apply enter_path_agree.
Qed.

(** ** Resolution without capture *)

Lemma walk_no_capture h a toks o nm :
  walk h a toks false = Ok (o, nm) → nm = None.
Proof.
  revert a. induction toks as [|tok toks IH]; intros a E.
  { simpl in E. by injection E as <- <-. }
  apply walk_step_inv in E as (an & Ha & [[_ E]|(Hty & t & Ht & E)]); [congruence|].
  destruct (t !! tok) as [c|]; [by eapply IH|]. simpl in E. congruence.
Qed.

(** X4.  With a [NULL] [new_name], [enter_path] from an allocated node of
    a well-formed tree never faults and never stores a name; it returns
    a node exactly when the path has components and looking them up one
    after the other, each in a directory, leads to that node. *)
Theorem enter_path_resolves root h node path saved :
  wf root h → is_Some (h !! node) →
  ∃ o,
    enter_path h node path saved false = Ok (o, None) ∧
    ∀ n, o = Some n ↔
         path_tokens (default saved path) ≠ [] ∧
         resolves h node (path_tokens (default saved path)) n.
Proof.
  intros W Hn. rewrite enter_path_walk.
  destruct (path_tokens (default saved path)) as [|tok toks] eqn:Etoks.
  { exists None. split; [done|]. intros n. split; [done|]. by intros [? _]. }
  destruct (walk_safe root h node (tok :: toks) false W Hn) as [[o nm] E].
  pose proof (walk_no_capture _ _ _ _ _ E) as ->.
  exists o. split; [done|]. intros n. split.
  - intros ->. split; [done|]. by apply walk_found in E as [? _].
  - intros [_ Hres]. rewrite <- (app_nil_r (tok :: toks)) in E.
    rewrite (walk_resolves _ _ _ _ _ _ Hres) in E. simpl in E. congruence.
Qed.

(** ** After a deletion *)

Lemma pruned_gone root h node h' :
  wf root h → pruned h node h' →
  ∀ a toks rest, resolves h a toks node → a ≠ node →
    walk h' a (toks ++ rest) false = Ok (None, None).
Proof.
  intros W (n & p & pn & tp & Hn & Hp & Hpn & Htp & Hp' & Hgone & Hkeep) a toks rest Hres.
  induction Hres as [|a an t tok c toks b Ha Hty Ht Hk Hres IH]; intros Hne; [done|].
  destruct (wf_nodes _ _ W _ _ Ha) as [Tg _ _ _ Ch].
  destruct (Ch _ _ _ Ht Hk) as (cn & Hcn & Hnm & Hpc).
  destruct (wf_nodes _ _ W _ _ Hn) as [_ _ _ Ps _].
  destruct (Ps _ Hp) as (pn' & tp' & Hpn' & _ & _ & Hd).
  assert (pn' = pn) as -> by congruence.
  destruct (decide (c = b)) as [->|Hcb].
  - assert (cn = n) as -> by congruence.
    assert (a = p) as -> by congruence.
    assert (an = pn) as -> by congruence.
    assert (t = tp) as -> by congruence.
    change ((tok :: toks) ++ rest) with (tok :: (toks ++ rest)).
    rewrite (walk_missing h' p _ (delete (name n) tp) tok (toks ++ rest) false Hp');
      try done.
    rewrite <- Hnm. apply lookup_delete_eq.
  - assert (Hlen : (0 < List.length toks)%nat).
    { destruct toks; [|simpl; lia]. inversion Hres. by subst. }
    pose proof (resolves_depth _ _ _ _ _ _ _ W Hres Hcn Hn) as Hdepth.
    destruct (wf_nodes _ _ W _ _ Hcn) as [_ _ _ Psc _].
    destruct (Psc _ Hpc) as (an' & ? & Han' & _ & _ & Hdc).
    assert (an' = an) as -> by congruence.
    assert (Ha' : h' !! a = Some an).
    { rewrite Hkeep; [done| |].
      - intros U. destruct (under_depth _ _ _ _ _ _ W Hn Ha U). lia.
      - intros ->. assert (an = pn) as -> by congruence. lia. }
    specialize (IH Hn Hgone Hkeep Hcb).
    simpl. unfold fs_get_type, fs_find_in_dir. rewrite (load_Some _ _ _ Ha'). simpl.
    destruct (decide (type an = Dir)); [|done].
    rewrite (proj2 (payload_dirhash_Ok _ _) Ht). simpl.
    unfold hashtable_get. by rewrite Hk.
Qed.

Lemma fs_delete_r_Ok_pruned root h fuel a n h' :
  wf root h → h !! a = Some n → a ≠ root →
  fs_delete_r fuel h a = Ok h' → pruned h a h' ∧ wf root h'.
Proof.
  intros W Ha Hr E. destruct (depth_bounded_exists h) as [D HD].
  destruct (fs_delete_r_pruned root D (S (Z.to_nat (D - depth n))) h a n)
    as (fuel0 & h0 & E0 & P & W'); [done..|lia|].
  apply (fs_delete_r_mono _ (fuel `max` fuel0)%nat) in E; [|done|lia].
  apply (fs_delete_r_mono _ (fuel `max` fuel0)%nat) in E0; [|done|lia].
  assert (h0 = h') as -> by congruence. done.
Qed.

Lemma fs_delete_Ok_pruned root h a n h' :
  wf root h → h !! a = Some n → a ≠ root →
  fs_delete h a = Ok (0, h') → pruned h a h' ∧ wf root h'.
Proof.
  intros W Ha Hr E.
  assert (Hleaf : type n = File ∨ payload n = dirhash ∅).
  { destruct (type n) eqn:Hty; [right|by left].
    destruct (wf_nodes _ _ W _ _ Ha) as [Tg _ _ _ _].
    destruct (tag_ok_Dir _ Tg Hty) as [t Ht]. rewrite Ht. f_equal.
    apply map_size_empty_inv. destruct (decide (size t = 0%nat)) as [|Hs]; [done|].
    unfold fs_delete in E. rewrite (load_Some _ _ _ Ha) in E. simpl in E.
    rewrite Hty, (fs_free_dir_nonempty _ _ _ _ Ha Ht Hs) in E. discriminate. }
  apply (fs_delete_r_Ok_pruned root h 1 a n h' W Ha Hr).
  rewrite (fs_delete_r_leaf 1 _ _ _ Ha Hleaf) by done. by rewrite E.
Qed.

Lemma do_delete_Ok_inv root h fuel saved recursive h' :
  wf root h → do_delete fuel h root saved recursive = Ok (h', [RES_OK]) →
  ∃ n nn, n ≠ root ∧ h !! n = Some nn ∧
          resolves h root (path_tokens saved) n ∧ pruned h n h' ∧ wf root h'.
Proof.
  intros W. unfold do_delete. intros E.
  apply bind_Ok in E as ([on nm] & Epath & E).
  destruct on as [n|]; [|done].
  destruct (enter_path_found _ _ _ _ _ _ W Epath) as (Hr & nn & p & Hn & _).
  assert (Hres : resolves h root (path_tokens saved) n).
  { rewrite enter_path_walk in Epath.
    change (default saved None) with saved in Epath.
    destruct (path_tokens saved); [done|]. by apply walk_found in Epath as [? _]. }
  exists n, nn. split; [done|]. split; [done|]. split; [done|].
  destruct recursive.
  - apply bind_Ok in E as (h1 & E1 & [= <-]).
    by eapply fs_delete_r_Ok_pruned.
  - apply bind_Ok in E as ([res h1] & E1 & E). injection E as <- E.
    destruct (decide (res = 0)) as [->|]; [|done].
    by eapply fs_delete_Ok_pruned.
Qed.

(** X5.  After a [delete] or [delete_r] command that answers ok, the
    path of the command and every path that extends it no longer resolve:
    reading or deleting the same path again fails and leaves the tree as
    it is. *)
Theorem do_delete_then_gone root h fuel saved recursive h' :
  wf root h → do_delete fuel h root saved recursive = Ok (h', [RES_OK]) →
  do_read h' root saved = Ok (h', [RES_FAIL]) ∧
  (∀ fuel' recursive',
     do_delete fuel' h' root saved recursive' = Ok (h', [RES_FAIL])) ∧
  (∀ path saved' rest,
     path_tokens (default saved' path) = path_tokens saved ++ rest →
     enter_path h' root path saved' false = Ok (None, None)).
Proof.
  intros W E.
  destruct (do_delete_Ok_inv _ _ _ _ _ _ W E) as (n & nn & Hr & Hn & Hres & P & W').
  assert (Hgone : ∀ path saved' rest,
     path_tokens (default saved' path) = path_tokens saved ++ rest →
     enter_path h' root path saved' false = Ok (None, None)).
  { intros path saved' rest Etoks. rewrite enter_path_walk, Etoks.
    destruct (path_tokens saved ++ rest) as [|tok toks] eqn:E'; [done|].
    rewrite <- E'. apply (pruned_gone root h n h' W P); [done|]. by apply not_eq_sym. }
  split; [|split; [|done]].
  - unfold do_read. by rewrite (Hgone None saved []); [|rewrite app_nil_r].
  - intros fuel' recursive'. unfold do_delete.
    by rewrite (Hgone None saved []); [|rewrite app_nil_r].
Qed.

(** ** After a creation *)

Lemma resolves_mono h h' a toks b :
  (∀ x xn t k c,
     h !! x = Some xn → type xn = Dir → payload xn = dirhash t → t !! k = Some c →
     ∃ xn' t', h' !! x = Some xn' ∧ type xn' = Dir ∧ payload xn' = dirhash t' ∧
               t' !! k = Some c) →
  resolves h a toks b → resolves h' a toks b.
Proof.
  intros Hext. induction 1 as [|a an t tok c toks b Ha Hty Ht Hk _ IH]; [constructor|].
  destruct (Hext _ _ _ _ _ Ha Hty Ht Hk) as (an' & t' & Ha' & Hty' & Ht' & Hk').
  eauto using resolves.
Qed.

Lemma do_create_Ok_inv h node saved ty h' :
  do_create h node saved ty = Ok (h', [RES_OK]) →
  ∃ d dn pre nm,
    path_tokens saved = pre ++ [nm] ∧ resolves h node pre d ∧
    h !! d = Some dn ∧ type dn = Dir ∧
    fs_create h d nm ty = Ok (0, h').
Proof.
  unfold do_create. intros E.
  apply bind_Ok in E as ([ob onm] & Epath & E).
  destruct onm as [nm|]; [|done].
  rewrite enter_path_walk in Epath.
  change (default saved None) with saved in Epath.
  destruct (path_tokens saved) as [|tok toks] eqn:Etoks; [done|].
  apply walk_captured in Epath as (d & pre & dn & t & -> & Epre & Hres & Hd & Hty & _).
  simpl in E. apply bind_Ok in E as ([res h1] & E1 & E). injection E as <- E.
  destruct (decide (res = 0)) as [->|]; [|done].
  by exists d, dn, pre, nm.
Qed.

Lemma fs_create_resolves h node pre d dn nm ty h' :
  resolves h node pre d → h !! d = Some dn → type dn = Dir →
  fs_create h d nm ty = Ok (0, h') →
  resolves h' node (pre ++ [nm]) (malloc_or_die h).
Proof.
  intros Hres Hd Hty E.
  pose proof E as (pn & t & child & Hp & Ht & Hr & -> & Hfresh & Hcp & ->)%fs_create_done.
  assert (pn = dn) as -> by congruence.
  set (child := malloc_or_die h) in *.
  assert (Hkey : t !! nm = None).
  { destruct (t !! nm) eqn:E'; [|done]. destruct Hr. left. by rewrite E'. }
  eapply resolves_app.
  - eapply resolves_mono; [|exact Hres].
    intros x xn tx k c Hx Htyx Htx Hk. destruct (decide (x = d)) as [->|Hxd].
    + assert (xn = dn) as -> by congruence. assert (tx = t) as -> by congruence.
      eexists _, _. split; [apply lookup_insert_eq|]. split; [done|]. split; [done|].
      rewrite lookup_insert_ne; [done|]. congruence.
    + exists xn, tx. split; [|done]. rewrite lookup_insert_ne by done.
      rewrite lookup_insert_ne; [done|]. congruence.
  - eapply (resolves_cons _ _ (set_payload dn (dirhash (<[nm := child]> t))));
      [apply lookup_insert_eq|done|done|apply lookup_insert_eq|constructor].
Qed.

(** X6.  After a [create] or [create_dir] command that answers ok, the
    same path exists: creating it again fails whatever the kind, reading
    it gives the empty content for a file and fails for a directory, and
    deleting it, recursively or not, answers ok and gives back the tree
    as it was before the creation. *)
Theorem do_create_then h node saved ty h' :
  do_create h node saved ty = Ok (h', [RES_OK]) →
  (∀ ty', do_create h' node saved ty' = Ok (h', [RES_FAIL])) ∧
  do_read h' node saved =
    Ok (h', [match ty with File => RES_READ "" | Dir => RES_FAIL end]) ∧
  (∀ fuel recursive, fuel ≠ 0%nat →
     do_delete fuel h' node saved recursive = Ok (h, [RES_OK])).
Proof.
  intros (d & dn & pre & nm & Etoks & Hres & Hd & Hty & E)%do_create_Ok_inv.
  pose proof (fs_create_resolves _ _ _ _ _ _ _ _ Hres Hd Hty E) as Hres'.
  destruct (fs_create_then_delete _ _ _ _ _ E) as [_ Hdel].
  pose proof E as (pn & t & child & Hp & Ht & Hr & -> & Hfresh & Hcp & Eh)%fs_create_done.
  set (child := malloc_or_die h) in *.
  assert (Hc : h' !! child = Some (new_node d pn nm ty)).
  { rewrite Eh. rewrite lookup_insert_ne by done. apply lookup_insert_eq. }
  assert (Hpath : ∀ new_name,
    enter_path h' node None saved new_name = Ok (Some child, None)).
  { intros new_name. rewrite enter_path_walk.
    change (default saved None) with saved. rewrite Etoks.
    destruct (pre ++ [nm]) as [|tok toks] eqn:E'; [by destruct pre|].
    rewrite <- (app_nil_r (tok :: toks)).
    by rewrite (walk_resolves _ _ _ _ _ _ Hres'). }
  split; [|split].
  - intros ty'. unfold do_create. by rewrite Hpath.
  - unfold do_read. rewrite Hpath. simpl.
    unfold fs_get_file_content. rewrite (load_Some _ _ _ Hc). simpl. by destruct ty.
  - intros fuel recursive Hf. unfold do_delete. rewrite Hpath. simpl.
    destruct recursive.
    + rewrite (fs_delete_r_leaf fuel _ _ _ Hc); [by rewrite Hdel| |done].
      destruct ty; [by right|by left].
    + by rewrite Hdel.
Qed.

(** ** After a write *)

Lemma strtok_None_rest str delim saved rest :
  strtok str delim saved = (None, rest) → rest = "".
Proof. rewrite strtok_eq. destruct (skip_delims _ _); [by intros [= <-]|done]. Qed.

Lemma int_of_size_t_small x : 0 ≤ x < 2 ^ 31 → int_of_size_t x = x.
Proof. intros Hx. unfold int_of_size_t. rewrite Z.mod_small; lia. Qed.

(** X7.  After a [write] command that answers ok with a number, the
    number is the length of the content between the quotes converted to
    [int], which is the length itself below 2^31; a [read] of the same
    path gives that content, and the same [write] again answers the same
    and leaves the tree as it is. *)
Theorem do_write_then_read h node saved h' n :
  do_write h node saved = Ok (h', [RES_WRITE n]) →
  ∃ path saved1 c,
    strtok None delim_word saved = (Some path, saved1) ∧
    (strtok None delim_quote saved1).1 = Some c ∧
    n = int_of_size_t (Z.of_nat (String.length c)) ∧
    (Z.of_nat (String.length c) < 2 ^ 31 → n = Z.of_nat (String.length c)) ∧
    do_read h' node path = Ok (h', [RES_READ c]) ∧
    do_write h' node saved = Ok (h', [RES_WRITE n]).
Proof.
  unfold do_write.
  destruct (strtok None delim_word saved) as [path saved1] eqn:E1.
  destruct (strtok None delim_quote saved1) as [new_content saved2] eqn:E2.
  intros E. apply bind_Ok in E as ([on nm] & Epath & E).
  destruct on as [a|]; [|done]. destruct new_content as [c|]; [|done].
  apply bind_Ok in E as ([res h1] & Eset & E).
  destruct (decide (res = 0)) as [->|]; [|done]. injection E as <- <-.
  destruct path as [path|].
  2:{ apply strtok_None_rest in E1 as ->. by rewrite strtok_eq in E2. }
  destruct (fs_set_file_content_structure _ _ _ _ Eset) as [Hty Hfind].
  pose proof Eset as (an & s & Ha & Htn & Hs & Eh)%fs_set_file_content_done.
  assert (Hpath : enter_path h1 node (Some path) saved2 false = Ok (Some a, nm)).
  { by rewrite (enter_path_agree h h1). }
  exists path, saved1, c.
  split; [done|]. split; [by rewrite E2|]. split; [done|]. split; [|split].
  - intros Hlen. apply int_of_size_t_small. lia.
  - unfold do_read.
    assert (enter_path h1 node None path false = Ok (Some a, nm)) as ->.
    { rewrite <- Hpath. by rewrite !enter_path_walk. }
    simpl. rewrite Eh.
    by rewrite (fs_get_file_content_File _ _ _ c (lookup_insert_eq _ _ _)).
  - rewrite Hpath. simpl.
    assert (fs_set_file_content h1 a c = Ok (0, h1)) as ->; [|done].
    rewrite Eh at 1.
    rewrite (fs_set_file_content_File _ _ _ c c (lookup_insert_eq _ _ _)); [|done..].
    rewrite insert_insert_eq. by rewrite Eh.
Qed.

(** ** What a deletion or a creation leaves alone *)

Lemma walk_dir h a an t tok toks new_name :
  h !! a = Some an → type an = Dir → payload an = dirhash t →
  walk h a (tok :: toks) new_name =
    match t !! tok with
    | Some c => walk h c toks new_name
    | None => if new_name && bool_decide (toks = []) then Ok (Some a, Some tok)
              else Ok (None, None)
    end.
Proof.
  intros Ha Hty Ht. simpl. unfold fs_get_type, fs_find_in_dir.
  rewrite (load_Some _ _ _ Ha). simpl. destruct (decide (type an = Dir)); [|done].
  rewrite (proj2 (payload_dirhash_Ok _ _) Ht). simpl. by unfold hashtable_get.
Qed.

Lemma resolves_under root h a toks b :
  wf root h → resolves h a toks b → under h a b.
Proof.
  intros W. induction 1 as [|a an t tok c toks b Ha Hty Ht Hk Hres IH]; [constructor|].
  destruct (wf_nodes _ _ W _ _ Ha) as [_ _ _ _ Ch].
  destruct (Ch _ _ _ Ht Hk) as (cn & Hcn & _ & Hpc).
  eapply under_trans; [by eapply under_child|done].
Qed.

(** Below a node that is neither above nor below the pruned one, the
    resolver sees the same tree. *)
Lemma walk_off_path root h node h' new_name :
  wf root h → pruned h node h' →
  ∀ toks a, is_Some (h !! a) → ¬ under h node a → ¬ under h a node →
    walk h' a toks new_name = walk h a toks new_name.
Proof.
  intros W (n & p & pn & tp & Hn & Hp & Hpn & Htp & Hp' & Hgone & Hkeep).
  induction toks as [|tok toks IH]; intros a [an Ha] Hna Han; [done|].
  assert (Hap : a ≠ p).
  { intros ->. apply Han. by eapply under_child. }
  assert (Ha' : h' !! a = Some an) by (by rewrite Hkeep).
  destruct (wf_nodes _ _ W _ _ Ha) as [Tg _ _ _ Ch].
  destruct (type an) eqn:Hty.
  - destruct (tag_ok_Dir _ Tg Hty) as [t Ht].
    rewrite (walk_dir h' _ _ _ _ _ _ Ha' Hty Ht), (walk_dir h _ _ _ _ _ _ Ha Hty Ht).
    destruct (t !! tok) as [c|] eqn:Hk; [|done].
    destruct (Ch _ _ _ Ht Hk) as (cn & Hcn & _ & Hpc).
    apply IH; [eauto| |].
    + intros [->|(cn' & q & Hcn' & Hq & U)]%under_inv.
      * apply Han. by eapply under_child.
      * assert (q = a) as -> by congruence. done.
    + intros U. apply Han. eapply under_trans; [by eapply under_child|done].
  - by rewrite (walk_file h' _ _ _ _ _ Ha' Hty), (walk_file h _ _ _ _ _ Ha Hty).
Qed.

(** From a node above the pruned one, the resolver sees the same tree
    along every path that does not go through the pruned node. *)
Lemma walk_on_path root h node h' new_name :
  wf root h → pruned h node h' →
  ∀ a del, resolves h a del node → del ≠ [] →
    ∀ toks, ¬ del `prefix_of` toks →
      walk h' a toks new_name = walk h a toks new_name.
Proof.
  intros W P.
  pose proof P as (n & p & pn & tp & Hn & Hp & Hpn & Htp & Hp' & Hgone & Hkeep).
  intros a del Hres.
  induction Hres as [|a an t tok' c del b Ha Hty Ht Hk Hres IH];
    intros Hnil toks Hpre; [done|].
  destruct toks as [|tok toks]; [done|].
  destruct (wf_nodes _ _ W _ _ Ha) as [_ _ _ _ Ch].
  destruct (Ch _ _ _ Ht Hk) as (cn & Hcn & Hnm & Hpc).
  rewrite (walk_dir h _ _ _ _ _ _ Ha Hty Ht).
  assert (Hoff : ∀ c2, t !! tok = Some c2 → c2 ≠ c →
            walk h' c2 toks new_name = walk h c2 toks new_name).
  { intros c2 Hk2 Hne. destruct (Ch _ _ _ Ht Hk2) as (cn2 & Hcn2 & Hnm2 & Hpc2).
    pose proof (resolves_under _ _ _ _ _ W Hres) as Uc.
    eapply (walk_off_path root h b h'); [done..|eauto| |].
    - intros U. apply Hne. symmetry.
      eapply (siblings_disjoint root h a c cn c2 cn2 c2); try done; [|constructor].
      by eapply under_trans.
    - intros U. apply Hne. symmetry.
      by eapply (siblings_disjoint root h a c cn c2 cn2 b). }
  destruct (decide (del = [])) as [->|Hdel].
  - assert (c = b) as -> by (by inversion Hres).
    assert (cn = n) as -> by congruence.
    assert (a = p) as -> by congruence.
    assert (an = pn) as -> by congruence.
    assert (t = tp) as -> by congruence.
    assert (Hne : tok ≠ tok').
    { intros ->. apply Hpre. by exists toks. }
    rewrite (walk_dir h' p _ (delete tok' tp) _ _ _ Hp'); [|done|by rewrite <- Hnm].
    rewrite lookup_delete_ne by done.
    destruct (tp !! tok) as [c2|] eqn:Hk2; [|done].
    apply Hoff; [done|]. intros ->.
    destruct (Ch _ _ _ Htp Hk2) as (cn2 & Hcn2 & Hnm2 & _). congruence.
  - assert (Hlen : (0 < List.length del)%nat) by (destruct del; [done|simpl; lia]).
    pose proof (resolves_depth _ _ _ _ _ _ _ W Hres Hcn Hn) as Hdepth.
    destruct (wf_nodes _ _ W _ _ Hcn) as [_ _ _ Psc _].
    destruct (Psc _ Hpc) as (an' & ? & Han' & _ & _ & Hdc).
    assert (an' = an) as -> by congruence.
    destruct (wf_nodes _ _ W _ _ Hn) as [_ _ _ Ps _].
    destruct (Ps _ Hp) as (pn' & tp' & Hpn' & _ & _ & Hd).
    assert (pn' = pn) as -> by congruence.
    assert (Ha' : h' !! a = Some an).
    { rewrite Hkeep; [done| |].
      - intros U. destruct (under_depth _ _ _ _ _ _ W Hn Ha U). lia.
      - intros ->. assert (an = pn) as -> by congruence. lia. }
    rewrite (walk_dir h' _ _ _ _ _ _ Ha' Hty Ht).
    destruct (t !! tok) as [c2|] eqn:Hk2; [|done].
    destruct (decide (c2 = c)) as [->|Hne]; [|by apply Hoff].
    apply IH; try done. intros [k ->]. apply Hpre. exists k.
    destruct (Ch _ _ _ Ht Hk2) as (cn2 & Hcn2 & Hnm2 & _).
    assert (tok = tok') as -> by congruence. done.
Qed.

Lemma pruned_content root h node h' m :
  wf root h → pruned h node h' → is_Some (h' !! m) →
  fs_get_file_content h' m = fs_get_file_content h m.
Proof.
  intros W (n & p & pn & tp & Hn & Hp & Hpn & Htp & Hp' & Hgone & Hkeep) [mn Hm].
  destruct (decide (m = p)) as [->|Hmp].
  - destruct (wf_nodes _ _ W _ _ Hpn) as [Tg _ _ _ _].
    pose proof (tag_ok_dirhash _ _ Tg Htp) as Hty.
    unfold fs_get_file_content. rewrite (load_Some _ _ _ Hp'), (load_Some _ _ _ Hpn).
    simpl. rewrite Hty. by destruct (decide (Dir ≠ File)) as [|[]].
  - destruct (under_dec root h node m W) as [U|U].
    + rewrite (Hgone _ U) in Hm. done.
    + unfold fs_get_file_content, load. by rewrite Hkeep.
Qed.

(** The resolver and [read] on two trees of which one is the other
    without a node and its descendants. *)
Lemma pruned_frame root h node h' del path :
  wf root h → wf root h' → pruned h node h' →
  resolves h root del node → del ≠ [] →
  ¬ del `prefix_of` path_tokens path →
  (∀ new_name,
     enter_path h' root None path new_name = enter_path h root None path new_name) ∧
  ∃ out, do_read h root path = Ok (h, out) ∧ do_read h' root path = Ok (h', out).
Proof.
  intros W W' P Hres Hdel Hpre.
  assert (Hpath : ∀ new_name,
    enter_path h' root None path new_name = enter_path h root None path new_name).
  { intros new_name. rewrite !enter_path_walk.
    change (default path None) with path.
    destruct (path_tokens path) as [|tok toks]; [done|].
    by eapply walk_on_path. }
  split; [done|].
  destruct (do_read_inv root h path W) as [out Hout]. exists out. split; [done|].
  unfold do_read in *. rewrite Hpath.
  destruct (enter_path_safe root h' None path false W') as [[o onm] E].
  rewrite Hpath in E. rewrite E in Hout |- *. simpl in *.
  destruct o as [m|]; [|congruence].
  rewrite <- Hpath in E.
  destruct (enter_path_found _ _ _ _ _ _ W' E) as (_ & mn & _ & Hm & _).
  rewrite (pruned_content root h node h' m W P) by eauto.
  destruct (fs_get_file_content h m) as [[s|]| |]; simpl in *; congruence.
Qed.

(** X8.  A [delete] or [delete_r] command that answers ok leaves every
    path that does not go through the deleted one as it was: such a path
    resolves to the same node, with or without capture of a missing last
    component, and [read] answers the same. *)
Theorem do_delete_frame root h fuel saved recursive h' :
  wf root h → do_delete fuel h root saved recursive = Ok (h', [RES_OK]) →
  ∀ path, ¬ path_tokens saved `prefix_of` path_tokens path →
    (∀ new_name,
       enter_path h' root None path new_name = enter_path h root None path new_name) ∧
    ∃ out, do_read h root path = Ok (h, out) ∧ do_read h' root path = Ok (h', out).
Proof.
  intros W E path Hpre.
  destruct (do_delete_Ok_inv _ _ _ _ _ _ W E) as (n & nn & Hr & Hn & Hres & P & W').
  apply (pruned_frame root h n h' (path_tokens saved)); try done.
  intros Hnil. rewrite Hnil in Hres. by inversion Hres.
Qed.

(** X9.  A [create] or [create_dir] command that answers ok leaves every
    path that does not go through the new one as it was: such a path
    resolves to the same node, with or without capture of a missing last
    component, and [read] answers the same. *)
Theorem do_create_frame root h saved ty h' :
  wf root h → do_create h root saved ty = Ok (h', [RES_OK]) →
  ∀ path, ¬ path_tokens saved `prefix_of` path_tokens path →
    (∀ new_name,
       enter_path h' root None path new_name = enter_path h root None path new_name) ∧
    ∃ out, do_read h root path = Ok (h, out) ∧ do_read h' root path = Ok (h', out).
Proof.
  intros W (d & dn & pre & nm & Etoks & Hres & Hd & Hty & E)%do_create_Ok_inv path Hpre.
  pose proof (fs_create_resolves _ _ _ _ _ _ _ _ Hres Hd Hty E) as Hres'.
  destruct (fs_create_then_delete _ _ _ _ _ E) as [_ Hdel].
  pose proof E as (pn & t & child & Hp & Ht & Hr & -> & Hfresh & Hcp & Eh)%fs_create_done.
  set (child := malloc_or_die h) in *.
  assert (pn = dn) as -> by congruence.
  assert (Hkey : t !! nm = None).
  { destruct (t !! nm) eqn:E'; [|done]. destruct Hr. left. by rewrite E'. }
  assert (W' : wf root h') by (rewrite Eh; by apply fs_create_wf).
  assert (Hc : h' !! child = Some (new_node d dn nm ty)).
  { rewrite Eh. rewrite lookup_insert_ne by done. apply lookup_insert_eq. }
  assert (Hcr : child ≠ root).
  { intros Heq. destruct (wf_root _ _ W) as (r & Hroot & _). congruence. }
  destruct (fs_delete_Ok_pruned root h' child _ h W' Hc Hcr Hdel) as [P _].
  rewrite <- Etoks in Hres'.
  destruct (pruned_frame root h' child h (path_tokens saved) path) as [Hpath Hread];
    try done.
  { rewrite Etoks. by destruct pre. }
  split; [done|]. destruct Hread as (out & ? & ?). by exists out.
Qed.


(** ** What one command does to the tree *)

Lemma fs_create_Ok_wf root h p key ty h1 :
  wf root h → fs_create h p key ty = Ok (0, h1) → wf root h1.
Proof.
  intros W (pn & t & child & Hp & Ht & Hr & -> & Hfresh & Hcp & ->)%fs_create_done.
  apply fs_create_wf; try done.
  destruct (t !! key) eqn:E'; [|done]. destruct Hr. left. by rewrite E'.
Qed.

Lemma fs_set_file_content_Ok_wf root h a c h1 :
  wf root h → fs_set_file_content h a c = Ok (0, h1) → wf root h1.
Proof.
  intros W (n & s & Ha & Hty & Hs & ->)%fs_set_file_content_done.
  by apply fs_set_file_content_wf.
Qed.

Lemma do_create_effect h node saved ty h1 out :
  do_create h node saved ty = Ok (h1, out) →
  h1 = h ∨ ∃ p key, fs_create h p key ty = Ok (0, h1).
Proof.
  unfold do_create. intros E.
  apply bind_Ok in E as ([ob onm] & Epath & E).
  destruct onm as [nm|]; [|injection E as <- _; by left].
  apply bind_Ok in E as (d & _ & E).
  apply bind_Ok in E as ([res h2] & Ec & E). injection E as <- _.
  pose proof Ec as (pn & t & _ & _ & [(_ & -> & _)|(-> & _)])%fs_create_inv; [by left|].
  right. eauto.
Qed.

Lemma do_read_effect h node saved h1 out :
  do_read h node saved = Ok (h1, out) → h1 = h.
Proof.
  unfold do_read. intros E. apply bind_Ok in E as ([on nm] & _ & E).
  destruct on as [n|]; [|by injection E].
  apply bind_Ok in E as (c & _ & E). destruct c; by injection E.
Qed.

Lemma do_write_effect h node saved h1 out :
  do_write h node saved = Ok (h1, out) →
  h1 = h ∨ ∃ a c, fs_set_file_content h a c = Ok (0, h1).
Proof.
  unfold do_write.
  destruct (strtok None delim_word saved) as [path saved1].
  destruct (strtok None delim_quote saved1) as [new_content saved2].
  intros E. apply bind_Ok in E as ([on nm] & Epath & E).
  destruct on as [a|]; [|injection E as <- _; by left].
  destruct new_content as [c|]; [|injection E as <- _; by left].
  apply bind_Ok in E as ([res h2] & Eset & E).
  assert (h2 = h1) as -> by (by destruct (decide (res = 0)); injection E).
  pose proof Eset as (n & _ & [(_ & -> & _)|(-> & _)])%fs_set_file_content_inv;
    [by left|].
  right. eauto.
Qed.

Lemma do_delete_effect root h fuel saved recursive h1 out :
  wf root h → do_delete fuel h root saved recursive = Ok (h1, out) →
  h1 = h ∨ ∃ n, pruned h n h1 ∧ wf root h1.
Proof.
  intros W. unfold do_delete. intros E.
  apply bind_Ok in E as ([on nm] & Epath & E).
  destruct on as [n|]; [|injection E as <- _; by left].
  destruct (enter_path_found _ _ _ _ _ _ W Epath) as (Hr & nn & p & Hn & _).
  destruct recursive.
  - apply bind_Ok in E as (h2 & E1 & [= <- _]). right. exists n.
    by eapply fs_delete_r_Ok_pruned.
  - apply bind_Ok in E as ([res h2] & E1 & E). injection E as <- _.
    destruct (decide (res = 0)) as [->|Hres].
    + right. exists n. by eapply fs_delete_Ok_pruned.
    + left. unfold fs_delete in E1. rewrite (load_Some _ _ _ Hn) in E1. simpl in E1.
      destruct (type nn).
      * apply fs_free_dir_inv in E1 as [[_ ->]|]; done.
      * apply bind_Ok in E1 as (? & _ & E1). by injection E1 as <- <-.
Qed.

Lemma do_find_effect fuel h root saved h1 out :
  do_find fuel h root saved = Ok (h1, out) → h1 = h.
Proof.
  unfold do_find. destruct (strtok None delim_word saved) as [token ?].
  intros E. apply bind_Ok in E as (res & _ & E).
  destruct (decide (0 < List.length res)%nat); [|by injection E].
  apply bind_Ok in E as (paths & _ & E). by injection E.
Qed.

(** A command leaves the tree as it is, or does one creation, one
    assignment of a content or one pruning. *)
Lemma main_step_effect root fuel h line c h1 out :
  wf root h → main_step fuel h root line = Ok (c, h1, out) →
  wf root h1 ∧
  (h1 = h ∨ (∃ p key ty, fs_create h p key ty = Ok (0, h1)) ∨
   (∃ a s, fs_set_file_content h a s = Ok (0, h1)) ∨ (∃ n, pruned h n h1)).
Proof.
  intros W. unfold main_step.
  destruct (strtok (Some line) delim_word "") as [[tok|] saved]; cycle 1.
  { intros [= _ <- _]. eauto. }
  destruct (decide (tok = "create")).
  { intros ([h2 out2] & E1 & [= _ <- _])%bind_Ok.
    destruct (do_create_effect _ _ _ _ _ _ E1) as [->|(p & key & Ec)]; [eauto|].
    split; [by eapply fs_create_Ok_wf|]. right. left. eauto. }
  destruct (decide (tok = "create_dir")).
  { intros ([h2 out2] & E1 & [= _ <- _])%bind_Ok.
    destruct (do_create_effect _ _ _ _ _ _ E1) as [->|(p & key & Ec)]; [eauto|].
    split; [by eapply fs_create_Ok_wf|]. right. left. eauto. }
  destruct (decide (tok = "read")).
  { intros ([h2 out2] & E1 & [= _ <- _])%bind_Ok.
    rewrite (do_read_effect _ _ _ _ _ E1). eauto. }
  destruct (decide (tok = "write")).
  { intros ([h2 out2] & E1 & [= _ <- _])%bind_Ok.
    destruct (do_write_effect _ _ _ _ _ E1) as [->|(a & s & Es)]; [eauto|].
    split; [by eapply fs_set_file_content_Ok_wf|]. right. right. left. eauto. }
  destruct (decide (tok = "delete")).
  { intros ([h2 out2] & E1 & [= _ <- _])%bind_Ok.
    destruct (do_delete_effect _ _ _ _ _ _ _ W E1) as [->|(dn & P & W')]; [eauto|].
    split; [done|]. right. right. right. eauto. }
  destruct (decide (tok = "delete_r")).
  { intros ([h2 out2] & E1 & [= _ <- _])%bind_Ok.
    destruct (do_delete_effect _ _ _ _ _ _ _ W E1) as [->|(dn & P & W')]; [eauto|].
    split; [done|]. right. right. right. eauto. }
  destruct (decide (tok = "find")).
  { intros ([h2 out2] & E1 & [= _ <- _])%bind_Ok.
    rewrite (do_find_effect _ _ _ _ _ _ E1). eauto. }
  destruct (decide (tok = "exit")); intros [= _ <- _]; eauto.
Qed.

Lemma main_loop_preserves root (P : heap → Prop) :
  (∀ h p key ty h1, P h → fs_create h p key ty = Ok (0, h1) → P h1) →
  (∀ h a s h1, P h → fs_set_file_content h a s = Ok (0, h1) → P h1) →
  (∀ h n h1, P h → pruned h n h1 → P h1) →
  ∀ fuel lines h h' out,
    wf root h → P h → main_loop fuel h root lines = Ok (h', out) → P h'.
Proof.
  intros Hc Hs Hd fuel. induction lines as [|line lines IH]; intros h h' out W HP E.
  { by injection E as <- _. }
  simpl in E. destruct (decide (line = "")); [by injection E as <- _|].
  apply bind_Ok in E as ([[c h1] out1] & E1 & E).
  destruct (main_step_effect _ _ _ _ _ _ _ W E1) as [W1 Heff].
  assert (P1 : P h1).
  { destruct Heff as [->|[(p & key & ty & Ec)|[(a & s & Es)|(n' & Pr)]]]; eauto. }
  destruct c; [|by injection E as <- _].
  apply bind_Ok in E as ([h2 out2] & E2 & [= <- _]). by eapply IH.
Qed.

(** ** The limits of the header *)

Lemma fs_new_root_limits : limits_ok (fs_new_root ∅).2.
Proof.
  unfold fs_new_root. cbn [fst snd]. intros a n Ha.
  apply lookup_insert_Some in Ha as [[_ <-]|[_ Ha]]; [|by rewrite lookup_empty in Ha].
  split; [|done]. intros t [= <-]. by left.
Qed.

Lemma fs_create_limits h p key ty h1 :
  limits_ok h → fs_create h p key ty = Ok (0, h1) → limits_ok h1.
Proof.
  intros L (pn & t & child & Hp & Ht & Hr & -> & Hfresh & Hcp & ->)%fs_create_done a n Ha.
  assert (Hkey : t !! key = None).
  { destruct (t !! key) eqn:E'; [|done]. destruct Hr. left. by rewrite E'. }
  assert (H1 : ¬ Z.of_nat (size t) >= MAX_NODES) by (intros ?; apply Hr; right; by left).
  assert (H2 : ¬ Z.of_nat (String.length key) > MAX_NAMELENGHT)
    by (intros ?; apply Hr; right; right; by left).
  assert (H3 : ¬ depth pn >= MAX_DEPTH) by (intros ?; apply Hr; right; right; by right).
  apply lookup_insert_Some in Ha as [[<- <-]|[_ Ha]].
  - destruct (L _ _ Hp) as [_ Hlim]. split; [|exact Hlim].
    simpl. intros t' [= <-]. right. rewrite map_size_insert_None by done. lia.
  - apply lookup_insert_Some in Ha as [[<- <-]|[_ Ha]]; [|by apply (L a)].
    split.
    + intros t'. destruct ty; simpl; [|done]. intros [= <-]. by left.
    + intros _. simpl. lia.
Qed.

Lemma fs_set_file_content_limits h a c h1 :
  limits_ok h → fs_set_file_content h a c = Ok (0, h1) → limits_ok h1.
Proof.
  intros L (n & s & Ha & Hty & Hs & ->)%fs_set_file_content_done b bn Hb.
  apply lookup_insert_Some in Hb as [[<- <-]|[_ Hb]]; [|by apply (L b)].
  destruct (L _ _ Ha) as [_ Hlim]. split; [done|exact Hlim].
Qed.

Lemma pruned_limits h node h' :
  limits_ok h → pruned h node h' → limits_ok h'.
Proof.
  intros L (n & p & pn & tp & Hn & Hp & Hpn & Htp & Hp' & Hgone & Hkeep) a an Ha.
  destruct (decide (a = p)) as [->|Hap].
  - rewrite Hp' in Ha. injection Ha as <-. destruct (L _ _ Hpn) as [Ht Hlim].
    split; [|exact Hlim]. simpl. intros t [= <-].
    destruct (Ht _ Htp) as [->|Hle]; [left; apply delete_empty|right].
    pose proof (map_subseteq_size _ _ (delete_subseteq tp (name n))). lia.
  - rewrite Hkeep in Ha; [by apply (L a)| |done].
    intros U. by rewrite (Hgone _ U) in Ha.
Qed.

(** X10.  Whatever the commands, the tree that [main] has built keeps the
    limits of the header: no directory holds more than [MAX_NODES]
    entries, and every node but the root is at depth at most [MAX_DEPTH]
    under a name of at most [MAX_NAMELENGHT] characters. *)
Theorem main_limits fuel lines h out :
  main fuel lines = Ok (h, out) → limits_ok h.
Proof.
  intros E.
  apply (main_loop_preserves (fs_new_root ∅).1 limits_ok) with
    (fuel := fuel) (lines := lines) (h := (fs_new_root ∅).2) (out := out).
  - intros ? ? ? ? ?. apply fs_create_limits.
  - intros ? ? ? ?. apply fs_set_file_content_limits.
  - intros ? ? ?. apply pruned_limits.
  - apply fs_new_root_wf.
  - apply fs_new_root_limits.
  - exact E.
Qed.

(** X11.  On a tree whose root is at depth 1, as [fs_new_root] makes it,
    a [create] or [create_dir] command answers no and leaves the tree as
    it is when its path has [MAX_DEPTH] components or more, and when its
    last component is longer than [MAX_NAMELENGHT]. *)
Theorem do_create_limits root h rn saved ty :
  wf root h → h !! root = Some rn → depth rn = 1 →
  (MAX_DEPTH ≤ Z.of_nat (List.length (path_tokens saved)) ∨
   ∃ nm, last (path_tokens saved) = Some nm ∧
         MAX_NAMELENGHT < Z.of_nat (String.length nm)) →
  do_create h root saved ty = Ok (h, [RES_FAIL]).
Proof.
  intros W Hroot Hdepth Hlim. unfold do_create.
  destruct (enter_path_safe root h None saved true W) as [[ob onm] E].
  rewrite E. simpl. destruct onm as [nm|]; [|done].
  rewrite enter_path_walk in E. change (default saved None) with saved in E.
  destruct (path_tokens saved) as [|tok toks] eqn:Etoks; [done|].
  apply walk_captured in E as (d & pre & dn & t & -> & Epre & Hres & Hd & Hty & Ht & Hk).
  simpl. rewrite (fs_create_refused _ _ _ _ _ _ Hd Ht); [done|].
  pose proof (resolves_depth _ _ _ _ _ _ _ W Hres Hroot Hd) as Hdd.
  rewrite Epre in Hlim. destruct Hlim as [Hlim|(nm' & Hlast & Hlen)].
  - right. right. right. rewrite length_app in Hlim. simpl in Hlim. lia.
  - rewrite last_snoc in Hlast. injection Hlast as <-. right. right. left. lia.
Qed.

(** X12.  The command loop stops at an empty line and at [exit]: the
    lines that follow are not executed. *)
Theorem main_loop_stops fuel root line l2 :
  line = "" ∨ (strtok (Some line) delim_word "").1 = Some "exit" →
  ∀ l1 h,
    main_loop fuel h root (l1 ++ line :: l2) = main_loop fuel h root (l1 ++ [line]).
Proof.
  intros Hstop. induction l1 as [|l l1 IH]; intros h.
  - simpl. destruct (decide (line = "")); [done|].
    destruct Hstop as [?|Hexit]; [done|].
    unfold main_step. destruct (strtok (Some line) delim_word "") as [tok saved].
    simpl in Hexit. subst tok. repeat case_decide; done.
  - simpl. destruct (decide (l = "")); [done|].
    destruct (main_step fuel h root l) as [[[c h1] out1]| |]; simpl; try done.
    destruct c; [|done]. by rewrite IH.
Qed.

(** ** The answer of [find] *)

Lemma under_root root h a an : wf root h → h !! a = Some an → under h root a.
Proof.
  intros W.
  assert (Hk : ∀ (k : nat) b bn,
    h !! b = Some bn → (Z.to_nat (depth bn) < k)%nat → under h root b).
  { induction k as [|k IH]; intros b bn Hb Hk; [lia|].
    destruct (wf_nodes _ _ W _ _ Hb) as [_ Hd Pn Ps _].
    destruct (parent bn) as [p|] eqn:Hp.
    - destruct (Ps _ eq_refl) as (pn & t & Hpn & _ & _ & Hdp).
      destruct (wf_nodes _ _ W _ _ Hpn) as [_ Hd' _ _ _].
      eapply under_step; [done..|]. eapply IH; [done|lia].
    - rewrite (Pn eq_refl). constructor. }
  intros Ha. eapply Hk; [done|]. apply Nat.lt_succ_diag_r.
Qed.

Lemma get_paths_spec root h res :
  wf root h → (∀ a, a ∈ res → a ≠ root ∧ is_Some (h !! a)) →
  ∃ paths, settles (λ fuel, get_paths fuel h res) (Ok paths) ∧
    Forall2 (λ a p, ∃ toks, toks ≠ [] ∧ resolves h root toks a ∧ p = join toks "")
      res paths.
Proof.
  intros W. induction res as [|a res IH]; intros Hres.
  { exists []. split; [by exists 0%nat|constructor]. }
  destruct (Hres a) as [Hr [an Ha]]; [left|].
  destruct (fs_get_path_resolves _ _ _ _ W Ha Hr) as (toks & fuel0 & Hnil & Hto & Hp).
  destruct IH as (paths & Hps & HF); [intros x Hx; apply Hres; by right|].
  exists (join toks "" :: paths). split; [|constructor; eauto].
  simpl. eapply settles_bind; [by exists fuel0|]. simpl.
  eapply settles_bind; [exact Hps|]. by exists 0%nat.
Qed.

(** X13.  A [find] command with a name returns, for any fuel large
    enough, and leaves the tree as it is.  It answers no exactly when no
    node other than the root carries the name; otherwise its answer
    lists, in some order, one path for each such node, without
    repetition of a node, and each path is made of the names that lead
    from the root to the node. *)
Theorem do_find_spec root h saved nm rest :
  wf root h → strtok None delim_word saved = (Some nm, rest) →
  ∃ res paths out,
    settles (λ fuel, do_find fuel h root saved) (Ok (h, out)) ∧
    NoDup res ∧
    (∀ a, a ∈ res ↔ a ≠ root ∧ ∃ an, h !! a = Some an ∧ name an = nm) ∧
    Forall2 (λ a p, ∃ toks, toks ≠ [] ∧ resolves h root toks a ∧ p = join toks "")
      res paths ∧
    (res = [] → out = [RES_FAIL]) ∧
    (res ≠ [] → out ≡ₚ RES_FIND <$> paths).
Proof.
  intros W E. unfold do_find. rewrite E.
  destruct (wf_root _ _ W) as (r & Hr & _ & Hty).
  destruct (fs_find_r_total root h root r nm W Hr Hty) as (res & fuel0 & Hfind & ND & M).
  destruct (get_paths_spec root h res W) as (paths & Hpaths & HF).
  { intros a (Hne & _ & an & Ha & _)%M. eauto. }
  assert (M' : ∀ a, a ∈ res ↔ a ≠ root ∧ ∃ an, h !! a = Some an ∧ name an = nm).
  { intros a. rewrite M. unfold found_below. split.
    - intros (Hne & _ & Hn). done.
    - intros (Hne & an & Ha & Hnm). split; [done|]. split; [|eauto].
      by eapply under_root. }
  exists res, paths.
  destruct (decide (0 < List.length res)%nat) as [Hlen|Hlen].
  - exists (RES_FIND <$> merge_sort compare_str paths). split_and!; try done.
    + eapply settles_bind; [by exists fuel0|]. simpl.
      destruct (decide (0 < List.length res)%nat); [|done].
      eapply settles_bind; [exact Hpaths|]. by exists 0%nat.
    + intros ->. simpl in Hlen. lia.
    + intros _. by rewrite merge_sort_Permutation.
  - exists [RES_FAIL]. split_and!; try done.
    + eapply settles_bind; [by exists fuel0|]. simpl.
      destruct (decide (0 < List.length res)%nat); [done|]. by exists 0%nat.
    + intros Hne. destruct res; [done|simpl in Hlen; lia].
Qed.


(** ** The paths that [write] can name *)

Lemma clean_tokens_from d delim fuel saved :
  clean d saved = true → Forall (λ tok, clean d tok = true) (tokens_from fuel delim saved).
Proof.
  revert saved. induction fuel as [|fuel IH]; intros saved Hc; [constructor|].
  simpl. destruct (strtok None delim saved) as [[tok|] rest] eqn:E; [|constructor].
  destruct (clean_strtok d delim None saved tok rest Hc E) as [? ?].
  constructor; [done|by apply IH].
Qed.

Lemma clean_path_tokens d path :
  clean d path = true → Forall (λ tok, clean d tok = true) (path_tokens path).
Proof.
  intros Hc. unfold path_tokens.
  destruct (strtok (Some path) delim_first "") as [[tok|] rest] eqn:E; [|constructor].
  destruct (clean_strtok d delim_first (Some path) "" tok rest Hc E) as [? ?].
  constructor; [done|by apply clean_tokens_from].
Qed.

Lemma resolves_last_name root h a toks b :
  wf root h → resolves h a toks b → toks ≠ [] →
  ∃ bn, h !! b = Some bn ∧ last toks = Some (name bn).
Proof.
  intros W. induction 1 as [|a an t tok c toks b Ha Hty Ht Hk Hres IH]; [done|].
  intros _. destruct (wf_nodes _ _ W _ _ Ha) as [_ _ _ _ Ch].
  destruct (Ch _ _ _ Ht Hk) as (cn & Hcn & Hnm & _).
  destruct toks as [|tok' toks].
  - assert (c = b) as -> by (by inversion Hres). exists cn. by rewrite Hnm.
  - destruct IH as (bn & Hb & Hlast); [done|]. by exists bn.
Qed.

(** X14.  The path of a [write] command is one word of the line: a
    [write] never changes a node whose name holds a space, a line feed
    or a carriage return. *)
Theorem do_write_words root h saved h' out :
  wf root h → do_write h root saved = Ok (h', out) →
  ∀ a n, h !! a = Some n → clean delim_word (name n) = false → h' !! a = Some n.
Proof.
  intros W E a n Ha Hname. revert E. unfold do_write.
  destruct (strtok None delim_word saved) as [path saved1] eqn:E1.
  destruct (strtok None delim_quote saved1) as [new_content saved2] eqn:E2.
  intros E. apply bind_Ok in E as ([on nm] & Epath & E).
  destruct on as [b|]; [|by injection E as <- _].
  destruct new_content as [c|]; [|by injection E as <- _].
  apply bind_Ok in E as ([res h2] & Eset & E).
  assert (h2 = h') as -> by (by destruct (decide (res = 0)); injection E).
  apply fs_set_file_content_inv in Eset as (bn & Hb & [(_ & -> & _)|(_ & _ & ->)]);
    [done|].
  destruct (decide (a = b)) as [->|Hab]; [|by rewrite lookup_insert_ne].
  exfalso. assert (bn = n) as -> by congruence.
  destruct path as [path|].
  2:{ apply strtok_None_rest in E1 as ->. by rewrite strtok_eq in E2. }
  apply strtok_component_out in E1 as [_ Hclean].
  rewrite enter_path_walk in Epath. change (default saved2 (Some path)) with path in Epath.
  pose proof (clean_path_tokens delim_word path Hclean) as Hall.
  destruct (path_tokens path) as [|tok toks] eqn:Etoks; [done|].
  apply walk_found in Epath as [Hres _].
  destruct (resolves_last_name _ _ _ _ _ W Hres) as (bn & Hb' & Hlast); [done|].
  assert (bn = n) as -> by congruence.
  apply last_Some_elem_of in Hlast.
  rewrite Forall_forall in Hall. rewrite (Hall _ Hlast) in Hname. done.
Qed.

End Properties.

(** * The properties on the concrete tree *)

#[local] Existing Instance ex_hdr.

Ltac run := vm_compute; reflexivity.
Ltac decided := apply (bool_decide_unpack _); vm_compute; exact I.

Lemma ex_tree_wf : wf ex_root ex_tree.
Proof. apply wfb_sound. run. Qed.

Lemma ex_tree_names_ok : names_ok ex_root ex_tree.
Proof. apply names_okb_sound. run. Qed.

Lemma ex_slash_wf : wf ex_root ex_slash.
Proof. apply wfb_sound. run. Qed.

(** The scenario of the specification: create a directory and a file in
    it, write and read the file, fail to delete the directory, delete it
    recursively, fail to read the file. *)
Example scenario :
  ∃ h, main 16
    [ "create_dir /a" +:+ LF;
      "create /a/f" +:+ LF;
      "write /a/f " +:+ quote +:+ "hello" +:+ quote +:+ LF;
      "read /a/f" +:+ LF;
      "delete /a" +:+ LF;
      "delete_r /a" +:+ LF;
      "read /a/f" +:+ LF ] =
  Ok (h, [RES_OK; RES_OK; RES_WRITE 5; RES_READ "hello"; RES_FAIL; RES_OK; RES_FAIL]).
Proof. eexists. run. Qed.

(** [fs_create_spec] at the directory /a: the name f is taken, the name
    g is free. *)
Lemma fs_create_spec_witness :
  fs_create ex_tree 2%positive "f" File = Ok (-1, ex_tree) ∧
  ∃ h', fs_create ex_tree 2%positive "g" Dir = Ok (0, h').
Proof.
  split.
  - apply (fs_create_spec ex_tree 2%positive "f" File (node_at ex_tree 2%positive)
             (table_of (node_at ex_tree 2%positive))); [run|run|].
    left. vm_compute. discriminate.
  - destruct (fs_create_spec ex_tree 2%positive "g" Dir (node_at ex_tree 2%positive)
                (table_of (node_at ex_tree 2%positive))) as [_ Hg]; [run|run|].
    destruct Hg as (child & cn & _ & _ & _ & _ & _ & _ & E); [decided|].
    eexists. exact E.
Defined.


(** [fs_delete_r_spec] at the directory /a: /a/log/log is gone and the
    path /a no longer resolves. *)
Lemma fs_delete_r_spec_witness :
  ∃ h' fuel0,
    (∀ fuel, (fuel0 ≤ fuel)%nat → fs_delete_r fuel ex_tree 2%positive = Ok h') ∧
    h' !! 5%positive = None ∧
    enter_path h' ex_root (Some "/a") "" false = Ok (None, None).
Proof.
  destruct (fs_delete_r_spec ex_root ex_tree 2%positive (node_at ex_tree 2%positive))
    as (h' & fuel0 & p & pn & t & Hrun & _ & _ & _ & _ & Hgone & _ & _ & _ & Hpath);
    [exact ex_tree_wf|run|done|].
  exists h', fuel0. split; [exact Hrun|]. split.
  - apply Hgone. eapply (under_step _ _ _ (node_at ex_tree 5%positive)); [run|run|].
    eapply (under_step _ _ _ (node_at ex_tree 4%positive)); [run|run|constructor].
  - apply Hpath.
    eapply (resolves_cons _ _ (node_at ex_tree ex_root)); [run|run|run|run|constructor].
Defined.

(** [fs_delete_spec] at the file /a/f and at the directory /a, which
    is not empty. *)
Lemma fs_delete_spec_witness :
  (∃ h', fs_delete ex_tree 3%positive = Ok (0, h')) ∧
  fs_delete ex_tree 2%positive = Ok (-1, ex_tree).
Proof.
  split.
  - destruct (fs_delete_spec ex_root ex_tree 3%positive (node_at ex_tree 3%positive))
      as (p & pn & t & _ & _ & _ & Hfile & _); [exact ex_tree_wf|run|done|].
    eexists. apply Hfile. run.
  - destruct (fs_delete_spec ex_root ex_tree 2%positive (node_at ex_tree 2%positive))
      as (p & pn & t & _ & _ & _ & _ & Hdir & _); [exact ex_tree_wf|run|done|].
    apply (Hdir (table_of (node_at ex_tree 2%positive))); [run|run|].
    vm_compute. discriminate.
Defined.

(** [fs_find_r_spec] for the name log: the directory /a/log and the
    file /a/log/log in it are both found, /a is not. *)
Lemma fs_find_r_spec_witness :
  ∃ res fuel0,
    (∀ fuel, (fuel0 ≤ fuel)%nat →
       fs_find_r fuel ex_tree ex_root (Some "log") [] = Ok res) ∧
    4%positive ∈ res ∧ 5%positive ∈ res ∧ 2%positive ∉ res.
Proof.
  destruct (fs_find_r_spec ex_root ex_tree ex_root (node_at ex_tree ex_root) "log")
    as (res & fuel0 & Hrun & _ & M); [exact ex_tree_wf|run|run|].
  assert (U2 : under ex_tree ex_root 2%positive).
  { eapply (under_step _ _ _ (node_at ex_tree 2%positive)); [run|run|constructor]. }
  assert (U4 : under ex_tree ex_root 4%positive).
  { eapply (under_step _ _ _ (node_at ex_tree 4%positive)); [run|run|exact U2]. }
  assert (U5 : under ex_tree ex_root 5%positive).
  { eapply (under_step _ _ _ (node_at ex_tree 5%positive)); [run|run|exact U4]. }
  exists res, fuel0. split; [exact Hrun|]. split; [|split].
  - apply M. split; [done|]. split; [exact U4|].
    exists (node_at ex_tree 4%positive). split; run.
  - apply M. split; [done|]. split; [exact U5|].
    exists (node_at ex_tree 5%positive). split; run.
  - intros (_ & _ & an & Han & Hnm)%M. vm_compute in Han. injection Han as <-.
    discriminate Hnm.
Defined.

(** [path_roundtrip] at the file /a/log/log. *)
Lemma path_roundtrip_witness :
  ∃ path fuel0,
    (∀ fuel, (fuel0 ≤ fuel)%nat → fs_get_path fuel ex_tree 5%positive = Ok path) ∧
    enter_path ex_tree ex_root (Some path) "" false = Ok (Some 5%positive, None).
Proof.
  apply (path_roundtrip ex_root ex_tree 5%positive (node_at ex_tree 5%positive) "");
    [exact ex_tree_wf|exact ex_tree_names_ok|run|done].
Defined.

(** [fs_get_path_spec] at the file /a/f. *)
Lemma fs_get_path_spec_witness :
  ∃ toks fuel0,
    toks ≠ [] ∧ resolves ex_tree ex_root toks 3%positive ∧
    ∀ fuel, (fuel0 ≤ fuel)%nat → fs_get_path fuel ex_tree 3%positive = Ok (join toks "").
Proof.
  apply (fs_get_path_spec ex_root ex_tree 3%positive (node_at ex_tree 3%positive));
    [exact ex_tree_wf|run|done].
Defined.

(** [content_roundtrip] for a new file /a/g, and for the failing cases
    at the root of the tree that [fs_new_root] alone has built and at the
    directory /a/log. *)
Lemma content_roundtrip_witness :
  (∃ child h2,
     fs_find_in_dir ex_tree_g 2%positive "g" = Ok (Some child) ∧
     fs_set_file_content ex_tree_g child "data" = Ok (0, h2) ∧
     fs_get_file_content h2 child = Ok (Some "data")) ∧
  (fs_set_file_content ex_empty ex_root "data" = Ok (-1, ex_empty) ∧
   fs_get_file_content ex_empty ex_root = Ok None) ∧
  (fs_set_file_content ex_tree 4%positive "data" = Ok (-1, ex_tree) ∧
   fs_get_file_content ex_tree 4%positive = Ok None).
Proof.
  split; [|split].
  - apply (proj1 (content_roundtrip ex_tree 2%positive "g" "data" ex_tree_g
                    ex_empty ex_root (node_at ex_empty ex_root) "data")). run.
  - destruct (proj2 (content_roundtrip ex_tree 2%positive "g" "data" ex_tree_g
                       ex_empty ex_root (node_at ex_empty ex_root) "data"))
      as [Hs Hg]; [run|].
    split; [apply Hs|apply Hg]; vm_compute; discriminate.
  - destruct (proj2 (content_roundtrip ex_tree 2%positive "g" "data" ex_tree_g
                       ex_tree 4%positive (node_at ex_tree 4%positive) "data"))
      as [Hs Hg]; [run|].
    split; [apply Hs|apply Hg]; vm_compute; discriminate.
Defined.

(** [failed_mutation_unchanged] at the refused deletion of /a. *)
Lemma failed_mutation_unchanged_witness :
  apply_mutation ex_tree (Delete 2%positive) = Ok (-1, ex_tree) ∧ ex_tree = ex_tree.
Proof.
  assert (E : apply_mutation ex_tree (Delete 2%positive) = Ok (-1, ex_tree)) by run.
  split; [exact E|].
  apply (failed_mutation_unchanged ex_tree (Delete 2%positive) (-1) ex_tree E). done.
Defined.

(** [deletion_needs_parent] on the concrete tree and on the empty
    root: the command delete_r on a path without components leaves a
    well-formed tree. *)
Lemma deletion_needs_parent_witness :
  settles (λ fuel, fs_delete_r fuel ex_tree ex_root) Fault ∧
  fs_free_dir ex_empty ex_root = Fault ∧
  ∃ r, settles (λ fuel, main_loop fuel ex_tree ex_root ["delete_r /" +:+ LF]) r ∧
       r ≠ NoFuel ∧ ∀ h' out, r = Ok (h', out) → wf ex_root h' ∧ names_ok ex_root h'.
Proof.
  destruct (deletion_needs_parent ex_root ex_tree ex_tree_wf ex_tree_names_ok)
    as (_ & Hroot & _ & _ & _ & Hloop & _).
  split; [exact Hroot|]. split; [|apply Hloop].
  destruct (deletion_needs_parent ex_root ex_empty) as (Hfree & _).
  - apply wfb_sound. run.
  - apply names_okb_sound. run.
  - apply (Hfree ex_root (node_at ex_empty ex_root)); run.
Defined.


(** C3 as stated fails on the root: [fs_delete_r] releases what is below
    the root and then dereferences the parent that the root lacks. *)
Lemma fs_delete_r_root_counterexample :
  wf ex_root ex_tree ∧ is_Some (ex_tree !! ex_root) ∧
  ¬ ∃ fuel h', fs_delete_r fuel ex_tree ex_root = Ok h'.
Proof.
  split; [exact ex_tree_wf|]. split; [by eexists|].
  intros (fuel & h' & E).
  destruct (fs_delete_r_root ex_root ex_tree ex_tree_wf) as [fuel0 Hf].
  specialize (Hf (fuel `max` fuel0)%nat ltac:(lia)).
  rewrite (fs_delete_r_mono fuel _ _ _ _ E) in Hf; [discriminate|done|lia].
Qed.

(** C6 as stated fails on the root, for which [fs_get_path] returns no
    string, and on a node whose name holds a slash, which [fs_create]
    accepts: its path resolves to nothing. *)
Lemma path_roundtrip_counterexample :
  (wf ex_root ex_tree ∧
   ¬ ∃ fuel path, fs_get_path fuel ex_tree ex_root = Ok path ∧
       enter_path ex_tree ex_root (Some path) "" false = Ok (Some ex_root, None)) ∧
  (wf ex_root ex_slash ∧ is_Some (ex_slash !! 2%positive) ∧
   ¬ ∃ fuel path, fs_get_path fuel ex_slash 2%positive = Ok path ∧
       enter_path ex_slash ex_root (Some path) "" false = Ok (Some 2%positive, None)).
Proof.
  split; (split; [first [exact ex_tree_wf|exact ex_slash_wf]|]).
  - intros (fuel & path & E & _). destruct fuel as [|fuel]; [done|].
    by rewrite (fs_get_path_root ex_root ex_tree (S fuel) ex_tree_wf) in E.
  - split; [by eexists|]. intros (fuel & path & E & E').
    assert (E10 : fs_get_path 10 ex_slash 2%positive = Ok "/x/y") by run.
    apply (fs_get_path_loop_mono _ (fuel `max` 10)%nat) in E; [|done|lia].
    apply (fs_get_path_loop_mono _ (fuel `max` 10)%nat) in E10; [|done|lia].
    assert (path = "/x/y") as -> by congruence.
    vm_compute in E'. discriminate.
Qed.

(** C7 as stated fails on the root: after the first round the loop
    tests the parent of the absent parent of the root. *)
Lemma fs_get_path_root_counterexample :
  wf ex_root ex_empty ∧ is_Some (ex_empty !! ex_root) ∧
  ¬ ∃ fuel path, fs_get_path fuel ex_empty ex_root = Ok path.
Proof.
  assert (W : wf ex_root ex_empty) by (apply wfb_sound; run).
  split; [exact W|]. split; [by eexists|].
  intros (fuel & path & E). destruct fuel as [|fuel]; [done|].
  by rewrite (fs_get_path_root ex_root ex_empty (S fuel) W) in E.
Qed.


Lemma ex_tree_sp_wf : wf ex_root ex_tree_sp.
Proof. apply wfb_sound. run. Qed.

(** [fs_create_delete_roundtrip] at the new file /a/g. *)
Lemma fs_create_delete_roundtrip_witness :
  ∃ child,
    fs_find_in_dir ex_tree_g 2%positive "g" = Ok (Some child) ∧
    fs_delete ex_tree_g child = Ok (0, ex_tree) ∧
    fs_delete_r 1 ex_tree_g child = Ok ex_tree.
Proof.
  destruct (fs_create_delete_roundtrip ex_tree 2%positive "g" File ex_tree_g)
    as (child & Hf & Hd & Hr); [run|].
  exists child. split; [exact Hf|]. split; [exact Hd|]. by apply Hr.
Defined.

(** [fs_create_lookup] at the new file /a/g: the name was free, it is
    now taken, and the entry f of /a is as before. *)
Lemma fs_create_lookup_witness :
  fs_find_in_dir ex_tree 2%positive "g" = Ok None ∧
  ∃ child,
    fs_find_in_dir ex_tree_g 2%positive "g" = Ok (Some child) ∧
    fs_get_type ex_tree_g child = Ok File ∧
    fs_create ex_tree_g 2%positive "g" Dir = Ok (-1, ex_tree_g) ∧
    fs_find_in_dir ex_tree_g 2%positive "f" = fs_find_in_dir ex_tree 2%positive "f".
Proof.
  destruct (fs_create_lookup ex_tree 2%positive "g" File ex_tree_g)
    as (H0 & child & _ & Hf & Hty & Hagain & Hk & _); [run|].
  split; [exact H0|]. exists child.
  split; [exact Hf|]. split; [exact Hty|]. split; [apply Hagain|by apply Hk].
Defined.

(** [fs_set_file_content_frame] at the file /a/f: the content of
    /a/log/log and the path /a/f are as before. *)
Lemma fs_set_file_content_frame_witness :
  ∃ h1,
    fs_set_file_content ex_tree 3%positive "bye" = Ok (0, h1) ∧
    fs_get_file_content h1 3%positive = Ok (Some "bye") ∧
    fs_get_file_content h1 5%positive = fs_get_file_content ex_tree 5%positive ∧
    enter_path h1 ex_root (Some "/a/f") "" false =
      enter_path ex_tree ex_root (Some "/a/f") "" false.
Proof.
  assert (E : ∃ h1, fs_set_file_content ex_tree 3%positive "bye" = Ok (0, h1))
    by (eexists; run).
  destruct E as [h1 E]. exists h1. split; [exact E|].
  destruct (fs_set_file_content_frame ex_tree 3%positive "bye" h1 E)
    as (Hget & _ & Hother & _ & _ & Hpath).
  split; [exact Hget|]. split; [by apply Hother|apply Hpath].
Defined.

(** [enter_path_resolves] on the path /a/log. *)
Lemma enter_path_resolves_witness :
  ∃ o,
    enter_path ex_tree ex_root (Some "/a/log") "" false = Ok (o, None) ∧
    (o = Some 4%positive ↔
       path_tokens "/a/log" ≠ [] ∧
       resolves ex_tree ex_root (path_tokens "/a/log") 4%positive).
Proof.
  destruct (enter_path_resolves ex_root ex_tree ex_root (Some "/a/log") "")
    as (o & E & Hiff); [exact ex_tree_wf|eexists; run|].
  exists o. split; [exact E|apply Hiff].
Defined.

(** [do_delete_then_gone] for delete_r /a: /a and /a/log/log are gone. *)
Lemma do_delete_then_gone_witness :
  ∃ h',
    do_delete 8 ex_tree ex_root "/a" true = Ok (h', [RES_OK]) ∧
    do_read h' ex_root "/a" = Ok (h', [RES_FAIL]) ∧
    do_delete 8 h' ex_root "/a" false = Ok (h', [RES_FAIL]) ∧
    enter_path h' ex_root None "/a/log/log" false = Ok (None, None).
Proof.
  assert (E : ∃ h', do_delete 8 ex_tree ex_root "/a" true = Ok (h', [RES_OK]))
    by (eexists; run).
  destruct E as [h' E]. exists h'. split; [exact E|].
  destruct (do_delete_then_gone ex_root ex_tree 8 "/a" true h' ex_tree_wf E)
    as (Hr & Hd & Hp).
  split; [exact Hr|]. split; [apply Hd|].
  apply (Hp None "/a/log/log" ["log"; "log"]). run.
Defined.

(** [do_create_then] for create /a/g. *)
Lemma do_create_then_witness :
  ∃ h',
    do_create ex_tree ex_root "/a/g" File = Ok (h', [RES_OK]) ∧
    do_create h' ex_root "/a/g" Dir = Ok (h', [RES_FAIL]) ∧
    do_read h' ex_root "/a/g" = Ok (h', [RES_READ ""]) ∧
    do_delete 1 h' ex_root "/a/g" false = Ok (ex_tree, [RES_OK]).
Proof.
  assert (E : ∃ h', do_create ex_tree ex_root "/a/g" File = Ok (h', [RES_OK]))
    by (eexists; run).
  destruct E as [h' E]. exists h'. split; [exact E|].
  destruct (do_create_then ex_tree ex_root "/a/g" File h' E) as (Hc & Hr & Hd).
  split; [apply Hc|]. split; [exact Hr|]. by apply Hd.
Defined.

(** [do_write_then_read] for a write of bye to /a/f. *)
Lemma do_write_then_read_witness :
  ∃ h',
    do_write ex_tree ex_root ("/a/f " +:+ quote +:+ "bye" +:+ quote) =
      Ok (h', [RES_WRITE 3]) ∧
    do_read h' ex_root "/a/f" = Ok (h', [RES_READ "bye"]) ∧
    do_write h' ex_root ("/a/f " +:+ quote +:+ "bye" +:+ quote) =
      Ok (h', [RES_WRITE 3]).
Proof.
  assert (E : ∃ h', do_write ex_tree ex_root ("/a/f " +:+ quote +:+ "bye" +:+ quote) =
                      Ok (h', [RES_WRITE 3])) by (eexists; run).
  destruct E as [h' E]. exists h'. split; [exact E|].
  destruct (do_write_then_read ex_tree ex_root _ h' 3 E)
    as (path & saved1 & c & Hp & Hc & _ & _ & Hr & Hw).
  vm_compute in Hp. injection Hp as <- <-.
  vm_compute in Hc. injection Hc as <-.
  split; [exact Hr|exact Hw].
Defined.

(** [do_delete_frame] for delete_r /a: the path /b is as before. *)
Lemma do_delete_frame_witness :
  ∃ h' out,
    do_delete 8 ex_tree ex_root "/a" true = Ok (h', [RES_OK]) ∧
    enter_path h' ex_root None "/b" false = enter_path ex_tree ex_root None "/b" false ∧
    do_read ex_tree ex_root "/b" = Ok (ex_tree, out) ∧
    do_read h' ex_root "/b" = Ok (h', out).
Proof.
  assert (E : ∃ h', do_delete 8 ex_tree ex_root "/a" true = Ok (h', [RES_OK]))
    by (eexists; run).
  destruct E as [h' E].
  destruct (do_delete_frame ex_root ex_tree 8 "/a" true h' ex_tree_wf E "/b")
    as (Hp & out & H1 & H2).
  { intros [k Hk]. vm_compute in Hk. discriminate Hk. }
  exists h', out. split; [exact E|]. split; [apply Hp|]. by split.
Defined.

(** [do_create_frame] for create /a/g: the path /a/f is as before. *)
Lemma do_create_frame_witness :
  ∃ h' out,
    do_create ex_tree ex_root "/a/g" File = Ok (h', [RES_OK]) ∧
    enter_path h' ex_root None "/a/f" true = enter_path ex_tree ex_root None "/a/f" true ∧
    do_read ex_tree ex_root "/a/f" = Ok (ex_tree, out) ∧
    do_read h' ex_root "/a/f" = Ok (h', out).
Proof.
  assert (E : ∃ h', do_create ex_tree ex_root "/a/g" File = Ok (h', [RES_OK]))
    by (eexists; run).
  destruct E as [h' E].
  destruct (do_create_frame ex_root ex_tree "/a/g" File h' ex_tree_wf E "/a/f")
    as (Hp & out & H1 & H2).
  { intros [k Hk]. vm_compute in Hk. discriminate Hk. }
  exists h', out. split; [exact E|]. split; [apply Hp|]. by split.
Defined.

(** [main_limits] on the commands that build the concrete tree. *)
Lemma main_limits_witness :
  ∃ out, main 16 ex_lines = Ok (ex_tree, out) ∧ limits_ok ex_tree.
Proof.
  assert (E : ∃ out, main 16 ex_lines = Ok (ex_tree, out)) by (eexists; run).
  destruct E as [out E]. exists out. split; [exact E|].
  exact (main_limits 16 ex_lines ex_tree out E).
Defined.

(** [do_create_limits] for a name of 256 characters in /a. *)
Lemma do_create_limits_witness :
  String.length ex_long = 256%nat ∧
  do_create ex_tree ex_root ("/a/" +:+ ex_long) File = Ok (ex_tree, [RES_FAIL]).
Proof.
  split; [run|].
  apply (do_create_limits ex_root ex_tree (node_at ex_tree ex_root)
           ("/a/" +:+ ex_long) File ex_tree_wf); [run|run|].
  right. exists ex_long. split; run.
Defined.

(** [main_loop_stops] at an exit after the commands that build the
    concrete tree. *)
Lemma main_loop_stops_witness :
  main_loop 16 ex_empty ex_root
    (ex_lines ++ ("exit" +:+ LF) :: ["delete_r /a" +:+ LF]) =
  main_loop 16 ex_empty ex_root (ex_lines ++ ["exit" +:+ LF]).
Proof.
  apply (main_loop_stops 16 ex_root ("exit" +:+ LF) ["delete_r /a" +:+ LF]).
  right. run.
Defined.

(** [do_find_spec] for find log. *)
Lemma do_find_spec_witness :
  ∃ res paths out,
    settles (λ fuel, do_find fuel ex_tree ex_root " log") (Ok (ex_tree, out)) ∧
    NoDup res ∧
    (4%positive ∈ res ∧ 5%positive ∈ res) ∧
    Forall2 (λ a p, ∃ toks, toks ≠ [] ∧ resolves ex_tree ex_root toks a ∧
                            p = join toks "") res paths ∧
    out ≡ₚ RES_FIND <$> paths.
Proof.
  destruct (do_find_spec ex_root ex_tree " log" "log" "" ex_tree_wf)
    as (res & paths & out & Hrun & ND & M & HF & _ & Hout); [run|].
  assert (H4 : 4%positive ∈ res).
  { apply M. split; [done|]. exists (node_at ex_tree 4%positive). split; run. }
  assert (H5 : 5%positive ∈ res).
  { apply M. split; [done|]. exists (node_at ex_tree 5%positive). split; run. }
  exists res, paths, out. split; [exact Hrun|]. split; [exact ND|].
  split; [by split|]. split; [exact HF|]. apply Hout.
  intros ->. by apply elem_of_nil in H4.
Defined.

(** [do_write_words] for a write to the path /a/b c: the file named
    with a space is as before, and the content went to /a/b. *)
Lemma do_write_words_witness :
  ∃ h',
    do_write ex_tree_sp ex_root ("/a/b c " +:+ quote +:+ "x" +:+ quote) =
      Ok (h', [RES_WRITE 2]) ∧
    name (node_at ex_tree_sp 7%positive) = "b c" ∧
    h' !! 7%positive = Some (node_at ex_tree_sp 7%positive) ∧
    fs_get_file_content h' 8%positive = Ok (Some "c ").
Proof.
  assert (E : ∃ h', do_write ex_tree_sp ex_root
                      ("/a/b c " +:+ quote +:+ "x" +:+ quote) =
                    Ok (h', [RES_WRITE 2]) ∧
                    fs_get_file_content h' 8%positive = Ok (Some "c ")).
  { eexists. split; run. }
  destruct E as (h' & E & Hc). exists h'. split; [exact E|]. split; [run|].
  split; [|exact Hc].
  apply (do_write_words ex_root ex_tree_sp _ h' _ ex_tree_sp_wf E); run.
Defined.
